(** * external-dns INWX webhook: the reconciliation engine

    A shallow embedding of the provider ([getZone], [extractRecordName],
    [getRecIDs], [findRecordsByNameAndType], [findExactRecord], [Records],
    [ApplyChanges]) and of the in-memory registrar [MockClientWrapper],
    with the properties of the engine proved over it. *)

From Stdlib Require Import ZArith Ascii DecimalString DecimalNat.
From stdpp Require Import gmap strings list fin_maps.

Local Open Scope Z_scope.
Local Open Scope nat_scope.

(** ** Go's [strings] package, as far as the provider uses it

    A Go string is a sequence of bytes; [string] is a sequence of 8-bit
    characters and [String.length] is Go's [len]. *)
Module Strings.

(** [s[:n]] *)
Fixpoint prefix_of (n : nat) (s : string) : string :=
  match n, s with
  | S n', String c s' => String c (prefix_of n' s')
  | _, _ => ""
  end.

(** [s[n:]] *)
Fixpoint suffix_from (n : nat) (s : string) : string :=
  match n, s with
  | S n', String _ s' => suffix_from n' s'
  | _, _ => s
  end.

(** [strings.HasSuffix]:
    [len(s) >= len(suffix) && s[len(s)-len(suffix):] == suffix] *)
Definition HasSuffix (s suffix : string) : bool :=
  bool_decide (String.length suffix ≤ String.length s)
  && bool_decide (suffix_from (String.length s - String.length suffix) s = suffix).

(** [strings.TrimSuffix]: [s] without the trailing [suffix], or [s]
    itself when it does not end with [suffix]. *)
Definition TrimSuffix (s suffix : string) : string :=
  if HasSuffix s suffix
  then prefix_of (String.length s - String.length suffix) s
  else s.

(** [strings.Split] for a separator of one byte (the provider only ever
    splits on ["."]): the substrings between the separators, so one more
    element than there are separators, and [[""]] for the empty string. *)
Fixpoint Split (s : string) (sep : ascii) : list string :=
  match s with
  | "" => [""]
  | String c s' =>
      if bool_decide (c = sep) then "" :: Split s' sep
      else match Split s' sep with
           | l :: ls => String c l :: ls
           | [] => [String c ""]
           end
  end.

(** [strings.Join] *)
Fixpoint Join (elems : list string) (sep : string) : string :=
  match elems with
  | [] => ""
  | [e] => e
  | e :: es => e +:+ sep +:+ Join es sep
  end.

End Strings.
Import Strings.

(** ** Data model *)

(** [endpoint.Endpoint], with the fields the provider reads or writes. *)
Record Endpoint := mkEndpoint {
  DNSName : string;
  Targets : list string;
  RecordType : string;
  RecordTTL : Z;
}.

(** [inwx.NameserverRecord] *)
Record NameserverRecord := mkRecord {
  ID : string;
  Name : string;
  Type_ : string;   (* the field [Type] *)
  Content : string;
  TTL : Z;
  Priority : Z;
}.

(** [inwx.NameserverRecordRequest] *)
Record NameserverRecordRequest := mkRequest {
  rqDomain : string;
  rqName : string;
  rqType : string;
  rqContent : string;
  rqTTL : Z;
  rqPriority : Z;
}.

(** [plan.Changes] *)
Record Changes := mkChanges {
  Create : list Endpoint;
  UpdateOld : list Endpoint;
  UpdateNew : list Endpoint;
  Delete : list Endpoint;
}.

(** Go's [error] values as the provider and its clients build them. *)
Inductive error :=
  | ErrorResponse (code : Z) (message : string)
      (* *inwx.ErrorResponse, an error of the registrar's API *)
  | ErrNoMatchingZone (ep : Endpoint)
      (* "unable find matching zone for the endpoint %s" *)
  | ErrMapTargets
      (* "failed to map all endpoint targets to entries" *)
  | ErrZoneInfo (zone : string) (cause : error)
      (* "unable to query DNS zone info for zone '%v': %v" *)
  | ErrApplying (count : nat)
      (* "encountered %d errors while applying changes" *)
  | ErrOther (message : string).
      (* any other error value *)

Global Instance Endpoint_eq_dec : EqDecision Endpoint.
Proof. solve_decision. Defined.
Global Instance NameserverRecord_eq_dec : EqDecision NameserverRecord.
Proof. solve_decision. Defined.
Global Instance NameserverRecordRequest_eq_dec : EqDecision NameserverRecordRequest.
Proof. solve_decision. Defined.
Global Instance error_eq_dec : EqDecision error.
Proof. solve_decision. Defined.

(** [isObjectExistsError]: an INWX API error with code 2302. *)
Definition isObjectExistsError (err : error) : bool :=
  match err with
  | ErrorResponse code _ => bool_decide (code = 2302%Z)
  | _ => false
  end.

(** ** Name resolver *)

(** The loop of [extractRecordName] that counts the trailing labels to
    strip. [fuel] bounds the number of iterations; every iteration
    increments [stripped], which stays below [len(zoneLabels)]. *)
Fixpoint stripLoop (fuel : nat) (nameLabels zoneLabels : list string)
    (stripped : nat) : nat :=
  match fuel with
  | 0 => stripped
  | S fuel' =>
      if bool_decide (stripped < length zoneLabels)
         && bool_decide (stripped < length nameLabels - 1)
      then
        let ni := length nameLabels - 1 - stripped in
        let zi := length zoneLabels - 1 - stripped in
        if bool_decide (nameLabels !!! ni = zoneLabels !!! zi :> string)
        then stripLoop fuel' nameLabels zoneLabels (S stripped)
        else stripped
      else stripped
  end.

Definition extractRecordName (dnsName zone : string) : string :=
  if bool_decide (dnsName = zone) then ""
  else
    let name := TrimSuffix dnsName ("." +:+ zone) in
    let nameLabels := Split name "."%char in
    let zoneLabels := Split zone "."%char in
    let stripped := stripLoop (length zoneLabels) nameLabels zoneLabels 0 in
    if bool_decide (0 < stripped)
    then Join (take (length nameLabels - stripped) nameLabels) "."
    else name.

(** One pass of [getZone] over the zone list: a zone replaces the current
    match when it satisfies [matches] and is strictly longer. *)
Definition zonePass (matches : string → bool) (zones : list string)
    (acc : string * option error) : string * option error :=
  foldl (λ '(matchZoneName, err) zone,
           if matches zone
              && bool_decide (String.length matchZoneName < String.length zone)
           then (zone, None)
           else (matchZoneName, err))
        acc zones.

Definition dotBoundary (dnsName zone : string) : bool :=
  bool_decide (dnsName = zone) || HasSuffix dnsName ("." +:+ zone).

Definition hyphenBoundary (dnsName zone : string) : bool :=
  HasSuffix dnsName ("-" +:+ zone).

Definition getZone (zones : list string) (endpoint : Endpoint)
    : string * option error :=
  let '(matchZoneName, err) :=
    zonePass (dotBoundary (DNSName endpoint)) zones
             ("", Some (ErrNoMatchingZone endpoint)) in
  if bool_decide (matchZoneName = "")
  then zonePass (hyphenBoundary (DNSName endpoint)) zones (matchZoneName, err)
  else (matchZoneName, err).

(** ** Record matcher *)

Definition getRecIDs (zone : string) (records : list NameserverRecord)
    (ep : Endpoint) : list string * option error :=
  let targetName := extractRecordName (DNSName ep) zone in
  let recIDs :=
    foldl (λ recIDs target,
             foldl (λ recIDs record,
                      if bool_decide (RecordType ep = Type_ record)
                         && bool_decide (target = Content record)
                         && bool_decide (Name record = targetName)
                      then recIDs ++ [ID record]
                      else recIDs)
                   recIDs records)
          [] (Targets ep) in
  if bool_decide (length recIDs ≠ length (Targets ep))
  then ([], Some ErrMapTargets)
  else (recIDs, None).

Definition findRecordsByNameAndType (zone : string)
    (records : list NameserverRecord) (dnsName recordType : string)
    : list NameserverRecord :=
  let targetName := extractRecordName dnsName zone in
  foldl (λ matches record,
           if bool_decide (recordType = Type_ record)
              && bool_decide (Name record = targetName)
           then matches ++ [record]
           else matches)
        [] records.

Fixpoint findExactRecord (records : list NameserverRecord) (content : string)
    : string :=
  match records with
  | [] => ""
  | rec :: records' =>
      if bool_decide (Content rec = content) then ID rec
      else findExactRecord records' content
  end.

(** ** The registrar capability

    [AbstractClientWrapper] is the interface the provider holds its client
    through; its operations are the seven the provider calls and
    [MockClientWrapper] implements. A client is a state [St] and these
    operations on it; each returns its Go results and the state it leaves. Go's [(value, error)]
    pairs of the two queries are a [result]; the [error] of the other
    operations is an [option error], [None] for [nil]. *)
Inductive result (A : Type) :=
  | Ok (a : A)
  | Err (err : error).
Arguments Ok {A} a.
Arguments Err {A} err.

Class AbstractClientWrapper (St : Type) := {
  login : St → option error * St;
  logout : St → option error * St;
  getRecords : string → St → result (list NameserverRecord) * St;
  getZones : St → result (list string) * St;
  createRecord : NameserverRecordRequest → St → option error * St;
  updateRecord : string → NameserverRecordRequest → St → option error * St;
  deleteRecord : string → St → option error * St;
}.

(** ** One pass of [ApplyChanges]

    The locals the three phases share ([errs], [recordsCache]) and the
    client are threaded through a state monad; [None] is a Go run-time
    panic (an index out of range). *)
Record Pass (St : Type) := mkPass {
  client : St;
  errs : list error;
  recordsCache : gmap string (list NameserverRecord);
}.
Arguments mkPass {St} _ _ _.
Arguments client {St} _.
Arguments errs {St} _.
Arguments recordsCache {St} _.

Definition M (St A : Type) : Type := Pass St → option (A * Pass St).

Global Instance M_ret {St} : MRet (M St) := λ A a p, Some (a, p).
Global Instance M_bind {St} : MBind (M St) := λ A B f m p,
  match m p with
  | Some (a, p') => f a p'
  | None => None
  end.

Section Provider.
Context {St : Type} `{!AbstractClientWrapper St}.

(** A call of a client operation. *)
Definition call {A} (op : St → A * St) : M St A := λ p,
  let '(a, c) := op (client p) in
  Some (a, mkPass c (errs p) (recordsCache p)).

(** [errs = append(errs, err)] *)
Definition appendErr (err : error) : M St unit := λ p,
  Some ((), mkPass (client p) (errs p ++ [err]) (recordsCache p)).

(** [recordsCache = map[string]*[]inwx.NameserverRecord{}] *)
Definition resetCache : M St unit := λ p,
  Some ((), mkPass (client p) (errs p) ∅).

(** [s[i]], which panics out of range. *)
Definition index {A} (s : list A) (i : nat) : M St A := λ p,
  match s !! i with
  | Some a => Some (a, p)
  | None => None
  end.

(** [for _, a := range s { body }] *)
Fixpoint forEach {A} (s : list A) (body : A → M St unit) : M St unit :=
  match s with
  | [] => mret ()
  | a :: s' => body a;; forEach s' body
  end.

(** The lookup in [recordsCache] that every phase starts an endpoint
    with: a zone not cached yet is fetched with [getRecords]; a failure
    is appended to [errs] and the endpoint is given up ([continue]),
    which the result [None] stands for. *)
Definition cachedRecords (zone : string)
    : M St (option (list NameserverRecord)) := λ p,
  match recordsCache p !! zone with
  | Some recs => Some (Some recs, p)
  | None =>
      let '(r, c) := getRecords zone (client p) in
      match r with
      | Err err => Some (None, mkPass c (errs p ++ [err]) (recordsCache p))
      | Ok recs =>
          Some (Some recs, mkPass c (errs p) (<[zone := recs]> (recordsCache p)))
      end
  end.

(** [if err = op; err != nil { errs = append(errs, err) }] *)
Definition record (err : option error) : M St unit :=
  match err with
  | Some e => appendErr e
  | None => mret ()
  end.

(** [createRecord] with the "object exists" error swallowed. *)
Definition createOrExists (rec : NameserverRecordRequest) : M St unit :=
  err ← call (createRecord rec);
  match err with
  | Some e => if isObjectExistsError e then mret () else appendErr e
  | None => mret ()
  end.

(** *** Phase Delete: the body of the loop over [changes.Delete] *)
Definition deleteEndpoint (zones : list string) (ep : Endpoint) : M St unit :=
  match getZone zones ep with
  | (_, Some err) => appendErr err
  | (zone, None) =>
      cached ← cachedRecords zone;
      match cached with
      | None => mret ()
      | Some recs =>
          let '(recIDs, err) := getRecIDs zone recs ep in
          record err;;
          forEach recIDs (λ id, err ← call (deleteRecord id); record err)
      end
  end.

(** *** Phase Create: the body of the loop over [ep.Targets] *)
Definition createTarget (zone name : string) (recs : list NameserverRecord)
    (ep : Endpoint) (target : string) : M St unit :=
  let existing :=
    findRecordsByNameAndType zone recs (DNSName ep) (RecordType ep) in
  let rec := mkRequest zone name (RecordType ep) target (RecordTTL ep) 0 in
  if bool_decide (findExactRecord existing target ≠ "") then mret ()
  else if bool_decide (length existing = 1)
          && bool_decide (length (Targets ep) = 1)
  then
    existing0 ← index existing 0;
    err ← call (updateRecord (ID existing0) rec);
    record err
  else createOrExists rec.

(** The body of the loop over [changes.Create]. *)
Definition createEndpoint (zones : list string) (ep : Endpoint) : M St unit :=
  match getZone zones ep with
  | (_, Some err) => appendErr err
  | (zone, None) =>
      cached ← cachedRecords zone;
      match cached with
      | None => mret ()
      | Some recs =>
          let name := extractRecordName (DNSName ep) zone in
          forEach (Targets ep) (createTarget zone name recs ep)
      end
  end.

(** *** Phase Update: the fallback taken when [getRecIDs] fails *)
Definition updateFallback (zone name : string)
    (recs : list NameserverRecord) (newEp : Endpoint) : M St unit :=
  let existing :=
    findRecordsByNameAndType zone recs (DNSName newEp) (RecordType newEp) in
  forEach (Targets newEp) (λ target,
    if bool_decide (findExactRecord existing target ≠ "") then mret ()
    else
      createOrExists
        (mkRequest zone name (RecordType newEp) target (RecordTTL newEp) 0)).

(** The body of the loop over [j] when the identifiers were found. *)
Definition updateIndex (zone name : string) (recIDs : list string)
    (oldEp newEp : Endpoint) (j : nat) : M St unit :=
  if bool_decide (length (Targets newEp) ≤ j) then
    id ← index recIDs j;
    err ← call (deleteRecord id);
    match err with
    | Some e => appendErr e;; _ ← index (Targets oldEp) j; mret ()
    | None => mret ()
    end
  else if bool_decide (length (Targets oldEp) ≤ j) then
    target ← index (Targets newEp) j;
    createOrExists
      (mkRequest zone name (RecordType newEp) target (RecordTTL newEp) 0)
  else
    target ← index (Targets newEp) j;
    id ← index recIDs j;
    err ← call (updateRecord id
      (mkRequest zone name (RecordType newEp) target (RecordTTL oldEp) 0));
    record err.

Definition updatePaired (zone name : string) (recIDs : list string)
    (oldEp newEp : Endpoint) : M St unit :=
  let n := Nat.max (Nat.max (length (Targets oldEp)) (length (Targets newEp)))
                   (length recIDs) in
  forEach (seq 0 n) (updateIndex zone name recIDs oldEp newEp).

(** The body of the loop over [changes.UpdateOld], after
    [newEp := changes.UpdateNew[i]]. *)
Definition updateEndpoint (zones : list string) (oldEp newEp : Endpoint)
    : M St unit :=
  match getZone zones oldEp with
  | (_, Some err) => appendErr err
  | (zone, None) =>
      cached ← cachedRecords zone;
      match cached with
      | None => mret ()
      | Some recs =>
          let '(recIDs, err) := getRecIDs zone recs oldEp in
          let name := extractRecordName (DNSName newEp) zone in
          match err with
          | Some _ => updateFallback zone name recs newEp
          | None => updatePaired zone name recIDs oldEp newEp
          end
      end
  end.

Definition updatePhase (zones : list string) (changes : Changes) : M St unit :=
  forEach (imap (λ i oldEp, (i, oldEp)) (UpdateOld changes)) (λ '(i, oldEp),
    newEp ← index (UpdateNew changes) i;
    updateEndpoint zones oldEp newEp).

(** The three phases, each starting from an empty [recordsCache]. *)
Definition phases (zones : list string) (changes : Changes) : M St unit :=
  resetCache;;
  forEach (Delete changes) (deleteEndpoint zones);;
  resetCache;;
  forEach (Create changes) (createEndpoint zones);;
  resetCache;;
  updatePhase zones changes.

(** Modelled from the spec: [plan.Changes.HasChanges] belongs to the
    orchestrator's library; a change set "has zero total changes" when
    all four lists are empty. *)
Definition HasChanges (changes : Changes) : bool :=
  negb (bool_decide (Create changes = [] ∧ Delete changes = []
                     ∧ UpdateOld changes = [] ∧ UpdateNew changes = [])).

(** [ApplyChanges]. [None] is a panic that escapes the pass. *)
Definition ApplyChanges (changes : Changes) (c : St)
    : option (option error * St) :=
  if negb (HasChanges changes) then Some (None, c)
  else
    let '(err, c) := login c in
    match err with
    | Some err => Some (Some err, c)
    | None =>
        let '(zs, c) := getZones c in
        match zs with
        | Err err => let '(_, c) := logout c in Some (Some err, c)
        | Ok zones =>
            match phases zones changes (mkPass c [] ∅) with
            | None => None
            | Some (_, p) =>
                let '(_, c) := logout (client p) in
                Some (if bool_decide (0 < length (errs p))
                      then Some (ErrApplying (length (errs p)))
                      else None, c)
            end
        end
    end.

(** Modelled from the spec: [endpoint.NewEndpointWithTTL] belongs to the
    orchestrator's library; the endpoint it builds has the given name,
    type and TTL and the one given target, "copied verbatim". *)
Definition NewEndpointWithTTL (dnsName recordType : string) (ttl : Z)
    (target : string) : Endpoint :=
  mkEndpoint dnsName [target] recordType ttl.

(** The loop of [Records] over the zones. *)
Fixpoint collectRecords (zones : list string) (endpoints : list Endpoint)
    (c : St) : result (list Endpoint) * St :=
  match zones with
  | [] => (Ok endpoints, c)
  | zone :: zones' =>
      let '(r, c) := getRecords zone c in
      match r with
      | Err err => (Err (ErrZoneInfo zone err), c)
      | Ok records =>
          collectRecords zones'
            (foldl (λ endpoints rec,
                      endpoints ++
                        [NewEndpointWithTTL (Name rec +:+ "." +:+ zone)
                           (Type_ rec) (TTL rec) (Content rec)])
                   endpoints records)
            c
      end
  end.

(** [Records]: the calls it makes and the result it returns. The loop
    that logs the collected endpoints afterwards (it calls the library's
    [String] on each of them) is left out: it makes no call and changes
    no result, and what is proved of [Records] is proved of the result it
    returns, when it returns. *)
Definition Records (c : St) : result (list Endpoint) * St :=
  let '(err, c) := login c in
  match err with
  | Some err => (Err err, c)
  | None =>
      let '(zs, c) := getZones c in
      let '(r, c) :=
        match zs with
        | Err err => (Err err, c)
        | Ok zones => collectRecords zones [] c
        end in
      let '(_, c) := logout c in
      (r, c)
  end.

End Provider.

(** ** The in-memory registrar [MockClientWrapper]

    [db] maps a zone to its records, deleted ones included: a deleted
    record stays in place with its [ID] emptied. *)
Record MockClientWrapper := mkMock {
  db : gmap string (list NameserverRecord);
  idToZone : gmap string string;
}.

(** [strconv.Itoa] on a length. *)
Definition Itoa (n : nat) : string := NilZero.string_of_uint (Nat.to_uint n).

Module Mock.

Definition login (w : MockClientWrapper) : option error * MockClientWrapper :=
  (None, w).

Definition logout (w : MockClientWrapper) : option error * MockClientWrapper :=
  (None, w).

Definition getRecords (domain : string) (w : MockClientWrapper)
    : result (list NameserverRecord) * MockClientWrapper :=
  match db w !! domain with
  | None =>
      (Err (ErrOther ("unable to retrieve records for zone " +:+ domain
                      +:+ ": key not found in mock db")), w)
  | Some recs => (Ok (filter (λ rec, ID rec ≠ "") recs), w)
  end.

(** [slices.Collect(maps.Keys(w.db))]; Go leaves the order of the keys
    open, here it is the order of [map_to_list]. *)
Definition getZones (w : MockClientWrapper)
    : result (list string) * MockClientWrapper :=
  (Ok (map_to_list (db w)).*1, w).

Definition createRecord (r : NameserverRecordRequest) (w : MockClientWrapper)
    : option error * MockClientWrapper :=
  match db w !! rqDomain r with
  | None => (Some (ErrOther ("zone " +:+ rqDomain r +:+ " not found")), w)
  | Some recs =>
      let id := Itoa (length recs) in
      let newRecs :=
        recs ++ [mkRecord id (rqName r) (rqType r) (rqContent r) (rqTTL r)
                   (rqPriority r)] in
      (None, mkMock (<[rqDomain r := newRecs]> (db w))
                    (<[id := rqDomain r]> (idToZone w)))
  end.

(** The index of the first record with this [ID]; [None] is Go's [-1]. *)
Fixpoint findRecord (recs : list NameserverRecord) (recID : string)
    : option nat :=
  match recs with
  | [] => None
  | rec :: recs' =>
      if bool_decide (ID rec = recID) then Some 0
      else S <$> findRecord recs' recID
  end.

Definition updateRecord (recID : string) (r : NameserverRecordRequest)
    (w : MockClientWrapper) : option error * MockClientWrapper :=
  match db w !! rqDomain r with
  | None => (Some (ErrOther ("zone " +:+ rqDomain r +:+ " not found")), w)
  | Some recs =>
      match findRecord recs recID with
      | None => (Some (ErrOther ("record ID " +:+ recID +:+ " not found")), w)
      | Some idx =>
          (None,
           mkMock (<[rqDomain r :=
                      <[idx := mkRecord recID (rqName r) (rqType r)
                                 (rqContent r) (rqTTL r) (rqPriority r)]> recs]>
                     (db w))
                  (idToZone w))
      end
  end.

Definition deleteRecord (recID : string) (w : MockClientWrapper)
    : option error * MockClientWrapper :=
  match idToZone w !! recID with
  | None =>
      (Some (ErrOther ("zone for record ID " +:+ recID +:+ " not found")), w)
  | Some zone =>
      match db w !! zone with
      | None => (Some (ErrOther ("zone " +:+ zone +:+ " not found")), w)
      | Some recs =>
          match findRecord recs recID with
          | None =>
              (Some (ErrOther ("record ID " +:+ recID +:+ " not found")), w)
          | Some idx =>
              match recs !! idx with
              | None => (* not reached: [idx] is an index of [recs] *)
                  (Some (ErrOther ("record ID " +:+ recID +:+ " not found")), w)
              | Some rec =>
                  if bool_decide (ID rec = "")
                  then (Some (ErrOther ("record ID " +:+ recID
                                        +:+ " has already been deleted")), w)
                  else
                    (None,
                     mkMock (<[zone :=
                                <[idx := mkRecord "" (Name rec) (Type_ rec)
                                           (Content rec) (TTL rec)
                                           (Priority rec)]> recs]> (db w))
                            (idToZone w))
              end
          end
      end
  end.

(** [CreateZone] panics on a zone that exists: [None]. *)
Definition CreateZone (zone : string) (w : MockClientWrapper)
    : option MockClientWrapper :=
  match db w !! zone with
  | Some _ => None
  | None => Some (mkMock (<[zone := []]> (db w)) (idToZone w))
  end.

End Mock.

Global Instance MockClient : AbstractClientWrapper MockClientWrapper := {|
  login := Mock.login;
  logout := Mock.logout;
  getRecords := Mock.getRecords;
  getZones := Mock.getZones;
  createRecord := Mock.createRecord;
  updateRecord := Mock.updateRecord;
  deleteRecord := Mock.deleteRecord;
|}.

(** ** A client that keeps a journal

    Wrapping a client so that every operation is appended, with its
    result, to a journal of events makes "which registrar calls a pass
    issues" a value the theorems can speak of. *)
Inductive Event :=
  | EvLogin (r : option error)
  | EvLogout (r : option error)
  | EvGetZones (r : result (list string))
  | EvGetRecords (zone : string) (r : result (list NameserverRecord))
  | EvCreate (req : NameserverRecordRequest) (r : option error)
  | EvUpdate (id : string) (req : NameserverRecordRequest) (r : option error)
  | EvDelete (id : string) (r : option error).

Definition journaled {St A} (op : St → A * St) (ev : A → Event)
    (cj : St * list Event) : A * (St * list Event) :=
  let '(a, c) := op cj.1 in (a, (c, cj.2 ++ [ev a])).

Global Instance Journal {St} `{!AbstractClientWrapper St}
    : AbstractClientWrapper (St * list Event) := {|
  login := journaled login EvLogin;
  logout := journaled logout EvLogout;
  getRecords zone := journaled (getRecords zone) (EvGetRecords zone);
  getZones := journaled getZones EvGetZones;
  createRecord req := journaled (createRecord req) (EvCreate req);
  updateRecord id req := journaled (updateRecord id req) (EvUpdate id req);
  deleteRecord id := journaled (deleteRecord id) (EvDelete id);
|}.

(** The journal of a pass over a journaled client. *)
Definition journal {St} (p : Pass (St * list Event)) : list Event := (client p).2.

(** The errors a journal's failed writes leave in [errs]: every failed
    update or delete, and every failed create but "object exists". *)
Definition recorded (ev : Event) : list error :=
  match ev with
  | EvCreate _ (Some e) => if isObjectExistsError e then [] else [e]
  | EvUpdate _ _ (Some e) | EvDelete _ (Some e) => [e]
  | _ => []
  end.

(** ** What the specification says, in its own words

    The definitions below follow the wording of the specification, not the
    code; the theorems compare them with the functions above. *)

(** "While the last unconsumed label of the candidate equals the last
    unconsumed label of the zone and at least one label remains in the
    candidate, remove it": both label lists are taken last label first. *)
Fixpoint stripTrailing (candidate zone : list string) : list string :=
  match candidate, zone with
  | c :: (_ :: _) as rest, z :: zone' =>
      if bool_decide (c = z) then stripTrailing rest zone' else candidate
  | _, _ => candidate
  end.

(** [recordName] of the specification. *)
Definition recordName (dnsName zone : string) : string :=
  if bool_decide (dnsName = zone) then ""
  else
    let candidate := TrimSuffix dnsName ("." +:+ zone) in
    Join (reverse (stripTrailing (reverse (Split candidate "."%char))
                                 (reverse (Split zone "."%char)))) ".".

(** "[s] ends with [suffix]". *)
Definition endsWith (s suffix : string) : Prop := ∃ p, s = p +:+ suffix.

(** The dot-boundary rule: the name equals the zone or ends with
    ["." + zone]. *)
Definition dotMatch (dnsName zone : string) : Prop :=
  dnsName = zone ∨ endsWith dnsName ("." +:+ zone).

(** The hyphen-boundary rule: the name ends with ["-" + zone]. *)
Definition hyphenMatch (dnsName zone : string) : Prop :=
  endsWith dnsName ("-" +:+ zone).

(** [Z] is the longest zone of [zones] that satisfies [P], and the first
    of that length: no zone with [P] is longer, and every one before it
    is strictly shorter. *)
Definition longestFirst (P : string → Prop) (zones : list string)
    (Z : string) : Prop :=
  ∃ i, zones !! i = Some Z ∧ P Z ∧
       ∀ j z, zones !! j = Some z → P z →
              String.length z ≤ String.length Z
              ∧ (j < i → String.length z < String.length Z).

(** A record answers a target of an endpoint: "equal type, equal resolved
    name, and equal content". *)
Definition matchesTarget (zone : string) (ep : Endpoint) (target : string)
    (r : NameserverRecord) : Prop :=
  Type_ r = RecordType ep
  ∧ Name r = extractRecordName (DNSName ep) zone
  ∧ Content r = target.

Global Instance matchesTarget_dec zone ep target r :
  Decision (matchesTarget zone ep target r).
Proof. unfold matchesTarget. apply _. Defined.

(** The identifiers collected "for each target in [endpoint.targets]
    (order preserved)": target by target, the identifiers of the records
    that answer it. *)
Definition collectedIDs (zone : string) (records : list NameserverRecord)
    (ep : Endpoint) : list string :=
  flat_map (λ target, ID <$> filter (matchesTarget zone ep target) records)
           (Targets ep).

(** What must be unique among the live records of a zone. *)
Definition recordKey (r : NameserverRecord) : string * string * string :=
  (Name r, Type_ r, Content r).

(** A record has "the resolved name and the same type". *)
Definition sameNameType (zone dnsName recordType : string)
    (r : NameserverRecord) : Prop :=
  Type_ r = recordType ∧ Name r = extractRecordName dnsName zone.

Global Instance sameNameType_dec zone dnsName recordType r :
  Decision (sameNameType zone dnsName recordType r).
Proof. unfold sameNameType. apply _. Defined.

(** A snapshot as a registrar hands it out: every record carries an
    identifier (the empty identifier is the mock's mark of a deleted
    record, and [findExactRecord]'s "not found"). *)
Definition identified (recs : list NameserverRecord) : Prop :=
  Forall (λ r, ID r ≠ "") recs.

(** [m], run from [p], does not panic and ends in [p']; on the way it
    issues exactly the registrar calls [evs], appends to [errs] the errors
    [recorded] for them and nothing else, and leaves [recordsCache]. *)
Definition issues {St} (m : M (St * list Event) unit)
    (p : Pass (St * list Event)) (evs : list Event)
    (p' : Pass (St * list Event)) : Prop :=
  m p = Some ((), p')
  ∧ journal p' = journal p ++ evs
  ∧ errs p' = errs p ++ (evs ≫= recorded)
  ∧ recordsCache p' = recordsCache p.

(** What the specification's paired path does at index [j]. *)
Definition pairedStep (zone name : string) (recIDs : list string)
    (oldEp newEp : Endpoint) (j : nat) (ev : Event) : Prop :=
  if decide (length (Targets newEp) ≤ j) then
    ∃ id r, recIDs !! j = Some id ∧ ev = EvDelete id r
  else if decide (length (Targets oldEp) ≤ j) then
    ∃ target r, Targets newEp !! j = Some target
      ∧ ev = EvCreate (mkRequest zone name (RecordType newEp) target
                         (RecordTTL newEp) 0) r
  else
    ∃ id target r, recIDs !! j = Some id ∧ Targets newEp !! j = Some target
      ∧ ev = EvUpdate id (mkRequest zone name (RecordType newEp) target
                            (RecordTTL oldEp) 0) r.

(** The endpoint [Records] reports for a record of a zone. *)
Definition observed (zone : string) (rec : NameserverRecord) : Endpoint :=
  mkEndpoint (Name rec +:+ "." +:+ zone) [Content rec] (Type_ rec) (TTL rec).

(** The journal entry of a successful [getRecords]. *)
Definition fetchedEvent (f : string * list NameserverRecord) : Event :=
  EvGetRecords f.1 (Ok f.2).

(** "One entry per live remote record across all zones": zone by zone and
    record by record, the endpoint of the record. *)
Definition observedAll (fetched : list (string * list NameserverRecord))
    : list Endpoint :=
  flat_map (λ f, observed f.1 <$> f.2) fetched.

(** The live records of a zone of the mock: those [getRecords] returns. *)
Definition liveRecords (recs : list NameserverRecord) : list NameserverRecord :=
  filter (λ rec, ID rec ≠ "") recs.

(** "No two live records in the same zone share (name, type, content)",
    for a state of the mock. *)
Definition unique (w : MockClientWrapper) : Prop :=
  ∀ zone recs, db w !! zone = Some recs → NoDup (recordKey <$> liveRecords recs).

(** What an endpoint to create asks for: for each of its targets the
    zone, resolved name, type and content of the record wanted. An
    endpoint without a zone asks for nothing. *)
Definition requested (zones : list string) (ep : Endpoint)
    : list (string * (string * string * string)) :=
  match getZone zones ep with
  | (zone, None) =>
      (λ target, (zone, (extractRecordName (DNSName ep) zone, RecordType ep,
                         target))) <$> Targets ep
  | (_, Some _) => []
  end.

(** ** The invariant of a phase over the mock *)

(** The cache of a pass over the mock keeps up with the mock as far as
    the writes [done] go: a cached snapshot holds records with identifiers
    only, and every live record of its zone is in the snapshot or was
    written for one of [done]. *)
Definition covered (done : list (string * (string * string * string)))
    (p : Pass MockClientWrapper) : Prop :=
  ∀ zone S, recordsCache p !! zone = Some S →
    identified S
    ∧ ∃ l, db (client p) !! zone = Some l
        ∧ ∀ r, r ∈ liveRecords l →
               recordKey r ∈ recordKey <$> S ∨ (zone, recordKey r) ∈ done.

(** The invariant of a phase over the mock: the live records are unique
    and the cache is [covered]. *)
Definition wellCached (done : list (string * (string * string * string)))
    (p : Pass MockClientWrapper) : Prop :=
  unique (client p) ∧ covered done p.

(** ** Inputs of the examples *)

(** Two records of one snapshot with the same name, type and content, and
    an endpoint whose second target has no record. *)
Definition twinRecords : list NameserverRecord :=
  [mkRecord "10" "foo" "A" "1.1.1.1" 60 0; mkRecord "11" "foo" "A" "1.1.1.1" 60 0].
Definition twinEndpoint : Endpoint :=
  mkEndpoint "foo.example.com" ["1.1.1.1"; "2.2.2.2"] "A" 60.

(** The records and an endpoint of the repository's test of [getRecIDs]. *)
Definition testRecords : list NameserverRecord :=
  [mkRecord "10" "foo" "TXT" "heritage=external-dns" 0 0;
   mkRecord "11" "foo" "A" "5.5.5.5" 0 0;
   mkRecord "12" "" "A" "5.5.5.5" 0 0;
   mkRecord "13" "" "A" "5.5.5.6" 0 0].
Definition testApex : Endpoint := mkEndpoint "baz.org" ["5.5.5.5"; "5.5.5.6"] "A" 0.
Definition testMissing : Endpoint := mkEndpoint "baz.org" ["5.5.5.5"; "5.5.5.7"] "A" 0.

(** A zone with the two addresses of ["foo"]. *)
Definition bothAddresses : MockClientWrapper :=
  mkMock {[ "example.com" := [mkRecord "0" "foo" "A" "1.1.1.1" 60 0;
                              mkRecord "1" "foo" "A" "2.2.2.2" 60 0] ]}
         {[ "0" := "example.com"; "1" := "example.com" ]}.

(** The states and endpoints of the repository's tests of [ApplyChanges]:
    the zone without records, the endpoint ["foo"] with one address, and
    the same endpoint with another. *)
Definition emptyZone : MockClientWrapper :=
  mkMock {[ "example.com" := [] ]} ∅.
Definition fooFirst : Endpoint := mkEndpoint "foo.example.com" ["1.1.1.1"] "A" 60.
Definition fooBoth : Endpoint :=
  mkEndpoint "foo.example.com" ["1.1.1.1"; "2.2.2.2"] "A" 60.
Definition fooOther : Endpoint := mkEndpoint "foo.example.com" ["2.2.2.2"] "A" 60.
Definition fooThird : Endpoint := mkEndpoint "foo.example.com" ["3.3.3.3"] "A" 60.

(** The update that adds the second address to the endpoint that had the
    first. *)
Definition addSecondAddress : Changes := mkChanges [] [fooFirst] [fooBoth] [].

(** The zone with the first address of ["foo"] only. *)
Definition firstAddress : list NameserverRecord :=
  [mkRecord "0" "foo" "A" "1.1.1.1" 60 0].

(** The zones and an endpoint of the repository's test of [getZone]. *)
Definition testZones : list string := ["bar.org"; "baz.org"; "subdomain.bar.org"].
Definition testSub : Endpoint :=
  mkEndpoint "foo.subdomain.bar.org" ["1.1.1.1"] "A" 0.

(** The zones of the repository's test [testGetZoneDotBoundary]. *)
Definition boundaryZones : list string :=
  ["beersandbusiness.com"; "ratemybravas.com"; "example.com"].

(** ** The Create phase, in the specification's words *)

(** What the Create phase does for one target of an endpoint, against the
    snapshot [recs] of the endpoint's zone, as the calls [evs] it issues:
    "if [findExact(existing, target)] is non-empty, skip; else if
    [existing] has exactly one member and the endpoint has exactly one
    target, update that single existing record in place with the new
    content/TTL"; else create. [existing] are the records of the snapshot
    with the resolved name and the type. *)
Definition createStep (zone : string) (recs : list NameserverRecord)
    (ep : Endpoint) (target : string) (evs : list Event) : Prop :=
  let existing := filter (sameNameType zone (DNSName ep) (RecordType ep)) recs in
  let rec := mkRequest zone (extractRecordName (DNSName ep) zone)
                       (RecordType ep) target (RecordTTL ep) 0 in
  if decide (findExactRecord existing target ≠ "") then evs = []
  else if decide (length existing = 1 ∧ length (Targets ep) = 1)
       then ∃ r0 res, existing = [r0] ∧ evs = [EvUpdate (ID r0) rec res]
       else ∃ res, evs = [EvCreate rec res].

(** The snapshot of a zone a phase works on when it comes to an endpoint:
    the one cached in this phase, without a call; or, the zone not being
    cached yet, the result [r] of the one fetch [fetch]. *)
Definition phaseSnapshot {St} (zone : string) (p : Pass (St * list Event))
    (fetch : list Event) (r : result (list NameserverRecord)) : Prop :=
  match recordsCache p !! zone with
  | Some recs => fetch = [] ∧ r = Ok recs
  | None => fetch = [EvGetRecords zone r]
  end.

(** What the Create phase does for one endpoint, from the pass [p] to
    the pass [p']. Without a zone for the endpoint the error is recorded
    and no call issued. Otherwise the phase takes its snapshot of the
    zone; a fetch that fails is recorded and the endpoint given up; and
    over a snapshot [recs] the targets of the endpoint are gone through in
    order, each issuing the calls of its [createStep], whose failures are
    recorded as [recorded] says; the snapshot is what stays cached. *)
Definition createdEndpoint {St} (zones : list string) (ep : Endpoint)
    (p p' : Pass (St * list Event)) : Prop :=
  match getZone zones ep with
  | (_, Some err) =>
      journal p' = journal p ∧ errs p' = errs p ++ [err]
      ∧ recordsCache p' = recordsCache p
  | (zone, None) =>
      ∃ fetch r, phaseSnapshot zone p fetch r ∧
        match r with
        | Err e =>
            journal p' = journal p ++ fetch ∧ errs p' = errs p ++ [e]
            ∧ recordsCache p' = recordsCache p
        | Ok recs =>
            ∃ evss, Forall2 (createStep zone recs ep) (Targets ep) evss
              ∧ journal p' = journal p ++ fetch ++ concat evss
              ∧ errs p' = errs p ++ (concat evss ≫= recorded)
              ∧ recordsCache p' = <[zone := recs]> (recordsCache p)
        end
  end.

(** A phase goes through its endpoints in order, each starting from the
    pass the one before it left. *)
Fixpoint phaseRun {A S} (step : A → S → S → Prop) (l : list A) (s s' : S)
    : Prop :=
  match l with
  | [] => s' = s
  | a :: l' => ∃ s1, step a s s1 ∧ phaseRun step l' s1 s'
  end.

(** A zone with the first address of ["foo"], and the change set that
    creates ["foo"] with another address and then with both. *)
Definition oneAddress : MockClientWrapper :=
  mkMock {[ "example.com" := [mkRecord "0" "foo" "A" "1.1.1.1" 60 0] ]}
         {[ "0" := "example.com" ]}.
Definition createOtherThenBoth : Changes := mkChanges [fooOther; fooBoth] [] [] [].

(** An endpoint whose name ends with a dot, and one that names the same
    target twice. *)
Definition dotName : Endpoint := mkEndpoint "foo." ["1.1.1.1"] "A" 0.
Definition fooTwice : Endpoint :=
  mkEndpoint "foo.example.com" ["1.1.1.1"; "1.1.1.1"] "A" 60.

(** ** Notions for the further properties *)

(** The calls the phases of a pass make: reads and writes of records. *)
Definition isRecordCall (ev : Event) : Prop :=
  match ev with
  | EvGetRecords _ _ | EvCreate _ _ | EvUpdate _ _ _ | EvDelete _ _ => True
  | _ => False
  end.

(** The error of a call that failed, as far as a pass has to report it:
    a failed fetch, and what [recorded] keeps of a failed write. *)
Definition failure (ev : Event) : list error :=
  match ev with
  | EvGetRecords _ (Err e) => [e]
  | _ => recorded ev
  end.

(** [m] accounts for its calls: when it ends, it has only made calls on
    records, [errs] has only grown, and the growth holds, in order, the
    failure of every call made. *)
Definition accounts {St A} (m : M (St * list Event) A) : Prop :=
  ∀ p a p', m p = Some (a, p') →
    ∃ evs extra,
      journal p' = journal p ++ evs
      ∧ errs p' = errs p ++ extra
      ∧ Forall isRecordCall evs
      ∧ (evs ≫= failure) `sublist_of` extra.

(** The ways a pass of [ApplyChanges] that started with the journal of
    [cj] can have ended with the journal of [cj'] and the result [r]:
    nothing to apply and no call; a failed login, no other call, and its
    error; a login, a failed listing of the zones, a logout, and the error
    of the listing; or a login, the listing, calls on records only and one
    logout at the end, with no error only if no fetch and no write failed,
    and otherwise the error that counts the errors, at least as many as
    the failed calls. *)
Definition sessionOutcome {St} (changes : Changes) (cj cj' : St * list Event)
    (r : option error) : Prop :=
  (HasChanges changes = false ∧ cj' = cj ∧ r = None)
  ∨ (∃ e, cj'.2 = cj.2 ++ [EvLogin (Some e)] ∧ r = Some e)
  ∨ (∃ e rl, cj'.2 = cj.2 ++ [EvLogin None; EvGetZones (Err e); EvLogout rl]
             ∧ r = Some e)
  ∨ (∃ zones evs rl,
       cj'.2 = cj.2 ++ [EvLogin None; EvGetZones (Ok zones)] ++ evs
                    ++ [EvLogout rl]
       ∧ Forall isRecordCall evs
       ∧ ((r = None ∧ evs ≫= failure = [])
          ∨ ∃ n, r = Some (ErrApplying n) ∧ 0 < n
                 ∧ length (evs ≫= failure) ≤ n)).

(** [m] never panics. *)
Definition total {St A} (m : M St A) : Prop := ∀ p, is_Some (m p).

(** The identifiers of a zone of the mock are its own numbering: the
    record at an index carries the index in decimal, or no identifier once
    deleted. *)
Definition wellNumbered (w : MockClientWrapper) : Prop :=
  ∀ zone recs i r, db w !! zone = Some recs → recs !! i = Some r →
    ID r = "" ∨ ID r = Itoa i.

(** The mock before any zone is created. *)
Definition emptyMock : MockClientWrapper := mkMock ∅ ∅.

(** How a failed [Records] leaves the journal: the login failed and
    nothing else was called; or listing the zones failed; or the records
    of one zone could not be fetched, after those of the zones before it
    and before any of the zones after it. But for a failed login, the
    last call is the logout. *)
Definition readFailure {St} (cj cj' : St * list Event) (e : error) : Prop :=
  cj'.2 = cj.2 ++ [EvLogin (Some e)]
  ∨ (∃ r, cj'.2 = cj.2 ++ [EvLogin None; EvGetZones (Err e); EvLogout r])
  ∨ (∃ fetched zone cause rest r,
       e = ErrZoneInfo zone cause
       ∧ cj'.2 = cj.2 ++ [EvLogin None;
                          EvGetZones (Ok (fetched.*1 ++ zone :: rest))]
                      ++ (fetchedEvent <$> fetched)
                      ++ [EvGetRecords zone (Err cause); EvLogout r]).

(** The mock behind a registrar that lists [zones], whatever zones the
    mock holds: the example of a registrar that lists a zone the records
    of which it cannot give. *)
Definition listing (zones : list string)
    : AbstractClientWrapper MockClientWrapper := {|
  login := Mock.login;
  logout := Mock.logout;
  getRecords := Mock.getRecords;
  getZones w := (Ok zones, w);
  createRecord := Mock.createRecord;
  updateRecord := Mock.updateRecord;
  deleteRecord := Mock.deleteRecord;
|}.

(** The zones of the mock with their live records, in the order of
    [getZones]. *)
Definition liveZones (w : MockClientWrapper)
    : list (string * list NameserverRecord) :=
  (λ zr, (zr.1, liveRecords zr.2)) <$> map_to_list (db w).

(** The records of a zone of the mock carry, from position [k] on, the
    identifier [createRecord] gave them, or none any more. *)
Definition numbered (k : nat) (l : list NameserverRecord) : Prop :=
  ∀ i r, l !! i = Some r → ID r = "" ∨ ID r = Itoa (k + i).

(** The record [updateRecord] writes. *)
Definition written (id : string) (req : NameserverRecordRequest)
    : NameserverRecord :=
  mkRecord id (rqName req) (rqType req) (rqContent req) (rqTTL req)
           (rqPriority req).

(** A third address for ["foo"], as a request to the registrar. *)
Definition thirdRequest : NameserverRecordRequest :=
  mkRequest "example.com" "foo" "A" "3.3.3.3" 60 0.

(** The zone of the examples, and a pass over the mock with both
    addresses of ["foo"], in the zone and in [recordsCache]. *)
Definition exampleZones : list string := ["example.com"].
Definition cachedBoth : Pass (MockClientWrapper * list Event) :=
  mkPass (bothAddresses, []) []
         {[ "example.com" := [mkRecord "0" "foo" "A" "1.1.1.1" 60 0;
                              mkRecord "1" "foo" "A" "2.2.2.2" 60 0] ]}.

(** A pass over the mock with both addresses of ["foo"], nothing cached
    yet. *)
Definition freshBoth : Pass MockClientWrapper := mkPass bothAddresses [] ∅.

(** The zones whose records a journal fetched with success. *)
Definition fetches (evs : list Event) : list string :=
  evs ≫= λ ev, match ev with
               | EvGetRecords zone (Ok _) => [zone]
               | _ => []
               end.

(** [m] fills [recordsCache] and never fetches what is cached: the zones
    it fetches with success differ from one another, were not cached
    before, and are, with those that were, the zones cached after. *)
Definition caches {St A} (m : M (St * list Event) A) : Prop :=
  ∀ p a p', m p = Some (a, p') →
    ∃ evs, journal p' = journal p ++ evs
      ∧ NoDup (fetches evs)
      ∧ (∀ zone, zone ∈ fetches evs → recordsCache p !! zone = None)
      ∧ (∀ zone, is_Some (recordsCache p' !! zone)
                 ↔ is_Some (recordsCache p !! zone) ∨ zone ∈ fetches evs).

(** A change set that deletes the first address of ["foo"], creates a
    third and updates the second. *)
Definition mixedChanges : Changes :=
  mkChanges [fooThird] [fooOther] [fooOther] [fooFirst].

(** What the paired path of an update has reached on the mock before
    index [j]: every new target before [j] has a live record with the
    name, the type and the target as content - under the identifier of
    the same index, if there is one - and every identifier from [j] on
    still has its live record. *)
Definition pairedUpTo (name : string) (recIDs : list string) (newEp : Endpoint)
    (j : nat) (l : list NameserverRecord) : Prop :=
  (∀ i target, i < j → Targets newEp !! i = Some target →
     ∃ r, r ∈ liveRecords l
          ∧ Type_ r = RecordType newEp ∧ Name r = name ∧ Content r = target
          ∧ ∀ id, recIDs !! i = Some id → ID r = id)
  ∧ (∀ i id, j ≤ i → recIDs !! i = Some id →
       ∃ r, r ∈ liveRecords l ∧ ID r = id).

(** Two zones of the mock whose records carry the same identifiers. *)
Definition twoZones : MockClientWrapper :=
  mkMock {[ "example.com" := [mkRecord "0" "foo" "A" "1.1.1.1" 60 0;
                              mkRecord "1" "foo" "A" "2.2.2.2" 60 0];
            "other.org" := [mkRecord "0" "bar" "A" "4.4.4.4" 60 0] ]}
         {[ "0" := "other.org"; "1" := "example.com" ]}.
Definition otherRequest : NameserverRecordRequest :=
  mkRequest "other.org" "baz" "A" "5.5.5.5" 60 0.

(** * Properties *)

(** ** Go's string functions *)

Lemma app_length_str s t :
  String.length (s +:+ t) = String.length s + String.length t.
Proof.
  induction s as [|a s IH]; simpl; [done|].
  unfold String.app in *. simpl. by rewrite IH.
Qed.

Lemma prefix_suffix n s : prefix_of n s +:+ suffix_from n s = s.
Proof.
  revert s. induction n as [|n IH]; intros [|a s]; simpl; try done.
  unfold String.app in *. simpl. by rewrite IH.
Qed.

Lemma suffix_from_app p s : suffix_from (String.length p) (p +:+ s) = s.
Proof. induction p; simpl; [done|]. unfold String.app in *; simpl. done. Qed.

Lemma prefix_of_app p s : prefix_of (String.length p) (p +:+ s) = p.
Proof.
  induction p as [|a p IH]; simpl; [by destruct s|].
  unfold String.app in *; simpl. by rewrite IH.
Qed.

Lemma HasSuffix_endsWith s suffix : HasSuffix s suffix = true ↔ endsWith s suffix.
Proof.
  unfold HasSuffix, endsWith. rewrite andb_true_iff, !bool_decide_eq_true. split.
  - intros [Hlen Hs]. exists (prefix_of (String.length s - String.length suffix) s).
    etrans; [symmetry; apply (prefix_suffix (String.length s - String.length suffix))|].
    by rewrite Hs.
  - intros [p ->]. rewrite app_length_str. split; [lia|].
    replace (String.length p + String.length suffix - String.length suffix)
      with (String.length p) by lia.
    apply suffix_from_app.
Qed.

Lemma TrimSuffix_spec s suffix :
  (¬ endsWith s suffix ∧ TrimSuffix s suffix = s)
  ∨ s = TrimSuffix s suffix +:+ suffix.
Proof.
  unfold TrimSuffix. destruct (HasSuffix s suffix) eqn:E.
  - right. apply HasSuffix_endsWith in E as [p ->].
    rewrite app_length_str.
    replace (String.length p + String.length suffix - String.length suffix)
      with (String.length p) by lia.
    by rewrite prefix_of_app.
  - left. split; [|done]. rewrite <- HasSuffix_endsWith. by rewrite E.
Qed.

Lemma Split_nonempty s c : Split s c ≠ [].
Proof.
  destruct s as [|a s]; simpl; [done|].
  case_bool_decide; [done|]. by destruct (Split s c).
Qed.

Lemma Join_Split s c : Join (Split s c) (String c "") = s.
Proof.
  induction s as [|a s IH]; simpl; [done|].
  pose proof (Split_nonempty s c).
  destruct (Split s c) as [|l ls] eqn:E; [done|].
  case_bool_decide as Hc.
  - subst a.
    change (Join ("" :: l :: ls) (String c ""))
      with ("" +:+ String c "" +:+ Join (l :: ls) (String c "")).
    by rewrite IH.
  - destruct ls as [|l' ls]; simpl in *; by rewrite <- IH.
Qed.

(** The first label of a string that does not start with the separator
    is not empty. *)
Lemma Split_head a s c :
  a ≠ c → ∃ l ls, Split (String a s) c = String a l :: ls.
Proof.
  intros Hne. simpl. rewrite bool_decide_false by done.
  destruct (Split s c); eauto.
Qed.

Lemma Join_head_nonempty a l ls sep : Join (String a l :: ls) sep ≠ "".
Proof. by destruct ls. Qed.

(** ** [extractRecordName] *)

Lemma stripTrailing_nil_r rn : stripTrailing rn [] = rn.
Proof. by destruct rn as [|? [|? ?]]. Qed.

Lemma reverse_take_drop {A} (l : list A) k :
  reverse (take (length l - k) l) = drop k (reverse l).
Proof.
  destruct (decide (k ≤ length l)) as [Hk|Hk].
  - assert (reverse l = reverse (drop (length l - k) l)
                          ++ reverse (take (length l - k) l)) as Hl
      by (by rewrite <- reverse_app, take_drop).
    rewrite Hl. rewrite drop_app_length'; [done|].
    rewrite length_reverse, length_drop. lia.
  - replace (length l - k) with 0 by lia. rewrite drop_ge; [done|].
    rewrite length_reverse. lia.
Qed.

Lemma lookup_total_reverse (l : list string) k :
  k < length l → l !!! (length l - 1 - k) = reverse l !!! k.
Proof.
  intros Hk. rewrite !list_lookup_total_alt.
  rewrite reverse_lookup by done. f_equal. f_equal. lia.
Qed.

(** The loop, run on enough fuel, strips what [stripTrailing] strips from
    the labels still unconsumed after [k] rounds. *)
Lemma stripLoop_spec N Z fuel k :
  length Z - k ≤ fuel → k ≤ length N - 1 →
  reverse (take (length N - stripLoop fuel N Z k) N)
  = stripTrailing (drop k (reverse N)) (drop k (reverse Z)).
Proof.
  revert k. induction fuel as [|fuel IH]; intros k Hfuel Hk; simpl.
  - rewrite (drop_ge (reverse Z)) by (rewrite length_reverse; lia).
    by rewrite stripTrailing_nil_r, reverse_take_drop.
  - case_bool_decide as HZ; simpl.
    + case_bool_decide as HN; simpl.
      * rewrite !lookup_total_reverse by lia.
        assert (is_Some (reverse N !! k)) as [x Hx]
          by (apply lookup_lt_is_Some; rewrite length_reverse; lia).
        assert (is_Some (reverse N !! S k)) as [y Hy]
          by (apply lookup_lt_is_Some; rewrite length_reverse; lia).
        assert (is_Some (reverse Z !! k)) as [z Hz]
          by (apply lookup_lt_is_Some; rewrite length_reverse; lia).
        rewrite (drop_S _ _ _ Hx), (drop_S _ _ _ Hy), (drop_S _ _ _ Hz).
        rewrite !list_lookup_total_alt, Hx, Hz. simpl.
        case_bool_decide as Heq.
        -- rewrite IH by lia. by rewrite (drop_S _ _ _ Hy).
        -- by rewrite reverse_take_drop, (drop_S _ _ _ Hx), (drop_S _ _ _ Hy).
      * rewrite reverse_take_drop.
        assert (length (drop k (reverse N)) ≤ 1) as Hlen
          by (rewrite length_drop, length_reverse; lia).
        destruct (drop k (reverse N)) as [|x [|y l]]; simpl in *;
          [by destruct (drop k (reverse Z))
          |by destruct (drop k (reverse Z))|lia].
    + rewrite (drop_ge (reverse Z)) by (rewrite length_reverse; lia).
      by rewrite stripTrailing_nil_r, reverse_take_drop.
Qed.

(** The loop never consumes the last label that is left. *)
Lemma stripLoop_bound N Z fuel k :
  k ≤ length N - 1 → stripLoop fuel N Z k ≤ length N - 1.
Proof.
  revert k. induction fuel as [|fuel IH]; intros k Hk; simpl; [done|].
  repeat case_bool_decide; simpl; try done. apply IH. lia.
Qed.

(** C7. [extractRecordName] is the specification's [recordName]: the empty
    string when the name is the zone; otherwise the name without the
    suffix ["." + zone], and then without the trailing labels that equal,
    one by one from the end, the trailing labels of the zone, the first
    label of the candidate always being kept. The two examples of the
    specification evaluate as it says. *)
Theorem extractRecordName_recordName :
  (∀ dnsName zone, extractRecordName dnsName zone = recordName dnsName zone)
  ∧ (∀ zone, extractRecordName zone zone = "")
  ∧ extractRecordName "_edns.a-example.com.example.com" "example.com"
    = "_edns.a-example"
  ∧ extractRecordName "foo.example.com" "example.com" = "foo".
Proof.
  split; [|split; [|split; vm_compute; reflexivity]].
  - intros dnsName zone. unfold extractRecordName, recordName.
    case_bool_decide; [done|].
    set (name := TrimSuffix dnsName ("." +:+ zone)).
    set (N := Split name "."%char). set (Z := Split zone "."%char).
    pose proof (stripLoop_spec N Z (length Z) 0 ltac:(lia) ltac:(lia)) as Hs.
    rewrite !drop_0 in Hs. rewrite <- Hs, reverse_involutive.
    case_bool_decide as H0; [done|].
    replace (stripLoop (length Z) N Z 0) with 0 by lia.
    rewrite Nat.sub_0_r, firstn_all. unfold N. by rewrite (Join_Split name ".").
  - intros zone. unfold extractRecordName. by rewrite bool_decide_true.
Qed.

(** C8, as stated, fails: the name [".example.com"], which is the name
    [Records] gives an apex record of the zone, is not the zone and has
    the empty record name. *)
Lemma extractRecordName_empty_not_apex :
  ".example.com" ≠ "example.com"
  ∧ extractRecordName ".example.com" "example.com" = "".
Proof. split; [done|]. vm_compute. reflexivity. Qed.

(** A label list that is not empty joins to the empty string only when
    it is the one empty label. *)
Lemma Join_empty_iff (l : list string) :
  l ≠ [] → Join l "." = "" ↔ l = [""].
Proof.
  intros Hl. destruct l as [|a [|b l]]; [done| |].
  - simpl. split; [by intros ->|by intros [= ->]].
  - split; [|done]. destruct a; done.
Qed.

(** The first label of a string is empty only when the string is empty or
    starts with the separator. *)
Lemma Split_head_empty s ls :
  Split s "."%char = "" :: ls → s = "" ∨ ∃ s', s = String "."%char s'.
Proof.
  intros Hs. destruct s as [|a s]; [by left|].
  destruct (decide (a = "."%char)) as [->|Hne]; [right; eauto|].
  destruct (Split_head a s "." Hne) as (l & ls' & Heq). congruence.
Qed.

(** C8, amended. For a name other than the zone, the loop always leaves
    at least one label of the candidate, the record name is what is left,
    joined, and it is empty exactly when the one label left is the empty
    label - which takes a name that is empty or starts with a dot. *)
Theorem extractRecordName_empty_iff dnsName zone :
  dnsName ≠ zone →
  let nameLabels := Split (TrimSuffix dnsName ("." +:+ zone)) "."%char in
  let zoneLabels := Split zone "."%char in
  let stripped := stripLoop (length zoneLabels) nameLabels zoneLabels 0 in
  let left := take (length nameLabels - stripped) nameLabels in
  stripped < length nameLabels
  ∧ extractRecordName dnsName zone = Join left "."
  ∧ (extractRecordName dnsName zone = "" ↔ left = [""])
  ∧ (left = [""] → dnsName = "" ∨ ∃ s, dnsName = String "."%char s).
Proof.
  intros Hz nameLabels zoneLabels stripped left.
  pose proof (Split_nonempty (TrimSuffix dnsName ("." +:+ zone)) ".") as HN.
  pose proof (stripLoop_bound nameLabels zoneLabels (length zoneLabels) 0
                ltac:(lia)) as Hb.
  fold nameLabels in HN. fold stripped in Hb.
  assert (0 < length nameLabels) by (destruct nameLabels; [done|simpl; lia]).
  assert (extractRecordName dnsName zone = Join left ".") as Hjoin.
  { unfold extractRecordName. rewrite bool_decide_false by done.
    fold nameLabels zoneLabels stripped. case_bool_decide as Hs; [done|].
    unfold left. replace stripped with 0 by lia.
    rewrite Nat.sub_0_r, firstn_all. unfold nameLabels.
    by rewrite (Join_Split _ "."). }
  assert (∃ x rest, nameLabels = x :: rest ∧ ∃ more, left = x :: more)
    as (x & rest & HNeq & more & Hleft).
  { destruct nameLabels as [|x rest] eqn:E; [done|]. exists x, rest.
    split; [done|]. unfold left.
    destruct (length (x :: rest) - stripped) as [|n] eqn:En;
      [simpl in *; lia|]. simpl. eauto. }
  split; [lia|]. split; [exact Hjoin|]. split.
  - rewrite Hjoin. apply Join_empty_iff. by rewrite Hleft.
  - intros Hone. rewrite Hone in Hleft. injection Hleft as <- _.
    apply Split_head_empty in HNeq as [Hname|[s' Hname]];
      destruct (TrimSuffix_spec dnsName ("." +:+ zone)) as [[_ Heq]|Heq];
      rewrite Hname in Heq.
    + by left.
    + right. by exists zone.
    + right. exists s'. by rewrite <- Heq.
    + right. exists (s' +:+ "." +:+ zone). by rewrite Heq.
Qed.

Lemma extractRecordName_empty_iff_witness :
  extractRecordName ".foo.example.com" "example.com" = Join [""; "foo"] "."
  ∧ (extractRecordName ".foo.example.com" "example.com" = ""
     ↔ [""; "foo"] = [""]).
Proof.
  destruct (extractRecordName_empty_iff ".foo.example.com" "example.com")
    as (_ & Hjoin & Hiff & _); [done|].
  split; [exact Hjoin|exact Hiff].
Defined.

(** ** [getZone] *)

Lemma dotBoundary_dotMatch dnsName zone :
  dotBoundary dnsName zone = true ↔ dotMatch dnsName zone.
Proof.
  unfold dotBoundary, dotMatch.
  by rewrite orb_true_iff, bool_decide_eq_true, HasSuffix_endsWith.
Qed.

Lemma hyphenBoundary_hyphenMatch dnsName zone :
  hyphenBoundary dnsName zone = true ↔ hyphenMatch dnsName zone.
Proof. apply HasSuffix_endsWith. Qed.

Lemma zonePass_snoc m zones x acc :
  zonePass m (zones ++ [x]) acc =
  let '(matchZoneName, err) := zonePass m zones acc in
  if m x && bool_decide (String.length matchZoneName < String.length x)
  then (x, None) else (matchZoneName, err).
Proof.
  unfold zonePass. rewrite foldl_app. simpl. by destruct (foldl _ acc zones).
Qed.

Lemma longestFirst_snoc_keep (P : string → Prop) zones x Z :
  longestFirst P zones Z → (P x → String.length x ≤ String.length Z) →
  longestFirst P (zones ++ [x]) Z.
Proof.
  intros (i & Hi & HZ & Hmax) Hx. exists i.
  split; [by apply lookup_app_l_Some|]. split; [done|].
  intros j z Hj Hz.
  apply lookup_app_Some in Hj as [Hj|[Hge Hj]]; [by apply Hmax|].
  apply list_lookup_singleton_Some in Hj as [? ->].
  apply lookup_lt_Some in Hi. split; [auto|lia].
Qed.

Lemma longestFirst_snoc_new (P : string → Prop) zones x :
  P x → (∀ z, z ∈ zones → P z → String.length z < String.length x) →
  longestFirst P (zones ++ [x]) x.
Proof.
  intros Hx Hlt. exists (length zones).
  split; [by apply list_lookup_middle|]. split; [done|].
  intros j z Hj Hz. apply lookup_app_Some in Hj as [Hj|[Hge Hj]].
  - apply list_elem_of_lookup_2 in Hj. specialize (Hlt z Hj Hz). lia.
  - apply list_lookup_singleton_Some in Hj as [? ->]. lia.
Qed.

(** One pass started without a match ends with the longest zone that
    matches, the first of that length, or still without one. *)
Lemma zonePass_spec (m : string → bool) (zones : list string) (e0 : error) :
  Forall (λ z, z ≠ "") zones →
  ((∃ z, z ∈ zones ∧ m z = true) →
     ∃ Z, zonePass m zones ("", Some e0) = (Z, None)
          ∧ longestFirst (λ z, m z = true) zones Z)
  ∧ ((¬ ∃ z, z ∈ zones ∧ m z = true) →
     zonePass m zones ("", Some e0) = ("", Some e0)).
Proof.
  induction zones as [|x zones IH] using rev_ind; intros Hne.
  { split; [intros (z & Hz & _); by apply elem_of_nil in Hz|done]. }
  apply Forall_app in Hne as [Hne Hx]. rewrite Forall_singleton in Hx.
  destruct (IH Hne) as [IHyes IHno]. clear IH.
  rewrite zonePass_snoc.
  assert ((∃ z, z ∈ zones ∧ m z = true) ∨ ¬ ∃ z, z ∈ zones ∧ m z = true)
    as [Hex|Hex].
  { rewrite <- Exists_exists.
    destruct (decide (Exists (λ z, m z = true) zones)); auto. }
  - destruct (IHyes Hex) as (Z & HZ & Hlf). rewrite HZ. split.
    + intros _. destruct (m x) eqn:Hmx; simpl.
      * case_bool_decide as Hlt.
        -- exists x. split; [done|]. apply longestFirst_snoc_new; [done|].
           intros z Hz Hmz. destruct Hlf as (i & Hi & _ & Hmax).
           apply list_elem_of_lookup_1 in Hz as [j Hj].
           destruct (Hmax j z Hj Hmz). lia.
        -- exists Z. split; [done|]. apply longestFirst_snoc_keep; [done|lia].
      * exists Z. split; [done|]. apply longestFirst_snoc_keep; [done|congruence].
    + intros Hno. destruct Hno. destruct Hex as (z & ? & ?). exists z. set_solver.
  - rewrite (IHno Hex). split.
    + intros (z & Hz & Hmz).
      apply elem_of_app in Hz as [Hz|Hz]; [destruct Hex; eauto|].
      apply list_elem_of_singleton in Hz as ->. rewrite Hmz. simpl.
      rewrite bool_decide_true by (destruct x; [done|simpl; lia]).
      exists x. split; [done|]. apply longestFirst_snoc_new; [done|].
      intros z Hz Hmz'. destruct Hex. eauto.
    + intros Hno. destruct (m x) eqn:Hmx; [|done].
      destruct Hno. exists x. set_solver.
Qed.

Lemma longestFirst_iff (P Q : string → Prop) zones Z :
  (∀ z, P z ↔ Q z) → longestFirst P zones Z → longestFirst Q zones Z.
Proof.
  intros HPQ (i & Hi & HZ & Hmax). exists i. split; [done|].
  split; [by apply HPQ|]. intros j z Hj Hz. apply (Hmax j z Hj). by apply HPQ.
Qed.

(** C6, as stated, fails for a zone list with an empty zone name: the
    name ["foo."] ends with a dot and the empty zone, so the empty zone
    matches by the dot-boundary rule and is the longest zone that does;
    [getZone] returns the error all the same, since a zone replaces the
    current match only when it is strictly longer than it, and the match
    it starts from is the empty name. *)
Lemma getZone_empty_zone_unmatched :
  (∃ z, z ∈ [""] ∧ dotMatch (DNSName dotName) z)
  ∧ longestFirst (dotMatch (DNSName dotName)) [""] ""
  ∧ getZone [""] dotName = ("", Some (ErrNoMatchingZone dotName))
  ∧ ¬ ∃ Z, getZone [""] dotName = (Z, None)
           ∧ longestFirst (dotMatch (DNSName dotName)) [""] Z.
Proof.
  assert (dotMatch (DNSName dotName) "") as Hdot.
  { right. by exists "foo". }
  split; [exists ""; split; [left|done]|]. split; [|split].
  - exists 0. split; [done|]. split; [done|].
    intros j z Hj _. destruct j as [|j]; [|done]. injection Hj as <-.
    split; [done|lia].
  - vm_compute. reflexivity.
  - intros (Z & Hget & _). vm_compute in Hget. discriminate Hget.
Qed.

(** C6. Over zones with non-empty names, [getZone] returns the longest
    zone that the name equals or ends with behind a dot, the first of that
    length in the zone list; only when no zone matches so does the second
    pass decide, and it returns the longest zone that the name ends with
    behind a hyphen; when no zone matches either way, the result is the
    error that names the endpoint. *)
Theorem getZone_spec (zones : list string) (endpoint : Endpoint) :
  Forall (λ z, z ≠ "") zones →
  let dot := dotMatch (DNSName endpoint) in
  let hyphen := hyphenMatch (DNSName endpoint) in
  ((∃ z, z ∈ zones ∧ dot z) →
     ∃ Z, getZone zones endpoint = (Z, None) ∧ longestFirst dot zones Z)
  ∧ ((¬ ∃ z, z ∈ zones ∧ dot z) → (∃ z, z ∈ zones ∧ hyphen z) →
     ∃ Z, getZone zones endpoint = (Z, None) ∧ longestFirst hyphen zones Z)
  ∧ ((¬ ∃ z, z ∈ zones ∧ dot z) → (¬ ∃ z, z ∈ zones ∧ hyphen z) →
     getZone zones endpoint = ("", Some (ErrNoMatchingZone endpoint))).
Proof.
  intros Hne dot hyphen. unfold getZone.
  destruct (zonePass_spec (dotBoundary (DNSName endpoint)) zones
              (ErrNoMatchingZone endpoint) Hne) as [Hd1 Hd0].
  destruct (zonePass_spec (hyphenBoundary (DNSName endpoint)) zones
              (ErrNoMatchingZone endpoint) Hne) as [Hh1 Hh0].
  assert (Hdot : (∃ z, z ∈ zones ∧ dotBoundary (DNSName endpoint) z = true)
                 ↔ (∃ z, z ∈ zones ∧ dot z)).
  { split; intros (z & ? & ?); exists z; split; try done;
      by apply dotBoundary_dotMatch. }
  assert (Hhy : (∃ z, z ∈ zones ∧ hyphenBoundary (DNSName endpoint) z = true)
                ↔ (∃ z, z ∈ zones ∧ hyphen z)).
  { split; intros (z & ? & ?); exists z; split; try done;
      by apply hyphenBoundary_hyphenMatch. }
  split; [|split].
  - intros Hex. apply Hdot in Hex. destruct (Hd1 Hex) as (Z & -> & HZ).
    assert (Z ≠ "") as HZne.
    { destruct HZ as (i & Hi & _). eapply Forall_lookup_1 in Hne; eauto. }
    rewrite bool_decide_false by done. exists Z. split; [done|].
    eapply longestFirst_iff; [|done]. intros; apply dotBoundary_dotMatch.
  - intros Hno Hex. rewrite <- Hdot in Hno. rewrite (Hd0 Hno).
    rewrite bool_decide_true by done. apply Hhy in Hex.
    destruct (Hh1 Hex) as (Z & -> & HZ). exists Z. split; [done|].
    eapply longestFirst_iff; [|done]. intros; apply hyphenBoundary_hyphenMatch.
  - intros Hno Hno'. rewrite <- Hdot in Hno. rewrite <- Hhy in Hno'.
    rewrite (Hd0 Hno). rewrite bool_decide_true by done. by apply Hh0.
Qed.

(** ** [getRecIDs] *)

Lemma getRecIDs_inner (P : NameserverRecord → Prop) `{!∀ r, Decision (P r)}
    (b : NameserverRecord → bool) records acc :
  (∀ r, b r = true ↔ P r) →
  foldl (λ recIDs record, if b record then recIDs ++ [ID record] else recIDs)
        acc records
  = acc ++ (ID <$> filter P records).
Proof.
  intros Hb. revert acc. induction records as [|r records IH]; intros acc; simpl.
  { by rewrite app_nil_r. }
  rewrite IH. rewrite filter_cons. destruct (b r) eqn:E.
  - rewrite decide_True by (by apply Hb). by rewrite <- app_assoc.
  - rewrite decide_False; [done|]. rewrite <- Hb. by rewrite E.
Qed.

Lemma getRecIDs_collected zone records ep :
  getRecIDs zone records ep
  = if bool_decide (length (collectedIDs zone records ep) = length (Targets ep))
    then (collectedIDs zone records ep, None)
    else ([], Some ErrMapTargets).
Proof.
  unfold getRecIDs, collectedIDs.
  set (f := λ recIDs target, foldl _ recIDs records).
  assert (∀ ts acc, foldl f acc ts
            = acc ++ flat_map (λ target,
                ID <$> filter (matchesTarget zone ep target) records) ts) as Hf.
  { induction ts as [|t ts IH]; intros acc; simpl; [by rewrite app_nil_r|].
    rewrite IH. unfold f.
    rewrite (getRecIDs_inner (matchesTarget zone ep t)).
    - by rewrite <- app_assoc.
    - intros r. unfold matchesTarget.
      rewrite !andb_true_iff, !bool_decide_eq_true.
      split; [intros [[? ?] ?]|intros (? & ? & ?)]; repeat split; congruence. }
  rewrite Hf. simpl. repeat case_bool_decide; done.
Qed.

Lemma filter_length_pos {A} (P : A → Prop) `{!∀ x, Decision (P x)} (l : list A) :
  0 < length (filter P l) ↔ ∃ x, x ∈ l ∧ P x.
Proof.
  split.
  - destruct (filter P l) as [|x k] eqn:E; simpl; [lia|]. intros _.
    assert (x ∈ filter P l) as Hx by (rewrite E; left).
    apply list_elem_of_filter in Hx as [? ?]. eauto.
  - intros (x & Hx & HP).
    assert (x ∈ filter P l) as Hx' by (by apply list_elem_of_filter).
    destruct (filter P l); [by apply elem_of_nil in Hx'|simpl; lia].
Qed.

(** At most one record of a snapshot without twins answers a target. *)
Lemma filter_key_unique zone ep target records :
  NoDup (recordKey <$> records) →
  length (filter (matchesTarget zone ep target) records) ≤ 1.
Proof.
  induction records as [|r records IH]; simpl; [lia|].
  rewrite NoDup_cons. intros [Hr Hnd]. rewrite filter_cons.
  destruct (decide (matchesTarget zone ep target r)) as [Hm|]; [|by apply IH].
  simpl. cut (¬ 0 < length (filter (matchesTarget zone ep target) records)); [lia|].
  rewrite (filter_length_pos (matchesTarget zone ep target) records).
  intros (r' & Hr' & Hm').
  apply Hr. apply list_elem_of_fmap. exists r'. split; [|done].
  unfold recordKey. destruct Hm as (-> & -> & ->), Hm' as (-> & -> & ->). done.
Qed.

Lemma flat_map_length_units {A B} (f : A → list B) (ts : list A) :
  (∀ t, t ∈ ts → length (f t) ≤ 1) →
  length (flat_map f ts) ≤ length ts
  ∧ (length (flat_map f ts) = length ts ↔ ∀ t, t ∈ ts → length (f t) = 1).
Proof.
  induction ts as [|t ts IH]; intros Hle; simpl.
  { split; [done|]. split; [|done]. intros _ t Ht. by apply elem_of_nil in Ht. }
  rewrite length_app.
  destruct IH as [IHle IHeq]; [intros; apply Hle; by right|].
  pose proof (Hle t ltac:(left)) as Ht. split; [lia|]. split.
  - intros Hlen t' Ht'. apply elem_of_cons in Ht' as [->|Ht']; [lia|].
    apply IHeq; [lia|done].
  - intros Hall. rewrite (Hall t) by left. f_equal. apply IHeq.
    intros; apply Hall; by right.
Qed.

(** C1, as stated, fails: of two targets the second has no record, but
    the first is answered by two records of the snapshot, so two
    identifiers are collected for two targets and [getRecIDs] succeeds. *)
Lemma getRecIDs_twins_succeeds :
  (∃ target, target ∈ Targets twinEndpoint
     ∧ ∀ r, r ∈ twinRecords → ¬ matchesTarget "example.com" twinEndpoint target r)
  ∧ getRecIDs "example.com" twinRecords twinEndpoint = (["10"; "11"], None).
Proof.
  split; [|vm_compute; reflexivity].
  exists "2.2.2.2". split; [set_solver|].
  intros r Hr (_ & _ & Hc). unfold twinRecords in Hr.
  set_unfold in Hr. destruct Hr as [->|[->|[]]]; discriminate Hc.
Qed.

(** C1, amended. [getRecIDs] returns the identifiers collected target by
    target, in target order, and fails exactly when their number is not
    the number of targets; over a snapshot in which no two records share
    name, type and content it succeeds exactly when every target has a
    record of equal type, resolved name and content, so it fails whenever
    one target has none. *)
Theorem getRecIDs_spec zone records ep :
  getRecIDs zone records ep
  = (if bool_decide (length (collectedIDs zone records ep) = length (Targets ep))
     then (collectedIDs zone records ep, None)
     else ([], Some ErrMapTargets))
  ∧ (NoDup (recordKey <$> records) →
     (getRecIDs zone records ep = (collectedIDs zone records ep, None)
      ↔ ∀ target, target ∈ Targets ep →
          ∃ r, r ∈ records ∧ matchesTarget zone ep target r)
     ∧ ((∃ target, target ∈ Targets ep
           ∧ ∀ r, r ∈ records → ¬ matchesTarget zone ep target r) →
        getRecIDs zone records ep = ([], Some ErrMapTargets))).
Proof.
  split; [apply getRecIDs_collected|]. intros Hnd.
  rewrite getRecIDs_collected.
  destruct (flat_map_length_units
              (λ target, ID <$> filter (matchesTarget zone ep target) records)
              (Targets ep)) as [_ Heq].
  { intros t _. rewrite length_fmap. by apply filter_key_unique. }
  fold (collectedIDs zone records ep) in Heq.
  assert (length (collectedIDs zone records ep) = length (Targets ep)
          ↔ ∀ target, target ∈ Targets ep →
              ∃ r, r ∈ records ∧ matchesTarget zone ep target r) as Hall.
  { rewrite Heq. apply forall_proper; intros t. apply forall_proper; intros Ht.
    rewrite length_fmap.
    rewrite <- (filter_length_pos (matchesTarget zone ep t) records).
    pose proof (filter_key_unique zone ep t records Hnd). lia. }
  split.
  - rewrite <- Hall. case_bool_decide; [done|]. split; [done|]. intros; done.
  - intros (t & Ht & Hno). rewrite bool_decide_false; [done|].
    rewrite Hall. intros Hex. destruct (Hex t Ht) as (r & Hr & Hm).
    by apply (Hno r).
Qed.

Lemma getRecIDs_spec_witness :
  getRecIDs "baz.org" testRecords testMissing = ([], Some ErrMapTargets).
Proof.
  apply (getRecIDs_spec "baz.org" testRecords testMissing).
  - apply (bool_decide_unpack (NoDup (recordKey <$> testRecords))).
    vm_compute. exact I.
  - exists "5.5.5.7". split; [set_solver|].
    intros r Hr (_ & _ & Hc). unfold testRecords in Hr.
    set_unfold in Hr. destruct Hr as [->|[->|[->|[->|[]]]]]; discriminate Hc.
Defined.

(** ** The pass over a journaled client *)

Lemma findRecordsByNameAndType_filter zone records dnsName recordType :
  findRecordsByNameAndType zone records dnsName recordType
  = filter (sameNameType zone dnsName recordType) records.
Proof.
  unfold findRecordsByNameAndType.
  assert (∀ acc, foldl (λ matches record,
             if bool_decide (recordType = Type_ record)
                && bool_decide (Name record = extractRecordName dnsName zone)
             then matches ++ [record] else matches) acc records
           = acc ++ filter (sameNameType zone dnsName recordType) records) as H.
  { induction records as [|r records IH]; intros acc; simpl.
    { by rewrite app_nil_r. }
    rewrite IH, filter_cons. unfold sameNameType at 2.
    destruct (decide _) as [[? ?]|Hn].
    - rewrite !bool_decide_true by done. simpl. by rewrite <- app_assoc.
    - destruct (bool_decide (recordType = Type_ r)) eqn:E1;
        destruct (bool_decide (Name r = extractRecordName dnsName zone)) eqn:E2;
        simpl; try done.
      apply bool_decide_eq_true in E1, E2. destruct Hn. by split. }
  apply H.
Qed.

(** On records that all carry an identifier, [findExactRecord] finds one
    exactly when a record has the content. *)
Lemma findExactRecord_found (records : list NameserverRecord) content :
  identified records →
  findExactRecord records content ≠ "" ↔ ∃ r, r ∈ records ∧ Content r = content.
Proof.
  induction records as [|r records IH]; intros Hid; simpl.
  { split; [done|]. intros (r & Hr & _). by apply elem_of_nil in Hr. }
  apply Forall_cons in Hid as [Hr Hid]. case_bool_decide as Hc.
  - split; [|done]. intros _. exists r. split; [left|done].
  - rewrite (IH Hid). split.
    + intros (r' & ? & ?). exists r'. split; [by right|done].
    + intros (r' & Hr' & ?). apply elem_of_cons in Hr' as [->|?]; [done|eauto].
Qed.

Lemma exact_in_existing zone ep target (recs : list NameserverRecord) :
  (∃ r, r ∈ filter (sameNameType zone (DNSName ep) (RecordType ep)) recs
        ∧ Content r = target)
  ↔ ∃ r, r ∈ recs ∧ matchesTarget zone ep target r.
Proof.
  unfold matchesTarget, sameNameType.
  split; intros (r & Hr & Hc); exists r.
  - apply list_elem_of_filter in Hr as [[? ?] ?]. done.
  - destruct Hc as (? & ? & ?). split; [|done]. by apply list_elem_of_filter.
Qed.

Lemma identified_filter (P : NameserverRecord → Prop) `{!∀ r, Decision (P r)}
    recs :
  identified recs → identified (filter P recs).
Proof.
  unfold identified. rewrite !Forall_forall. intros Hall r Hr.
  apply list_elem_of_filter in Hr as [_ Hr]. by apply Hall.
Qed.

Lemma isObjectExistsError_2302 e :
  isObjectExistsError e = true ↔ ∃ message, e = ErrorResponse 2302 message.
Proof.
  destruct e; simpl; try (split; [done|intros [? ?]; done]).
  rewrite bool_decide_eq_true. split; [intros ->; eauto|].
  intros [? ?]; congruence.
Qed.

Section Journaled.
Context {St : Type} `{!AbstractClientWrapper St}.
Implicit Types p : Pass (St * list Event).

Lemma issues_nothing p : issues (mret ()) p [] p.
Proof. unfold issues. simpl. by rewrite !app_nil_r. Qed.

Lemma issues_bind (m1 m2 : M (St * list Event) unit) p evs1 p1 evs2 p2 :
  issues m1 p evs1 p1 → issues m2 p1 evs2 p2 →
  issues (m1;; m2) p (evs1 ++ evs2) p2.
Proof.
  intros (H1 & Hj1 & He1 & Hc1) (H2 & Hj2 & He2 & Hc2).
  unfold issues, mbind, M_bind. rewrite H1. split; [done|].
  rewrite Hj2, Hj1, He2, He1, Hc2, Hc1, bind_app, !app_assoc. done.
Qed.

(** A loop issues, item by item, what its body issues. *)
Lemma forEach_issues {A} (s : list A) (body : A → M (St * list Event) unit)
    (Q : A → list Event → Prop) :
  (∀ a p, a ∈ s → ∃ evs p', issues (body a) p evs p' ∧ Q a evs) →
  ∀ p, ∃ evss p', issues (forEach s body) p (concat evss) p' ∧ Forall2 Q s evss.
Proof.
  induction s as [|a s IH]; intros Hbody p.
  { exists [], p. split; [apply issues_nothing|constructor]. }
  destruct (Hbody a p ltac:(left)) as (evs & p1 & H1 & HQ).
  destruct (IH (λ a' p' Ha', Hbody a' p' ltac:(by right)) p1)
    as (evss & p2 & H2 & HQs).
  exists (evs :: evss), p2. split; [|by constructor].
  simpl. by eapply issues_bind.
Qed.

Lemma Forall2_concat_singletons {A} (R : A → Event → Prop) s evss :
  Forall2 (λ a evs, ∃ ev, evs = [ev] ∧ R a ev) s evss →
  Forall2 R s (concat evss).
Proof.
  induction 1 as [|a evs s evss (ev & -> & HR) _ IH]; simpl; by constructor.
Qed.

Lemma issues_create rec p :
  ∃ r p', issues (createOrExists rec) p [EvCreate rec r] p'.
Proof.
  unfold issues, createOrExists, mbind, M_bind, call. simpl.
  unfold journaled, journal.
  destruct (createRecord rec (client p).1) as [r c] eqn:E. simpl.
  exists r. destruct r as [e|]; simpl.
  - destruct (isObjectExistsError e); simpl; eexists; (split; [done|]);
      simpl; by rewrite ?app_nil_r.
  - eexists; (split; [done|]); simpl; by rewrite ?app_nil_r.
Qed.

Lemma issues_update id rec p :
  ∃ r p', issues (err ← call (updateRecord id rec); record err) p
                 [EvUpdate id rec r] p'.
Proof.
  unfold issues, mbind, M_bind, call, record. simpl.
  unfold journaled, journal.
  destruct (updateRecord id rec (client p).1) as [r c] eqn:E. simpl.
  exists r. destruct r as [e|]; simpl; eexists; (split; [done|]);
    simpl; by rewrite ?app_nil_r.
Qed.

(** One target of the Create phase issues what [createStep] says. *)
Lemma createTarget_step zone (recs : list NameserverRecord) ep target p :
  ∃ evs p',
    issues (createTarget zone (extractRecordName (DNSName ep) zone) recs ep
                         target) p evs p'
    ∧ createStep zone recs ep target evs.
Proof.
  unfold createTarget, createStep. cbv zeta.
  rewrite findRecordsByNameAndType_filter.
  set (existing := filter _ recs).
  set (rec := mkRequest zone _ (RecordType ep) target (RecordTTL ep) 0).
  destruct (decide (findExactRecord existing target ≠ "")) as [Hex|Hex].
  { rewrite bool_decide_true by done. exists [], p.
    split; [apply issues_nothing|done]. }
  rewrite bool_decide_false by done.
  destruct (decide (length existing = 1 ∧ length (Targets ep) = 1))
    as [[E1 E2]|Hn].
  - rewrite !bool_decide_true by done. simpl.
    destruct existing as [|r0 [|]] eqn:Eex; simpl in E1; try done.
    destruct (issues_update (ID r0) rec p) as (res & p' & Hi).
    exists [EvUpdate (ID r0) rec res], p'. split; [exact Hi|]. eauto.
  - assert (bool_decide (length existing = 1)
            && bool_decide (length (Targets ep) = 1) = false) as ->.
    { apply andb_false_iff. rewrite !bool_decide_eq_false.
      destruct (decide (length existing = 1)); [|by left].
      right. intros ?. by apply Hn. }
    destruct (issues_create rec p) as (res & p' & Hi).
    exists [EvCreate rec res], p'. split; [exact Hi|]. eauto.
Qed.

(** One endpoint of the Create phase does what [createdEndpoint] says. *)
Lemma createEndpoint_created zones ep p :
  ∃ p', createEndpoint zones ep p = Some ((), p')
        ∧ createdEndpoint zones ep p p'.
Proof.
  unfold createEndpoint, createdEndpoint.
  destruct (getZone zones ep) as [zone [err|]].
  { eexists. split; [reflexivity|]. done. }
  unfold mbind at 1, M_bind at 1, cachedRecords, phaseSnapshot.
  destruct (recordsCache p !! zone) as [recs|] eqn:Hc.
  - destruct (forEach_issues (Targets ep)
                (createTarget zone (extractRecordName (DNSName ep) zone) recs ep)
                (createStep zone recs ep)) with p
      as (evss & p' & (Hrun & Hj & He & Hcache) & HQ).
    { intros target q _. apply createTarget_step. }
    exists p'. split; [exact Hrun|]. exists [], (Ok recs).
    split; [done|]. exists evss. split; [done|]. split; [done|].
    split; [done|]. by rewrite Hcache, insert_id.
  - simpl. unfold journaled.
    destruct (getRecords zone (client p).1) as [[recs|e] c] eqn:E; simpl.
    + set (p1 := mkPass (c, (client p).2 ++ [EvGetRecords zone (Ok recs)])
                        (errs p) (<[zone := recs]> (recordsCache p))).
      destruct (forEach_issues (Targets ep)
                  (createTarget zone (extractRecordName (DNSName ep) zone) recs
                                ep)
                  (createStep zone recs ep)) with p1
        as (evss & p' & (Hrun & Hj & He & Hcache) & HQ).
      { intros target q _. apply createTarget_step. }
      exists p'. split; [exact Hrun|].
      exists [EvGetRecords zone (Ok recs)], (Ok recs).
      split; [done|]. exists evss. split; [done|].
      split; [rewrite Hj; unfold journal, p1; simpl; by rewrite <- app_assoc|].
      done.
    + eexists. split; [reflexivity|].
      exists [EvGetRecords zone (Err e)], (Err e). done.
Qed.

(** C2. The Create phase goes through the endpoints of [changes.Create]
    in order, never panics, and does for each what [createdEndpoint]
    says: against the snapshot of the endpoint's zone that the phase has
    cached (fetched at the first endpoint of the zone), each target of
    the endpoint, in order, issues no registrar call when
    [findExactRecord] finds a record among the cached records with the
    resolved name and the type - which it does, the cached records all
    carrying an identifier, exactly when one of them has this content -;
    otherwise, when exactly one cached record has the resolved name and
    the type and the endpoint has exactly one target, that record is
    updated with the new content and the endpoint's TTL; otherwise a
    create is issued. Whatever is issued, [errs] grows by what [recorded]
    keeps of the result: nothing for a create that fails with the
    registrar's code 2302, the error for any other failure. *)
Theorem createPhase_decision zones changes p :
  (∃ p', forEach (Create changes) (createEndpoint zones) p = Some ((), p')
         ∧ phaseRun (createdEndpoint zones) (Create changes) p p')
  ∧ (∀ zone (recs : list NameserverRecord) ep target,
       identified recs →
       findExactRecord
         (filter (sameNameType zone (DNSName ep) (RecordType ep)) recs) target
       ≠ ""
       ↔ ∃ r, r ∈ recs ∧ matchesTarget zone ep target r)
  ∧ (∀ req e, recorded (EvCreate req (Some e))
              = if isObjectExistsError e then [] else [e])
  ∧ (∀ e, isObjectExistsError e = true
          ↔ ∃ message, e = ErrorResponse 2302 message).
Proof.
  split; [|split; [|split]].
  - generalize (Create changes). intros eps. revert p.
    induction eps as [|ep eps IH]; intros p; simpl.
    { by exists p. }
    destruct (createEndpoint_created zones ep p) as (p1 & Hrun1 & Hstep).
    destruct (IH p1) as (p' & Hrun & Hchain).
    exists p'. unfold mbind, M_bind. rewrite Hrun1. split; [exact Hrun|].
    by exists p1.
  - intros zone recs ep target Hid.
    rewrite findExactRecord_found by (by apply identified_filter).
    apply exact_in_existing.
  - done.
  - apply isObjectExistsError_2302.
Qed.

Lemma issues_delete_logged {A} id (s : list A) j p :
  is_Some (s !! j) →
  ∃ r p', issues (err ← call (deleteRecord id);
                  match err with
                  | Some e => appendErr e;; _ ← index s j; mret ()
                  | None => mret ()
                  end) p [EvDelete id r] p'.
Proof.
  intros [a Ha]. unfold issues, mbind, M_bind, call, index. simpl.
  unfold journaled, journal.
  destruct (deleteRecord id (client p).1) as [r c] eqn:E. simpl.
  exists r. destruct r as [e|]; simpl; rewrite ?Ha; eexists;
    (split; [done|]); simpl; by rewrite ?app_nil_r.
Qed.

Lemma getRecIDs_length zone records ep recIDs :
  getRecIDs zone records ep = (recIDs, None) →
  length recIDs = length (Targets ep).
Proof.
  rewrite getRecIDs_collected. case_bool_decide; [|done]. by intros [= <-].
Qed.

Lemma updateIndex_issues zone name recIDs oldEp newEp j p :
  length recIDs = length (Targets oldEp) →
  j < Nat.max (Nat.max (length (Targets oldEp)) (length (Targets newEp)))
              (length recIDs) →
  ∃ evs p', issues (updateIndex zone name recIDs oldEp newEp j) p evs p'
            ∧ ∃ ev, evs = [ev] ∧ pairedStep zone name recIDs oldEp newEp j ev.
Proof.
  intros Hlen Hj. unfold updateIndex.
  case_bool_decide as Hnew.
  - destruct (lookup_lt_is_Some_2 recIDs j ltac:(lia)) as [id Hid].
    destruct (issues_delete_logged id (Targets oldEp) j p) as (r & p' & Hi).
    { apply lookup_lt_is_Some_2. lia. }
    exists [EvDelete id r], p'. split.
    + destruct Hi as (Hrun & Hrest). split; [|done].
      unfold mbind at 1, M_bind at 1, index. by rewrite Hid.
    + eexists; split; [done|]. unfold pairedStep.
      rewrite decide_True by done. eauto.
  - destruct (lookup_lt_is_Some_2 (Targets newEp) j ltac:(lia)) as [t Ht].
    case_bool_decide as Hold.
    + destruct (issues_create
                  (mkRequest zone name (RecordType newEp) t (RecordTTL newEp) 0) p)
        as (r & p' & Hi).
      eexists _, p'. split.
      * destruct Hi as (Hrun & Hrest). split; [|exact Hrest].
        unfold mbind at 1, M_bind at 1, index. by rewrite Ht.
      * eexists; split; [done|]. unfold pairedStep.
        rewrite decide_False, decide_True by done. eauto.
    + destruct (lookup_lt_is_Some_2 recIDs j ltac:(lia)) as [id Hid].
      destruct (issues_update id
                  (mkRequest zone name (RecordType newEp) t (RecordTTL oldEp) 0) p)
        as (r & p' & Hi).
      eexists _, p'. split.
      * destruct Hi as (Hrun & Hrest). split; [|exact Hrest].
        unfold mbind at 1, M_bind at 1, index. rewrite Ht.
        unfold mbind at 1, M_bind at 1. by rewrite Hid.
      * eexists; split; [done|]. unfold pairedStep.
        rewrite !decide_False by done. eauto 10.
Qed.

(** C3. On the paired path, where [getRecIDs] found the identifiers of
    the old endpoint, the pass does not panic and issues one registrar
    call for every index [j] below the largest of the three lengths, in
    order: beyond the new targets the deletion of [recIDs[j]]; else,
    beyond the old targets, the creation of a record with the content
    [newEp.Targets[j]] and the new endpoint's TTL; else the update of
    [recIDs[j]] to the content [newEp.Targets[j]] with the old endpoint's
    TTL. *)
Theorem updatePaired_steps zone name (recs : list NameserverRecord) recIDs
    oldEp newEp p :
  getRecIDs zone recs oldEp = (recIDs, None) →
  let n := Nat.max (Nat.max (length (Targets oldEp)) (length (Targets newEp)))
                   (length recIDs) in
  ∃ evs p',
    issues (updatePaired zone name recIDs oldEp newEp) p evs p'
    ∧ Forall2 (pairedStep zone name recIDs oldEp newEp) (seq 0 n) evs.
Proof.
  intros Hids n. apply getRecIDs_length in Hids.
  destruct (forEach_issues (seq 0 n) (updateIndex zone name recIDs oldEp newEp)
              (λ j evs, ∃ ev, evs = [ev]
                 ∧ pairedStep zone name recIDs oldEp newEp j ev)) with (p := p)
    as (evss & p' & Hi & HQ).
  { intros j q Hj. apply elem_of_seq in Hj. apply updateIndex_issues; [done|].
    unfold n in Hj. lia. }
  exists (concat evss), p'. split; [exact Hi|].
  by apply Forall2_concat_singletons.
Qed.

End Journaled.

(** ** Index accesses of the paired path *)

Section Bounds.
Context {St : Type} `{!AbstractClientWrapper St}.

Lemma forEach_total {A} (s : list A) (body : A → M St unit) :
  (∀ a p, a ∈ s → is_Some (body a p)) → ∀ p, is_Some (forEach s body p).
Proof.
  induction s as [|a s IH]; intros Hbody p; simpl; [by eexists|].
  unfold mbind, M_bind.
  destruct (Hbody a p ltac:(left)) as [[[] p1] ->].
  apply IH. intros; apply Hbody; by right.
Qed.

(** C10. When [getRecIDs] succeeds it returns as many identifiers as the
    old endpoint has targets; hence at every index [j] below the largest
    of the three lengths the accesses are in range - [recIDs[j]] and
    [oldEp.Targets[j]] where [j] is beyond the new targets, [newEp.Targets[j]]
    where it is not, [recIDs[j]] where it is beyond neither - and the
    paired path never panics. *)
Theorem updatePaired_in_bounds zone name (recs : list NameserverRecord)
    recIDs oldEp newEp :
  getRecIDs zone recs oldEp = (recIDs, None) →
  length recIDs = length (Targets oldEp)
  ∧ (∀ j, j < Nat.max (Nat.max (length (Targets oldEp))
                               (length (Targets newEp))) (length recIDs) →
       (length (Targets newEp) ≤ j →
          is_Some (recIDs !! j) ∧ is_Some (Targets oldEp !! j))
       ∧ (j < length (Targets newEp) →
          is_Some (Targets newEp !! j)
          ∧ (j < length (Targets oldEp) → is_Some (recIDs !! j))))
  ∧ (∀ p : Pass St, is_Some (updatePaired zone name recIDs oldEp newEp p)).
Proof.
  intros Hids. apply getRecIDs_length in Hids. split; [done|]. split.
  - intros j Hj. split; [intros ?|intros ?; split; [|intros ?]];
      try split; apply lookup_lt_is_Some_2; lia.
  - intros p. apply forEach_total. intros j q Hj. apply elem_of_seq in Hj.
    unfold updateIndex, mbind, M_bind, index, call, record, createOrExists,
      appendErr, mbind, M_bind, call, mret, M_ret.
    case_bool_decide as Hnew.
    + destruct (lookup_lt_is_Some_2 recIDs j ltac:(lia)) as [id ->].
      destruct (deleteRecord id (client q)) as [[e|] c]; [|by eexists].
      destruct (lookup_lt_is_Some_2 (Targets oldEp) j ltac:(lia)) as [t ->].
      by eexists.
    + destruct (lookup_lt_is_Some_2 (Targets newEp) j ltac:(lia)) as [t ->].
      case_bool_decide as Hold.
      * destruct (createRecord _ (client q)) as [[e|] c]; [|by eexists].
        destruct (isObjectExistsError e); by eexists.
      * destruct (lookup_lt_is_Some_2 recIDs j ltac:(lia)) as [id ->].
        destruct (updateRecord id _ (client q)) as [[e|] c]; by eexists.
Qed.
End Bounds.

(** ** [Records] *)

Section Observed.
Context {St : Type} `{!AbstractClientWrapper St}.

Lemma collect_zone zone (records : list NameserverRecord) endpoints :
  foldl (λ endpoints rec,
           endpoints ++ [NewEndpointWithTTL (Name rec +:+ "." +:+ zone)
                           (Type_ rec) (TTL rec) (Content rec)])
        endpoints records
  = endpoints ++ (observed zone <$> records).
Proof.
  revert endpoints. induction records as [|r records IH]; intros endpoints;
    simpl; [by rewrite app_nil_r|].
  rewrite IH. by rewrite <- app_assoc.
Qed.

Lemma collectRecords_journal zones endpoints (cj cj' : St * list Event) eps :
  collectRecords zones endpoints cj = (Ok eps, cj') →
  ∃ fetched, fetched.*1 = zones
    ∧ cj'.2 = cj.2 ++ (fetchedEvent <$> fetched)
    ∧ eps = endpoints ++ observedAll fetched.
Proof.
  revert endpoints cj. induction zones as [|zone zones IH];
    intros endpoints cj; simpl.
  { intros [= <- <-]. exists []. simpl. by rewrite !app_nil_r. }
  unfold journaled.
  destruct (getRecords zone cj.1) as [[records|err] c] eqn:E; simpl; [|done].
  rewrite collect_zone. intros Hrest.
  apply IH in Hrest as (fetched & Hz & Hj & Heps). simpl in Hj.
  exists ((zone, records) :: fetched). split; [by rewrite <- Hz|].
  simpl.
  split; [by rewrite Hj, <- app_assoc|].
  by rewrite Heps, <- app_assoc.
Qed.

(** C9. When [Records] succeeds, it has logged in, listed the zones,
    fetched the records of every zone, in order, and logged out, and its
    result is, zone by zone and record by record, one endpoint for each
    record fetched: the endpoint's name is the record's name, a dot and
    the zone, its type and TTL are the record's, and its only target is
    the record's content. No two records are merged: there are as many
    endpoints as records, each with one target. *)
Theorem Records_observed (cj cj' : St * list Event) eps :
  Records cj = (Ok eps, cj') →
  ∃ zones fetched r,
    cj'.2 = cj.2 ++ [EvLogin None; EvGetZones (Ok zones)]
                 ++ (fetchedEvent <$> fetched) ++ [EvLogout r]
    ∧ fetched.*1 = zones
    ∧ eps = observedAll fetched
    ∧ length eps = length (fetched ≫= snd)
    ∧ Forall (λ ep, ∃ zone rec,
                ep = mkEndpoint (Name rec +:+ "." +:+ zone) [Content rec]
                                (Type_ rec) (TTL rec))
             eps.
Proof.
  unfold Records. simpl. unfold journaled at 1.
  destruct (login cj.1) as [[e|] c1] eqn:E1; simpl; [done|].
  unfold journaled at 1. simpl.
  destruct (getZones c1) as [[zones|e] c2] eqn:E2; simpl.
  - destruct (collectRecords zones [] (c2, _)) as [r cj3] eqn:E3.
    unfold journaled. destruct (logout cj3.1) as [rl c4] eqn:E4. simpl.
    intros [= -> <-]. apply collectRecords_journal in E3
      as (fetched & Hz & Hj & Heps). simpl in *.
    exists zones, fetched, rl. rewrite Hj, <- !app_assoc. simpl.
    split; [done|]. split; [done|]. split; [done|]. subst eps. split.
    + clear. induction fetched as [|[z recs] fetched IH]; simpl; [done|].
      unfold observedAll in *. simpl. rewrite !length_app, length_fmap.
      by rewrite IH.
    + clear. unfold observedAll. apply Forall_forall. intros ep Hep.
      apply list_elem_of_In, in_flat_map in Hep as ([z recs] & _ & Hep).
      apply list_elem_of_In, list_elem_of_fmap in Hep as (rec & -> & _).
      by exists z, rec.
  - unfold journaled. simpl. by destruct (logout c2) as [rl c4].
Qed.
End Observed.

(** ** Uniqueness of live records on the mock *)

Lemma liveRecords_cons r l :
  liveRecords (r :: l)
  = (if decide (ID r ≠ "") then [r] else []) ++ liveRecords l.
Proof. unfold liveRecords. rewrite filter_cons. by destruct (decide _). Qed.

Lemma liveRecords_snoc l r :
  liveRecords (l ++ [r])
  = liveRecords l ++ (if decide (ID r ≠ "") then [r] else []).
Proof.
  unfold liveRecords. rewrite filter_app, filter_cons, filter_nil.
  by destruct (decide _).
Qed.

Lemma liveRecords_identified l : identified (liveRecords l).
Proof.
  apply Forall_forall. intros r Hr. by apply list_elem_of_filter in Hr as [? _].
Qed.

(** A record of a zone after a record was overwritten is the new one or
    was a record of the zone before. *)
Lemma liveRecords_insert l idx new r :
  r ∈ liveRecords (<[idx := new]> l) → r = new ∨ r ∈ liveRecords l.
Proof.
  unfold liveRecords. rewrite !list_elem_of_filter. intros [Hid Hr].
  apply list_elem_of_lookup_1 in Hr as [i Hi].
  destruct (decide (i = idx)) as [->|Hne].
  - destruct (decide (idx < length l)).
    + rewrite list_lookup_insert_eq in Hi by done. left. congruence.
    + rewrite list_insert_ge in Hi by lia. right. split; [done|].
      by eapply list_elem_of_lookup_2.
  - rewrite list_lookup_insert_ne in Hi by done. right. split; [done|].
    by eapply list_elem_of_lookup_2.
Qed.

Lemma liveRecords_append l new r :
  r ∈ liveRecords (l ++ [new]) → r = new ∨ r ∈ liveRecords l.
Proof.
  rewrite liveRecords_snoc, elem_of_app. intros [?|Hr]; [by right|].
  destruct (decide _); [|by apply elem_of_nil in Hr].
  apply list_elem_of_singleton in Hr. by left.
Qed.

(** Overwriting a record keeps the keys of the live records distinct when
    the new record is deleted or its key is fresh. *)
Lemma unique_insert l idx new :
  NoDup (recordKey <$> liveRecords l) →
  (ID new ≠ "" → ∀ r, r ∈ liveRecords l → recordKey r ≠ recordKey new) →
  NoDup (recordKey <$> liveRecords (<[idx := new]> l)).
Proof.
  revert idx. induction l as [|a l IH]; intros idx Hnd Hfresh; [done|].
  assert (∀ r, r ∈ liveRecords l → r ∈ liveRecords (a :: l)) as Hsub.
  { intros r Hr. rewrite liveRecords_cons. apply elem_of_app. by right. }
  assert (NoDup (recordKey <$> liveRecords l)) as Hl.
  { rewrite liveRecords_cons, fmap_app in Hnd. by apply NoDup_app in Hnd as (_ & _ & ?). }
  destruct idx as [|idx]; simpl; rewrite liveRecords_cons.
  - destruct (decide (ID new ≠ "")) as [Hlive|]; [|done]. simpl.
    apply NoDup_cons. split; [|done].
    intros Hin. apply list_elem_of_fmap in Hin as (r & Hkr & Hr).
    by eapply (Hfresh Hlive r (Hsub r Hr)).
  - specialize (IH idx Hl (λ Hlive r Hr, Hfresh Hlive r (Hsub r Hr))).
    destruct (decide (ID a ≠ "")) as [Hla|]; [|done]. simpl.
    apply NoDup_cons. split; [|done].
    intros Hin. apply list_elem_of_fmap in Hin as (r & Hkr & Hr).
    assert (ID r ≠ "") as Hlive
      by (unfold liveRecords in Hr; by apply list_elem_of_filter in Hr as [? _]).
    apply liveRecords_insert in Hr as [->|Hr].
    + apply (Hfresh Hlive a); [|done].
      rewrite liveRecords_cons, decide_True by done. by left.
    + rewrite liveRecords_cons, decide_True in Hnd by done. simpl in Hnd.
      apply NoDup_cons in Hnd as [Hnotin _]. apply Hnotin.
      rewrite Hkr. apply list_elem_of_fmap. eauto.
Qed.

Lemma unique_append l new :
  NoDup (recordKey <$> liveRecords l) →
  (∀ r, r ∈ liveRecords l → recordKey r ≠ recordKey new) →
  NoDup (recordKey <$> liveRecords (l ++ [new])).
Proof.
  intros Hnd Hfresh. rewrite liveRecords_snoc, fmap_app. apply NoDup_app.
  split; [done|]. split.
  - intros k Hk Hin. destruct (decide _); [|by apply elem_of_nil in Hin].
    apply list_elem_of_singleton in Hin as ->.
    apply list_elem_of_fmap in Hk as (r & Hkr & Hr). by eapply Hfresh.
  - destruct (decide _); [apply NoDup_singleton|apply NoDup_nil_2].
Qed.

Lemma wellCached_mono done done' p :
  (∀ k, k ∈ done → k ∈ done') → wellCached done p → wellCached done' p.
Proof.
  intros Hsub [Hu Hc]. split; [done|]. intros zone S HS.
  destruct (Hc zone S HS) as (Hid & l & Hl & Hcov). split; [done|].
  exists l. split; [done|]. intros r Hr. destruct (Hcov r Hr); auto.
Qed.

(** A write to one zone of the mock that adds at most the record [new]
    to its live records, and keeps their keys distinct, keeps the
    invariant, [new] counted among the writes. *)
Lemma wellCached_write done p z l l' new ids errs' :
  wellCached done p → db (client p) !! z = Some l →
  (∀ r, r ∈ liveRecords l' → r = new ∨ r ∈ liveRecords l) →
  NoDup (recordKey <$> liveRecords l') →
  wellCached (done ++ [(z, recordKey new)])
    (mkPass (mkMock (<[z := l']> (db (client p))) ids) errs' (recordsCache p)).
Proof.
  intros [Hu Hc] Hl Hsub Hnd. split.
  - intros zone recs. simpl. destruct (decide (z = zone)) as [->|Hne].
    + rewrite lookup_insert_eq. by intros [= <-].
    + rewrite lookup_insert_ne by done. apply Hu.
  - intros zone S HS. simpl in *.
    destruct (Hc zone S HS) as (Hid & l0 & Hl0 & Hcov). split; [done|].
    destruct (decide (z = zone)) as [->|Hne].
    + rewrite lookup_insert_eq. exists l'. split; [done|].
      intros r Hr. rewrite Hl in Hl0. injection Hl0 as <-.
      destruct (Hsub r Hr) as [->|Hr'].
      * right. apply elem_of_app. right. by left.
      * destruct (Hcov r Hr'); [by left|right]. apply elem_of_app. by left.
    + rewrite lookup_insert_ne by done. exists l0. split; [done|].
      intros r Hr. destruct (Hcov r Hr); [by left|right].
      apply elem_of_app. by left.
Qed.

(** The key of a target that is not in the cached snapshot and was not
    written before is not the key of any live record of the zone. *)
Lemma fresh_key done p z S l ep target :
  wellCached done p → recordsCache p !! z = Some S →
  db (client p) !! z = Some l →
  (¬ ∃ r, r ∈ S ∧ matchesTarget z ep target r) →
  (z, (extractRecordName (DNSName ep) z, RecordType ep, target)) ∉ done →
  ∀ r, r ∈ liveRecords l →
       recordKey r ≠ (extractRecordName (DNSName ep) z, RecordType ep, target).
Proof.
  intros [_ Hc] HS Hl Habsent Hnew r Hr Hkey.
  destruct (Hc z S HS) as (_ & l0 & Hl0 & Hcov).
  rewrite Hl in Hl0. injection Hl0 as <-.
  destruct (Hcov r Hr) as [Hin|Hin].
  - apply list_elem_of_fmap in Hin as (r' & Hk & Hr').
    apply Habsent. exists r'. split; [done|].
    rewrite Hkey in Hk. unfold recordKey in Hk. injection Hk as Hn Ht Hc'.
    by repeat split.
  - by rewrite Hkey in Hin.
Qed.

(** One target of an endpoint to create, on the mock. *)
Lemma createTarget_mock done p zone S ep target :
  wellCached done p → recordsCache p !! zone = Some S →
  (zone, (extractRecordName (DNSName ep) zone, RecordType ep, target)) ∉ done →
  ∃ p', createTarget zone (extractRecordName (DNSName ep) zone) S ep target p
        = Some ((), p')
    ∧ recordsCache p' = recordsCache p
    ∧ wellCached
        (done ++ [(zone, (extractRecordName (DNSName ep) zone, RecordType ep,
                          target))]) p'.
Proof.
  intros Hwc HS Hnew.
  set (name := extractRecordName (DNSName ep) zone) in *.
  assert (∀ q : Pass MockClientWrapper,
            client q = client p → recordsCache q = recordsCache p →
            wellCached (done ++ [(zone, (name, RecordType ep, target))]) q)
    as Hsame.
  { intros [c e k] Hc Hk. simpl in *. subst c k.
    eapply wellCached_mono; [|exact Hwc]. intros; apply elem_of_app; by left. }
  destruct (proj2 Hwc zone S HS) as (Hid & l & Hl & _).
  unfold createTarget. rewrite findRecordsByNameAndType_filter.
  set (existing := filter _ S).
  assert (findExactRecord existing target ≠ ""
          ↔ ∃ r, r ∈ S ∧ matchesTarget zone ep target r) as Hfound.
  { rewrite findExactRecord_found by (by apply identified_filter).
    apply exact_in_existing. }
  case_bool_decide as Hex.
  { exists p. split; [done|]. split; [done|]. by apply Hsame. }
  assert (¬ ∃ r, r ∈ S ∧ matchesTarget zone ep target r) as Habsent
    by (rewrite <- Hfound; intros Hn; by apply Hn).
  pose proof (fresh_key done p zone S l ep target Hwc HS Hl Habsent Hnew)
    as Hfresh.
  pose proof (proj1 Hwc zone l Hl) as Hnd.
  destruct (bool_decide (length existing = 1)
            && bool_decide (length (Targets ep) = 1)) eqn:E.
  - apply andb_true_iff in E as [E1 _]. apply bool_decide_eq_true in E1.
    destruct existing as [|r0 [|]]; simpl in E1; try done.
    unfold mbind, M_bind, index, call, record, appendErr. simpl.
    unfold Mock.updateRecord. simpl. rewrite Hl.
    destruct (Mock.findRecord l (ID r0)) as [idx|]; simpl.
    + eexists. split; [done|]. split; [done|].
      apply (wellCached_write done p zone l _
               (mkRecord (ID r0) name (RecordType ep) target (RecordTTL ep) 0));
        [done|done|apply liveRecords_insert|].
      apply unique_insert; [done|]. intros _. exact Hfresh.
    + eexists. split; [done|]. split; [done|]. by apply Hsame.
  - unfold createOrExists, mbind, M_bind, call. simpl.
    unfold Mock.createRecord. simpl. rewrite Hl. simpl.
    eexists. split; [done|]. split; [done|].
    apply (wellCached_write done p zone l _
             (mkRecord (Itoa (length l)) name (RecordType ep) target
                (RecordTTL ep) 0));
      [done|done|apply liveRecords_append|].
    apply unique_append; [done|]. exact Hfresh.
Qed.

(** The targets of an endpoint to create, on the mock. *)
Lemma createTargets_mock zone S ep targets done p :
  wellCached done p → recordsCache p !! zone = Some S →
  let key target :=
    (zone, (extractRecordName (DNSName ep) zone, RecordType ep, target)) in
  NoDup (done ++ (key <$> targets)) →
  ∃ p', forEach targets
          (createTarget zone (extractRecordName (DNSName ep) zone) S ep) p
        = Some ((), p')
    ∧ recordsCache p' = recordsCache p
    ∧ wellCached (done ++ (key <$> targets)) p'.
Proof.
  intros Hwc HS key. revert done p Hwc HS.
  induction targets as [|t targets IH]; intros done p Hwc HS Hnd; simpl.
  { exists p. rewrite app_nil_r. done. }
  assert (key t ∉ done) as Hnew.
  { apply NoDup_app in Hnd as (_ & Hd & _). intros Hin.
    apply (Hd _ Hin). left. }
  destruct (createTarget_mock done p zone S ep t Hwc HS Hnew)
    as (p1 & Hrun & Hcache & Hwc1).
  destruct (IH (done ++ [key t]) p1 Hwc1) as (p2 & Hrun2 & Hcache2 & Hwc2).
  { by rewrite Hcache. }
  { by rewrite <- app_assoc. }
  exists p2. unfold mbind, M_bind. rewrite Hrun.
  split; [done|]. split; [congruence|]. by rewrite <- app_assoc in Hwc2.
Qed.

(** The cache lookup never writes to the mock. *)
Lemma cachedRecords_mock done p zone :
  wellCached done p →
  ∃ r p', cachedRecords zone p = Some (r, p')
    ∧ client p' = client p
    ∧ wellCached done p'
    ∧ ∀ S, r = Some S → recordsCache p' !! zone = Some S.
Proof.
  intros [Hu Hc]. unfold cachedRecords.
  destruct (recordsCache p !! zone) as [S|] eqn:HS.
  { exists (Some S), p. split; [done|]. split; [done|]. split; [by split|].
    by intros ? [= <-]. }
  simpl. unfold Mock.getRecords.
  destruct (db (client p) !! zone) as [l|] eqn:Hl; simpl.
  - eexists _, _. split; [done|]. split; [done|]. split.
    + split; [done|]. intros zone' S'. simpl.
      destruct (decide (zone = zone')) as [<-|Hne].
      * rewrite lookup_insert_eq. intros [= <-].
        split; [apply liveRecords_identified|].
        exists l. split; [done|]. intros r Hr. left.
        apply list_elem_of_fmap. eauto.
      * rewrite lookup_insert_ne by done. apply Hc.
    + intros S [= <-]. simpl. by rewrite lookup_insert_eq.
  - eexists _, _. split; [done|]. split; [done|]. split; [|done].
    split; [done|]. exact Hc.
Qed.

(** An endpoint to create, on the mock. *)
Lemma createEndpoint_mock zones ep done p :
  wellCached done p → NoDup (done ++ requested zones ep) →
  ∃ p', createEndpoint zones ep p = Some ((), p')
        ∧ wellCached (done ++ requested zones ep) p'.
Proof.
  intros Hwc Hnd. unfold createEndpoint, requested in *.
  destruct (getZone zones ep) as [zone [err|]].
  { eexists. split; [done|]. rewrite app_nil_r. exact Hwc. }
  destruct (cachedRecords_mock done p zone Hwc)
    as (r & p1 & Hrun & Hcl & Hwc1 & Hcached).
  unfold mbind at 1, M_bind at 1. rewrite Hrun. destruct r as [S|].
  - destruct (createTargets_mock zone S ep (Targets ep) done p1 Hwc1
                (Hcached S eq_refl) Hnd) as (p2 & Hrun2 & _ & Hwc2).
    by exists p2.
  - exists p1. split; [done|].
    eapply wellCached_mono; [|exact Hwc1]. intros; apply elem_of_app; by left.
Qed.

(** Phase Create, on the mock. *)
Lemma createPhase_mock zones eps done p :
  wellCached done p → NoDup (done ++ flat_map (requested zones) eps) →
  ∃ p', forEach eps (createEndpoint zones) p = Some ((), p')
        ∧ unique (client p').
Proof.
  revert done p. induction eps as [|ep eps IH]; intros done p Hwc Hnd; simpl.
  { exists p. split; [done|]. apply Hwc. }
  simpl in Hnd. rewrite app_assoc in Hnd.
  destruct (createEndpoint_mock zones ep done p Hwc) as (p1 & Hrun & Hwc1).
  { by apply NoDup_app in Hnd as (? & _ & _). }
  destruct (IH _ p1 Hwc1 Hnd) as (p2 & Hrun2 & Hu).
  exists p2. unfold mbind, M_bind. by rewrite Hrun.
Qed.

(** A deletion empties an identifier, so it keeps the live records
    unique. *)
Lemma deleteRecord_unique id w : unique w → unique (Mock.deleteRecord id w).2.
Proof.
  intros Hu. unfold Mock.deleteRecord.
  destruct (idToZone w !! id) as [zone|]; [|done].
  destruct (db w !! zone) as [recs|] eqn:Hrecs; [|done].
  destruct (Mock.findRecord recs id) as [idx|]; [|done].
  destruct (recs !! idx) as [rec|]; [|done].
  case_bool_decide; [done|]. simpl. intros zone' recs'. simpl.
  destruct (decide (zone = zone')) as [<-|Hne].
  - rewrite lookup_insert_eq. intros [= <-].
    apply unique_insert; [exact (Hu zone recs Hrecs)|]. simpl. done.
  - rewrite lookup_insert_ne by done. apply (Hu zone' recs').
Qed.

(** An endpoint to delete, on the mock. *)
Lemma deleteEndpoint_mock zones ep (p : Pass MockClientWrapper) :
  unique (client p) →
  ∃ p', deleteEndpoint zones ep p = Some ((), p') ∧ unique (client p').
Proof.
  intros Hu. unfold deleteEndpoint.
  destruct (getZone zones ep) as [zone [err|]]; [by eexists|].
  assert (∃ r p1, cachedRecords zone p = Some (r, p1) ∧ client p1 = client p)
    as (r & p1 & Hrun & Hcl).
  { unfold cachedRecords. destruct (recordsCache p !! zone); [by eexists _, _|].
    simpl. unfold Mock.getRecords.
    destruct (db (client p) !! zone); by eexists _, _. }
  unfold mbind at 1, M_bind at 1. rewrite Hrun.
  destruct r as [recs|]; [|exists p1; by rewrite Hcl].
  destruct (getRecIDs zone recs ep) as [recIDs err].
  assert (∃ p2, record err p1 = Some ((), p2) ∧ client p2 = client p1)
    as (p2 & Hrec & Hcl2) by (destruct err; by eexists).
  unfold mbind at 1, M_bind at 1. rewrite Hrec.
  assert (unique (client p2)) as Hu2 by (by rewrite Hcl2, Hcl).
  clear -Hu2. revert p2 Hu2.
  induction recIDs as [|id recIDs IH]; intros p2 Hu2; simpl; [by eexists|].
  unfold mbind, M_bind, call. simpl.
  pose proof (deleteRecord_unique id (client p2) Hu2) as Hu3.
  destruct (Mock.deleteRecord id (client p2)) as [e c]. simpl in *.
  destruct e as [e|]; simpl; by apply IH.
Qed.

Lemma deletePhase_mock zones eps (p : Pass MockClientWrapper) :
  unique (client p) →
  ∃ p', forEach eps (deleteEndpoint zones) p = Some ((), p')
        ∧ unique (client p').
Proof.
  revert p. induction eps as [|ep eps IH]; intros p Hu; simpl; [by eexists|].
  destruct (deleteEndpoint_mock zones ep p Hu) as (p1 & Hrun & Hu1).
  unfold mbind, M_bind. rewrite Hrun. by apply IH.
Qed.

Lemma unique_bothAddresses : unique bothAddresses.
Proof.
  intros zone recs Hrecs. unfold bothAddresses in Hrecs. simpl in Hrecs.
  apply lookup_singleton_Some in Hrecs as [_ <-].
  apply (bool_decide_unpack _). vm_compute. exact I.
Qed.


(** The second way to two records alike: the snapshot the Create phase
    probes is fetched once and not brought up to date by the phase's own
    creates, so an endpoint that names a target twice creates it twice. *)
Lemma ApplyChanges_repeats_target :
  unique emptyZone
  ∧ ∃ w', ApplyChanges (mkChanges [fooTwice] [] [] []) emptyZone
          = Some (None, w')
      ∧ db w' !! "example.com"
        = Some [mkRecord "0" "foo" "A" "1.1.1.1" 60 0;
                mkRecord "1" "foo" "A" "1.1.1.1" 60 0]
      ∧ ¬ unique w'.
Proof.
  split.
  { intros zone recs Hrecs. unfold emptyZone in Hrecs. simpl in Hrecs.
    apply lookup_singleton_Some in Hrecs as [_ <-]. constructor. }
  eexists. split; [vm_compute; reflexivity|].
  split; [vm_compute; reflexivity|].
  intros Hu. specialize (Hu "example.com" _ ltac:(vm_compute; reflexivity)).
  apply (bool_decide_pack _) in Hu. vm_compute in Hu. exact Hu.
Qed.

(** X28. Where the probe is enough: on the mock, a pass without updates
    whose endpoints to create ask for pairwise different (zone, name,
    type, content) keeps the live records unique: it ends, and no zone
    then has two live records with the same name, type and content. *)
Theorem ApplyChanges_unique (w : MockClientWrapper) (changes : Changes) :
  unique w →
  UpdateOld changes = [] →
  NoDup (flat_map (requested (map_to_list (db w)).*1) (Create changes)) →
  ∃ r w', ApplyChanges changes w = Some (r, w') ∧ unique w'.
Proof.
  intros Hu Hupd Hnd. unfold ApplyChanges.
  destruct (negb (HasChanges changes)); [by eexists _, _|].
  simpl. unfold phases, updatePhase. rewrite Hupd. simpl.
  set (zones := (map_to_list (db w)).*1) in *.
  unfold mbind, M_bind, resetCache. simpl.
  destruct (deletePhase_mock zones (Delete changes) (mkPass w [] ∅) Hu)
    as (p1 & -> & Hu1).
  destruct (createPhase_mock zones (Create changes) []
              (mkPass (client p1) (errs p1) ∅)) as (p2 & -> & Hu2).
  { split; [done|]. intros zone S HS. simpl in HS.
    by rewrite lookup_empty in HS. }
  { done. }
  simpl. by eexists _, _.
Qed.

(** ** The fallback of an update, on the mock *)

Lemma Itoa_nonempty n : Itoa n ≠ "".
Proof. unfold Itoa. by destruct (Nat.to_uint n). Qed.

Lemma updateFallback_targets zone name ttl ty existing targets l
    (p : Pass MockClientWrapper) :
  db (client p) !! zone = Some l →
  ∃ p' l',
    forEach targets (λ target,
      if bool_decide (findExactRecord existing target ≠ "") then mret ()
      else createOrExists (mkRequest zone name ty target ttl 0)) p
    = Some ((), p')
    ∧ errs p' = errs p
    ∧ db (client p') !! zone = Some l'
    ∧ (∀ r, r ∈ liveRecords l → r ∈ liveRecords l')
    ∧ ∀ target, target ∈ targets → findExactRecord existing target = "" →
        ∃ r, r ∈ liveRecords l'
             ∧ Type_ r = ty ∧ Name r = name ∧ Content r = target.
Proof.
  revert l p. induction targets as [|t targets IH]; intros l p Hl; simpl.
  { exists p, l. repeat split; try done. intros t Ht. by apply elem_of_nil in Ht. }
  unfold mbind, M_bind. case_bool_decide as Hfound.
  - simpl. destruct (IH l p Hl) as (p' & l' & Hrun & Herrs & Hl' & Hsub & Hall).
    exists p', l'. repeat split; try done.
    intros t' Ht' Hnone. apply elem_of_cons in Ht' as [->|Ht']; [done|].
    by apply Hall.
  - unfold createOrExists, mbind, M_bind, call. simpl.
    unfold Mock.createRecord. simpl. rewrite Hl. simpl.
    set (new := mkRecord (Itoa (length l)) name ty t ttl 0).
    destruct (IH (l ++ [new])
                (mkPass (mkMock (<[zone := l ++ [new]]> (db (client p)))
                           (<[Itoa (length l) := zone]> (idToZone (client p))))
                        (errs p) (recordsCache p)))
      as (p' & l' & Hrun & Herrs & Hl' & Hsub & Hall).
    { simpl. by rewrite lookup_insert_eq. }
    assert (∀ r, r ∈ liveRecords (l ++ [new]) → r ∈ liveRecords l') as Hsub'
      by done.
    exists p', l'. split; [done|]. split; [done|]. split; [done|]. split.
    + intros r Hr. apply Hsub. rewrite liveRecords_snoc. apply elem_of_app.
      by left.
    + intros t' Ht' Hnone. apply elem_of_cons in Ht' as [->|Ht'];
        [|by apply Hall].
      exists new. split; [|done]. apply Hsub.
      rewrite liveRecords_snoc, decide_True by apply Itoa_nonempty.
      apply elem_of_app. right. by left.
Qed.

(** X24. On the mock, over a snapshot that still holds - its records all
    carry an identifier and are all still live in the zone - the fallback
    ends without an error, and afterwards every target of the new
    endpoint has a live record in the zone: one of the snapshot, or the
    one created. *)
Lemma updateFallback_converges zone S l newEp (p : Pass MockClientWrapper) :
  db (client p) !! zone = Some l →
  identified S → (∀ r, r ∈ S → r ∈ liveRecords l) →
  ∃ p' l',
    updateFallback zone (extractRecordName (DNSName newEp) zone) S newEp p
    = Some ((), p')
    ∧ errs p' = errs p
    ∧ db (client p') !! zone = Some l'
    ∧ ∀ target, target ∈ Targets newEp →
        ∃ r, r ∈ liveRecords l' ∧ matchesTarget zone newEp target r.
Proof.
  intros Hl Hid HS. unfold updateFallback.
  rewrite findRecordsByNameAndType_filter.
  set (existing := filter _ S).
  destruct (updateFallback_targets zone
              (extractRecordName (DNSName newEp) zone) (RecordTTL newEp)
              (RecordType newEp) existing (Targets newEp) l p Hl)
    as (p' & l' & Hrun & Herrs & Hl' & Hsub & Hall).
  exists p', l'. split; [done|]. split; [done|]. split; [done|].
  intros target Ht.
  destruct (decide (findExactRecord existing target = "")) as [Hnone|Hsome].
  - destruct (Hall target Ht Hnone) as (r & Hr & ? & ? & ?).
    exists r. by repeat split.
  - apply findExactRecord_found in Hsome; [|by apply identified_filter].
    apply exact_in_existing in Hsome as (r & Hr & Hm).
    exists r. split; [|done]. by apply Hsub, HS.
Qed.

(** ** The theorems at concrete inputs *)

Lemma getZone_spec_witness :
  ∃ Z, getZone testZones testSub = (Z, None)
       ∧ longestFirst (dotMatch (DNSName testSub)) testZones Z.
Proof.
  apply (getZone_spec testZones testSub).
  - apply (bool_decide_unpack _). vm_compute. exact I.
  - exists "subdomain.bar.org". split.
    + apply (bool_decide_unpack _). vm_compute. exact I.
    + right. exists "foo". reflexivity.
Defined.

Lemma createPhase_decision_witness :
  ∃ p',
    forEach (Create createOtherThenBoth) (createEndpoint ["example.com"])
            (mkPass (oneAddress, []) [] ∅) = Some ((), p')
    ∧ phaseRun (createdEndpoint ["example.com"]) (Create createOtherThenBoth)
               (mkPass (oneAddress, []) [] ∅) p'
    ∧ journal p'
      = [EvGetRecords "example.com" (Ok [mkRecord "0" "foo" "A" "1.1.1.1" 60 0]);
         EvUpdate "0" (mkRequest "example.com" "foo" "A" "2.2.2.2" 60 0) None;
         EvCreate (mkRequest "example.com" "foo" "A" "2.2.2.2" 60 0) None].
Proof.
  destruct (createPhase_decision (St := MockClientWrapper) ["example.com"]
              createOtherThenBoth (mkPass (oneAddress, []) [] ∅))
    as ((p' & Hrun & Hchain) & _).
  exists p'. split; [exact Hrun|]. split; [exact Hchain|].
  vm_compute in Hrun. injection Hrun as <-. vm_compute. reflexivity.
Defined.

Lemma updatePaired_steps_witness :
  ∃ evs p',
    issues (updatePaired "example.com" "foo" ["0"] fooFirst fooBoth)
           (mkPass (bothAddresses, []) [] ∅) evs p'
    ∧ Forall2 (pairedStep "example.com" "foo" ["0"] fooFirst fooBoth)
              [0; 1] evs.
Proof.
  apply (updatePaired_steps (St := MockClientWrapper)
           "example.com" "foo" firstAddress ["0"] fooFirst fooBoth).
  vm_compute. reflexivity.
Defined.


Lemma ApplyChanges_unique_witness :
  ∃ r w', ApplyChanges (mkChanges [fooThird] [] [] []) bothAddresses
          = Some (r, w') ∧ unique w'.
Proof.
  apply (ApplyChanges_unique bothAddresses (mkChanges [fooThird] [] [] [])).
  - exact unique_bothAddresses.
  - reflexivity.
  - apply (bool_decide_unpack _). vm_compute. exact I.
Defined.

Lemma Records_observed_witness :
  ∃ fetched, (Records (bothAddresses, [])).1 = Ok (observedAll fetched).
Proof.
  destruct (Records (bothAddresses, [])) as [[eps|err] cj'] eqn:E.
  - destruct (Records_observed (St := MockClientWrapper) _ _ _ E)
      as (zones & fetched & r & _ & _ & -> & _).
    by exists fetched.
  - vm_compute in E. discriminate E.
Defined.

Lemma updatePaired_in_bounds_witness :
  is_Some (updatePaired "example.com" "foo" ["0"] fooFirst fooBoth
             (mkPass bothAddresses [] ∅)).
Proof.
  apply (updatePaired_in_bounds "example.com" "foo" firstAddress ["0"]
           fooFirst fooBoth).
  vm_compute. reflexivity.
Defined.

(** ** The repository's tests of [ApplyChanges], on the model *)

(** [testCreateIsIdempotent]: the second of two equal creates changes
    nothing. *)
Example create_twice :
  ∃ w1, ApplyChanges (mkChanges [fooFirst] [] [] []) emptyZone = Some (None, w1)
    ∧ db w1 !! "example.com" = Some firstAddress
    ∧ ApplyChanges (mkChanges [fooFirst] [] [] []) w1 = Some (None, w1).
Proof.
  eexists. split; [vm_compute; reflexivity|].
  split; vm_compute; reflexivity.
Qed.

(** [testCreateUpsertsWhenDifferentContent]: a create with another
    address for the one record of the name updates that record. *)
Example create_other :
  ∃ w1 w2,
    ApplyChanges (mkChanges [fooFirst] [] [] []) emptyZone = Some (None, w1)
    ∧ ApplyChanges (mkChanges [fooOther] [] [] []) w1 = Some (None, w2)
    ∧ db w2 !! "example.com" = Some [mkRecord "0" "foo" "A" "2.2.2.2" 60 0].
Proof.
  eexists _, _. split; [vm_compute; reflexivity|].
  split; vm_compute; reflexivity.
Qed.

(** [testUpdateFallsBackWhenOldRecordMissing]: an update whose old record
    is not there creates the new one, without an error. *)
Example update_missing :
  ∃ w1,
    ApplyChanges (mkChanges [] [fooFirst] [fooOther] []) emptyZone
    = Some (None, w1)
    ∧ db w1 !! "example.com" = Some [mkRecord "0" "foo" "A" "2.2.2.2" 60 0].
Proof. eexists. split; vm_compute; reflexivity. Qed.

(** ** The repository's tests of the name resolver and the matcher, on the
    model *)

(** [testEndpointZoneName] *)
Example getZone_tests :
  getZone testZones (mkEndpoint "foo.bar.org" ["5.5.5.5"] "A" 0)
    = ("bar.org", None)
  ∧ (getZone testZones (mkEndpoint "foo.foo.org" ["5.5.5.5"] "A" 0)).1 = ""
  ∧ getZone testZones (mkEndpoint "baz.org" ["5.5.5.5"] "A" 0)
    = ("baz.org", None)
  ∧ getZone testZones testSub = ("subdomain.bar.org", None)
  ∧ getZone testZones (mkEndpoint "foo.otherdomain.bar.org" ["1.1.1.1"] "A" 0)
    = ("bar.org", None).
Proof. repeat split; vm_compute; reflexivity. Qed.

(** [testGetZoneDotBoundary] expects an error for the name
    ["_edns.a-beersandbusiness.com"], which no zone matches behind a dot;
    the hyphen pass of [getZone], which the test predates, resolves it. *)
Example getZone_hyphen :
  getZone boundaryZones (mkEndpoint "_edns.a-beersandbusiness.com" [] "TXT" 0)
  = ("beersandbusiness.com", None).
Proof. vm_compute. reflexivity. Qed.

(** [testExtractRecordName] *)
Example extractRecordName_tests :
  extractRecordName "foo.example.com" "example.com" = "foo"
  ∧ extractRecordName "example.com" "example.com" = ""
  ∧ extractRecordName "_edns.git.antimatter-studios.com" "antimatter-studios.com"
    = "_edns.git"
  ∧ extractRecordName "_edns.a-beersandbusiness.com.beersandbusiness.com"
      "beersandbusiness.com" = "_edns.a-beersandbusiness"
  ∧ extractRecordName "foo.bar.org" "bar.org" = "foo"
  ∧ extractRecordName "foo.otherdomain.bar.org" "bar.org" = "foo.otherdomain".
Proof. repeat split; vm_compute; reflexivity. Qed.

(** [testGetRecIDs] *)
Example getRecIDs_tests :
  getRecIDs "baz.org" testRecords (mkEndpoint "foo.baz.org" ["5.5.5.5"] "A" 0)
    = (["11"], None)
  ∧ getRecIDs "baz.org" testRecords testApex = (["12"; "13"], None).
Proof. repeat split; vm_compute; reflexivity. Qed.

(** * Further properties of the code *)

(** ** [getZone], whatever the zone list *)

(** One pass started without a match: it ends without one, and then only
    empty zone names satisfy [m], or with a zone of the list that
    satisfies [m], is not empty and is as long as any that does. *)
Lemma zonePass_result (m : string → bool) (zones : list string) (e0 : error) :
  (zonePass m zones ("", Some e0) = ("", Some e0)
   ∧ ∀ z, z ∈ zones → m z = true → z = "")
  ∨ ∃ Z, zonePass m zones ("", Some e0) = (Z, None)
         ∧ Z ∈ zones ∧ Z ≠ "" ∧ m Z = true
         ∧ ∀ z, z ∈ zones → m z = true → String.length z ≤ String.length Z.
Proof.
  induction zones as [|x zones IH] using rev_ind.
  { left. split; [done|]. intros z Hz. by apply elem_of_nil in Hz. }
  rewrite zonePass_snoc.
  destruct IH as [[-> Hnone]|(Z & -> & HZ & Hne & HmZ & Hmax)].
  - destruct (m x) eqn:Hmx; simpl.
    + case_bool_decide as Hlen.
      * right. exists x. split; [done|]. split; [set_solver|].
        split; [intros ->; simpl in Hlen; lia|]. split; [done|].
        intros z Hz Hmz. apply elem_of_app in Hz as [Hz|Hz].
        -- rewrite (Hnone z Hz Hmz). simpl. lia.
        -- by apply list_elem_of_singleton in Hz as ->.
      * left. split; [done|]. intros z Hz Hmz.
        apply elem_of_app in Hz as [Hz|Hz]; [by apply Hnone|].
        apply list_elem_of_singleton in Hz as ->.
        destruct x; [done|]. simpl in Hlen. lia.
    + left. split; [done|]. intros z Hz Hmz.
      apply elem_of_app in Hz as [Hz|Hz]; [by apply Hnone|].
      apply list_elem_of_singleton in Hz as ->. congruence.
  - right. destruct (m x) eqn:Hmx; simpl.
    + case_bool_decide as Hlen.
      * exists x. split; [done|]. split; [set_solver|].
        split; [intros ->; simpl in Hlen; lia|]. split; [done|].
        intros z Hz Hmz. apply elem_of_app in Hz as [Hz|Hz].
        -- specialize (Hmax z Hz Hmz). lia.
        -- by apply list_elem_of_singleton in Hz as ->.
      * exists Z. split; [done|]. split; [set_solver|]. split; [done|].
        split; [done|]. intros z Hz Hmz. apply elem_of_app in Hz as [Hz|Hz].
        -- by apply Hmax.
        -- apply list_elem_of_singleton in Hz as ->. lia.
    + exists Z. split; [done|]. split; [set_solver|]. split; [done|].
      split; [done|]. intros z Hz Hmz. apply elem_of_app in Hz as [Hz|Hz].
      * by apply Hmax.
      * apply list_elem_of_singleton in Hz as ->. congruence.
Qed.

(** X1. [getZone] either fails, with the empty name and the error that
    carries the endpoint, or returns without an error a zone of the list
    that is not empty and that the name matches behind a dot or behind a
    hyphen. It never returns a zone that is not in the list, and never a
    zone together with an error. *)
Theorem getZone_sound (zones : list string) (endpoint : Endpoint) :
  getZone zones endpoint = ("", Some (ErrNoMatchingZone endpoint))
  ∨ ∃ Z, getZone zones endpoint = (Z, None)
         ∧ Z ∈ zones ∧ Z ≠ ""
         ∧ (dotMatch (DNSName endpoint) Z ∨ hyphenMatch (DNSName endpoint) Z).
Proof.
  unfold getZone.
  destruct (zonePass_result (dotBoundary (DNSName endpoint)) zones
              (ErrNoMatchingZone endpoint))
    as [[-> _]|(Z & -> & HZ & Hne & Hm & _)].
  - rewrite bool_decide_true by done.
    destruct (zonePass_result (hyphenBoundary (DNSName endpoint)) zones
                (ErrNoMatchingZone endpoint))
      as [[-> _]|(Z & -> & HZ & Hne & Hm & _)]; [by left|].
    right. exists Z. split; [done|]. split; [done|]. split; [done|].
    right. by apply hyphenBoundary_hyphenMatch.
  - rewrite bool_decide_false by done. right. exists Z.
    split; [done|]. split; [done|]. split; [done|].
    left. by apply dotBoundary_dotMatch.
Qed.

(** Two suffixes of one string that have the same length are equal. *)
Lemma suffix_same_length p1 s1 p2 s2 :
  p1 +:+ s1 = p2 +:+ s2 → String.length s1 = String.length s2 → s1 = s2.
Proof.
  intros Heq Hlen.
  assert (String.length p1 = String.length p2) as Hp.
  { apply (f_equal String.length) in Heq. rewrite !app_length_str in Heq. lia. }
  revert p2 Heq Hp. induction p1 as [|a p1 IH]; intros [|b p2] Heq Hp;
    simpl in *; try done.
  unfold String.app in *. simpl in Heq. injection Heq as _ Heq. eapply IH; eauto.
Qed.

Lemma dotMatch_same_length d z z' :
  dotMatch d z → dotMatch d z' → String.length z = String.length z' → z = z'.
Proof.
  intros [->|[p Hp]] [Hz'|[p' Hp']] Hlen.
  - done.
  - subst z. rewrite !app_length_str in Hlen. simpl in Hlen. lia.
  - subst d. subst z'. rewrite !app_length_str in Hlen. simpl in Hlen. lia.
  - rewrite Hp in Hp'.
    assert ("." +:+ z = "." +:+ z') as Heq.
    { eapply suffix_same_length; [exact Hp'|]. rewrite !app_length_str. lia. }
    by injection Heq.
Qed.

Lemma hyphenMatch_same_length d z z' :
  hyphenMatch d z → hyphenMatch d z' → String.length z = String.length z' →
  z = z'.
Proof.
  intros [p Hp] [p' Hp'] Hlen. rewrite Hp in Hp'.
  assert ("-" +:+ z = "-" +:+ z') as Heq.
  { eapply suffix_same_length; [exact Hp'|]. rewrite !app_length_str. lia. }
  by injection Heq.
Qed.

(** A pass does not depend on the order of the zones when two zones of
    the same length that satisfy [m] are the same zone. *)
Lemma zonePass_Permutation (m : string → bool) zones zones' e0 :
  (∀ z z', m z = true → m z' = true →
           String.length z = String.length z' → z = z') →
  zones ≡ₚ zones' →
  zonePass m zones ("", Some e0) = zonePass m zones' ("", Some e0).
Proof.
  intros Huniq Hperm.
  destruct (zonePass_result m zones e0)
    as [[-> Hnone]|(Z & -> & HZ & Hne & Hm & Hmax)];
    destruct (zonePass_result m zones' e0)
      as [[-> Hnone']|(Z' & -> & HZ' & Hne' & Hm' & Hmax')]; try done.
  - rewrite <- Hperm in HZ'. by specialize (Hnone Z' HZ' Hm').
  - rewrite Hperm in HZ. by specialize (Hnone' Z HZ Hm).
  - f_equal. apply Huniq; [done|done|].
    rewrite <- Hperm in HZ'. rewrite Hperm in HZ.
    specialize (Hmax Z' HZ' Hm'). specialize (Hmax' Z HZ Hm). lia.
Qed.

(** X2. The zone [getZone] resolves a name to does not depend on the order in
    which the registrar lists its zones. *)
Theorem getZone_Permutation zones zones' endpoint :
  zones ≡ₚ zones' → getZone zones endpoint = getZone zones' endpoint.
Proof.
  intros Hperm. unfold getZone.
  assert (∀ z z', dotBoundary (DNSName endpoint) z = true →
                  dotBoundary (DNSName endpoint) z' = true →
                  String.length z = String.length z' → z = z') as Hdot.
  { intros z z' H1 H2. apply dotBoundary_dotMatch in H1, H2.
    by apply (dotMatch_same_length (DNSName endpoint)). }
  assert (∀ z z', hyphenBoundary (DNSName endpoint) z = true →
                  hyphenBoundary (DNSName endpoint) z' = true →
                  String.length z = String.length z' → z = z') as Hhyphen.
  { intros z z' H1 H2. apply hyphenBoundary_hyphenMatch in H1, H2.
    by apply (hyphenMatch_same_length (DNSName endpoint)). }
  rewrite (zonePass_Permutation _ zones zones' _ Hdot Hperm).
  destruct (zonePass_result (dotBoundary (DNSName endpoint)) zones'
              (ErrNoMatchingZone endpoint)) as [[-> _]|(Z & -> & _ & Hne & _)].
  - rewrite bool_decide_true by done. by apply zonePass_Permutation.
  - by rewrite bool_decide_false by done.
Qed.

Lemma getZone_Permutation_witness :
  getZone ["bar.org"; "subdomain.bar.org"] testSub
  = getZone ["subdomain.bar.org"; "bar.org"] testSub.
Proof.
  apply (getZone_Permutation ["bar.org"; "subdomain.bar.org"]
           ["subdomain.bar.org"; "bar.org"] testSub).
  apply Permutation_swap.
Defined.

(** ** [extractRecordName] and the names [Records] reports *)

Lemma extractRecordName_stripTrailing dnsName zone :
  dnsName ≠ zone →
  extractRecordName dnsName zone
  = Join (reverse (stripTrailing
                     (reverse (Split (TrimSuffix dnsName ("." +:+ zone)) "."%char))
                     (reverse (Split zone "."%char)))) ".".
Proof.
  intros Hne. unfold extractRecordName. rewrite bool_decide_false by done.
  set (name := TrimSuffix dnsName ("." +:+ zone)).
  set (N := Split name "."%char). set (Z := Split zone "."%char).
  pose proof (stripLoop_spec N Z (length Z) 0 ltac:(lia) ltac:(lia)) as Hs.
  rewrite !drop_0 in Hs. rewrite <- Hs, reverse_involutive.
  case_bool_decide as H0; [done|].
  replace (stripLoop (length Z) N Z 0) with 0 by lia.
  rewrite Nat.sub_0_r, firstn_all. unfold N. by rewrite (Join_Split name ".").
Qed.

Lemma TrimSuffix_app s suffix : TrimSuffix (s +:+ suffix) suffix = s.
Proof.
  unfold TrimSuffix.
  rewrite (proj2 (HasSuffix_endsWith (s +:+ suffix) suffix)) by (by exists s).
  rewrite app_length_str.
  replace (String.length s + String.length suffix - String.length suffix)
    with (String.length s) by lia.
  apply prefix_of_app.
Qed.

(** X3. The name [Records] reports for a record, the record's name, a dot and
    the zone, resolves back to the record's name when that name is one
    label (the apex, with the empty name, included) or its last label is
    not the last label of the zone. *)
Theorem extractRecordName_observed name zone :
  length (Split name "."%char) = 1
  ∨ last (Split name "."%char) ≠ last (Split zone "."%char) →
  extractRecordName (name +:+ "." +:+ zone) zone = name.
Proof.
  intros Hlabels.
  assert (name +:+ "." +:+ zone ≠ zone) as Hne.
  { intros Heq. apply (f_equal String.length) in Heq.
    rewrite !app_length_str in Heq. simpl in Heq. lia. }
  rewrite extractRecordName_stripTrailing by done.
  rewrite TrimSuffix_app.
  set (N := Split name "."%char) in *. set (Z := Split zone "."%char) in *.
  assert (stripTrailing (reverse N) (reverse Z) = reverse N) as ->.
  { destruct Hlabels as [Hone|Hlast].
    - destruct N as [|x [|? ?]]; simpl in Hone; [lia| |lia].
      by destruct (reverse Z).
    - rewrite <- !head_reverse in Hlast.
      destruct (reverse N) as [|x [|y l]]; [done|by destruct (reverse Z)|].
      destruct (reverse Z) as [|z l']; [done|]. simpl in *.
      rewrite bool_decide_false; [done|]. congruence. }
  rewrite reverse_involutive. apply (Join_Split name ".").
Qed.

Lemma extractRecordName_observed_witness :
  extractRecordName ("" +:+ "." +:+ "example.com") "example.com" = "".
Proof.
  apply (extractRecordName_observed "" "example.com"). left. reflexivity.
Defined.

Lemma string_app_assoc (s t u : string) : (s +:+ t) +:+ u = s +:+ t +:+ u.
Proof.
  induction s as [|a s IH]; [done|].
  unfold String.app in *. simpl. by rewrite IH.
Qed.

Lemma string_app_nil_r (s : string) : s +:+ "" = s.
Proof.
  induction s as [|a s IH]; [done|]. unfold String.app in *. simpl.
  by rewrite IH.
Qed.

Lemma Join_take_prefix l k sep :
  ∃ rest, Join l sep = Join (take k l) sep +:+ rest.
Proof.
  revert k. induction l as [|e l IH]; intros k.
  { exists "". by destruct k. }
  destruct k as [|k]; [by eexists|].
  destruct l as [|e' l]; [exists ""; destruct k; simpl;
                          by rewrite string_app_nil_r|].
  destruct (IH k) as [rest Hrest].
  destruct k as [|k].
  - simpl. by eexists.
  - change (Join (e :: e' :: l) sep) with (e +:+ sep +:+ Join (e' :: l) sep).
    change (take (S (S k)) (e :: e' :: l)) with (e :: e' :: take k l).
    change (Join (e :: e' :: take k l) sep)
      with (e +:+ sep +:+ Join (e' :: take k l) sep).
    change (e' :: take k l) with (take (S k) (e' :: l)).
    exists rest. rewrite Hrest. by rewrite !string_app_assoc.
Qed.

(** X4. The record name is cut off the front of the DNS name:
    [extractRecordName] never returns anything but a prefix of the name it
    is given. *)
Theorem extractRecordName_prefix dnsName zone :
  ∃ rest, dnsName = extractRecordName dnsName zone +:+ rest.
Proof.
  unfold extractRecordName. case_bool_decide; [by exists dnsName|].
  set (name := TrimSuffix dnsName ("." +:+ zone)).
  assert (∃ rest, dnsName = name +:+ rest) as [rest Hname].
  { destruct (TrimSuffix_spec dnsName ("." +:+ zone)) as [[_ Heq]|Heq].
    - exists "". unfold name. rewrite Heq. by rewrite string_app_nil_r.
    - by eexists. }
  case_bool_decide; [|by exists rest].
  destruct (Join_take_prefix (Split name "."%char)
              (length (Split name "."%char)
               - stripLoop (length (Split zone "."%char)) (Split name "."%char)
                   (Split zone "."%char) 0) ".") as [rest' Hrest].
  rewrite (Join_Split name ".") in Hrest.
  exists (rest' +:+ rest). rewrite <- string_app_assoc, <- Hrest. exact Hname.
Qed.

(** ** The matcher *)

Lemma flat_map_singletons {A B} (f : A → list B) (R : A → B → Prop)
    (ts : list A) :
  (∀ t, t ∈ ts → ∃ x, f t = [x] ∧ R t x) → Forall2 R ts (flat_map f ts).
Proof.
  induction ts as [|t ts IH]; intros Hall; simpl; [constructor|].
  destruct (Hall t ltac:(left)) as (x & -> & HR). simpl.
  constructor; [done|]. apply IH. intros; apply Hall; by right.
Qed.

(** X5. Every identifier [getRecIDs] returns is the identifier of a record of
    the snapshot that answers one of the targets. *)
Theorem getRecIDs_sound zone (records : list NameserverRecord) ep recIDs :
  getRecIDs zone records ep = (recIDs, None) →
  ∀ id, id ∈ recIDs →
    ∃ target r, target ∈ Targets ep ∧ r ∈ records ∧ ID r = id
                ∧ matchesTarget zone ep target r.
Proof.
  rewrite getRecIDs_collected. case_bool_decide; [|done]. intros [= <-] id Hid.
  unfold collectedIDs in Hid.
  apply list_elem_of_In, in_flat_map in Hid as (target & Ht & Hid).
  apply list_elem_of_In, list_elem_of_fmap in Hid as (r & -> & Hr).
  apply list_elem_of_filter in Hr as [Hm Hr].
  exists target, r. by rewrite list_elem_of_In.
Qed.

Lemma getRecIDs_sound_witness :
  Forall (λ id, ∃ target r, target ∈ Targets testApex ∧ r ∈ testRecords
                            ∧ ID r = id
                            ∧ matchesTarget "baz.org" testApex target r)
         ["12"; "13"].
Proof.
  apply Forall_forall.
  apply (getRecIDs_sound "baz.org" testRecords testApex ["12"; "13"]).
  vm_compute. reflexivity.
Defined.

(** X6. Over a snapshot in which no two records share name, type and
    content, the identifiers of a successful [getRecIDs] line up with the
    targets: the identifier at an index is the identifier of the record
    that answers the target at that index. *)
Theorem getRecIDs_aligned zone (records : list NameserverRecord) ep recIDs :
  NoDup (recordKey <$> records) →
  getRecIDs zone records ep = (recIDs, None) →
  Forall2 (λ target id, ∃ r, r ∈ records ∧ ID r = id
                             ∧ matchesTarget zone ep target r)
          (Targets ep) recIDs.
Proof.
  intros Hnd. rewrite getRecIDs_collected. case_bool_decide as Hlen; [|done].
  intros [= <-]. unfold collectedIDs in *.
  destruct (flat_map_length_units
              (λ target, ID <$> filter (matchesTarget zone ep target) records)
              (Targets ep)) as [_ Heq].
  { intros t _. rewrite length_fmap. by apply filter_key_unique. }
  apply flat_map_singletons. intros t Ht.
  pose proof (proj1 Heq Hlen t Ht) as Hone. rewrite length_fmap in Hone.
  destruct (filter (matchesTarget zone ep t) records) as [|r [|]] eqn:E;
    simpl in Hone; try done.
  assert (r ∈ filter (matchesTarget zone ep t) records) as Hr
    by (rewrite E; left).
  apply list_elem_of_filter in Hr as [Hm Hr]. exists (ID r). eauto.
Qed.

Lemma getRecIDs_aligned_witness :
  Forall2 (λ target id, ∃ r, r ∈ testRecords ∧ ID r = id
                             ∧ matchesTarget "baz.org" testApex target r)
          (Targets testApex) ["12"; "13"].
Proof.
  apply (getRecIDs_aligned "baz.org" testRecords testApex ["12"; "13"]).
  - apply (bool_decide_unpack (NoDup (recordKey <$> testRecords))).
    vm_compute. exact I.
  - vm_compute. reflexivity.
Defined.

(** X7. [findRecordsByNameAndType] returns, in the order of the snapshot,
    the records with the type and the resolved name, whatever their
    content, and no other. *)
Theorem findRecordsByNameAndType_spec zone (records : list NameserverRecord)
    dnsName recordType :
  findRecordsByNameAndType zone records dnsName recordType
    `sublist_of` records
  ∧ ∀ r, r ∈ findRecordsByNameAndType zone records dnsName recordType
         ↔ r ∈ records ∧ Type_ r = recordType
           ∧ Name r = extractRecordName dnsName zone.
Proof.
  rewrite findRecordsByNameAndType_filter. split; [apply sublist_filter|].
  intros r. rewrite list_elem_of_filter. unfold sameNameType. tauto.
Qed.

(** X8. [findExactRecord] answers with the first record that has the
    content, and with that record only: its result is the identifier of
    that record, also when a later record with the content carries
    another identifier, and the empty string when no record has the
    content - or when the first that has it carries no identifier. *)
Theorem findExactRecord_first (records : list NameserverRecord) content :
  findExactRecord records content
  = from_option ID "" (head (filter (λ r, Content r = content) records)).
Proof.
  induction records as [|r records IH]; simpl; [done|].
  rewrite filter_cons. case_bool_decide as Hc.
  - by rewrite decide_True.
  - by rewrite decide_False.
Qed.

(** ** The calls and the errors of a pass *)

Section Accounting.
Context {St : Type} `{!AbstractClientWrapper St}.
Implicit Types p : Pass (St * list Event).

Lemma accounts_ret {A} (a : A) : accounts (mret a : M (St * list Event) A).
Proof.
  intros p a' p' [= <- <-]. exists [], []. by rewrite !app_nil_r.
Qed.

Lemma accounts_bind {A B} (m : M (St * list Event) A)
    (f : A → M (St * list Event) B) :
  accounts m → (∀ a, accounts (f a)) → accounts (m ≫= f).
Proof.
  intros Hm Hf p b p'. unfold mbind, M_bind.
  destruct (m p) as [[a p1]|] eqn:E; [|done]. intros Hrun.
  destruct (Hm p a p1 E) as (evs1 & extra1 & Hj1 & He1 & Hc1 & Hs1).
  destruct (Hf a p1 b p' Hrun) as (evs2 & extra2 & Hj2 & He2 & Hc2 & Hs2).
  exists (evs1 ++ evs2), (extra1 ++ extra2).
  rewrite Hj2, Hj1, He2, He1, !app_assoc. split; [done|]. split; [done|].
  split; [by apply Forall_app|]. rewrite bind_app. by apply sublist_app.
Qed.

Lemma accounts_appendErr e : accounts (appendErr e : M (St * list Event) unit).
Proof.
  intros p a p' [= <- <-]. exists [], [e]. simpl. rewrite app_nil_r.
  split; [done|]. split; [done|]. split; [done|]. apply sublist_nil_l.
Qed.

Lemma accounts_record err : accounts (record err : M (St * list Event) unit).
Proof. destruct err; [apply accounts_appendErr|apply accounts_ret]. Qed.

Lemma accounts_index {A} (s : list A) i :
  accounts (index s i : M (St * list Event) A).
Proof.
  intros p a p'. unfold index. destruct (s !! i); [|done].
  intros [= <- <-]. exists [], []. by rewrite !app_nil_r.
Qed.

Lemma accounts_forEach {A} (s : list A) (body : A → M (St * list Event) unit) :
  (∀ a, accounts (body a)) → accounts (forEach s body).
Proof.
  intros Hbody. induction s as [|a s IH]; simpl; [apply accounts_ret|].
  apply accounts_bind; [apply Hbody|]. intros _. exact IH.
Qed.

Lemma accounts_cachedRecords zone :
  accounts (cachedRecords zone : M (St * list Event) _).
Proof.
  intros p a p'. unfold cachedRecords.
  destruct (recordsCache p !! zone).
  { intros [= <- <-]. exists [], []. by rewrite !app_nil_r. }
  simpl. unfold journaled, journal.
  destruct (getRecords zone (client p).1) as [[recs|e] c]; simpl;
    intros [= <- <-]; simpl.
  - exists [EvGetRecords zone (Ok recs)], []. rewrite app_nil_r.
    split; [done|]. split; [done|]. split; [by repeat constructor|done].
  - exists [EvGetRecords zone (Err e)], [e].
    split; [done|]. split; [done|]. split; [by repeat constructor|done].
Qed.

Lemma accounts_createOrExists rec :
  accounts (createOrExists rec : M (St * list Event) unit).
Proof.
  intros p a p'. unfold createOrExists, mbind, M_bind, call. simpl.
  unfold journaled, journal.
  destruct (createRecord rec (client p).1) as [[e|] c]; simpl.
  - destruct (isObjectExistsError e) eqn:E; simpl; intros [= <- <-]; simpl.
    + exists [EvCreate rec (Some e)], []. rewrite app_nil_r. simpl. rewrite E.
      split; [done|]. split; [done|]. split; [by repeat constructor|done].
    + exists [EvCreate rec (Some e)], [e]. simpl. rewrite E.
      split; [done|]. split; [done|]. split; [by repeat constructor|done].
  - intros [= <- <-]. simpl. exists [EvCreate rec None], [].
    rewrite app_nil_r.
    split; [done|]. split; [done|]. split; [by repeat constructor|done].
Qed.

Lemma accounts_update id rec :
  accounts (err ← call (updateRecord id rec); record err
            : M (St * list Event) unit).
Proof.
  intros p a p'. unfold mbind, M_bind, call, record, appendErr. simpl.
  unfold journaled, journal.
  destruct (updateRecord id rec (client p).1) as [[e|] c]; simpl;
    intros [= <- <-]; simpl.
  - exists [EvUpdate id rec (Some e)], [e].
    split; [done|]. split; [done|]. split; [by repeat constructor|done].
  - exists [EvUpdate id rec None], []. rewrite app_nil_r.
    split; [done|]. split; [done|]. split; [by repeat constructor|done].
Qed.

Lemma accounts_deleteRecord id :
  accounts (err ← call (deleteRecord id); record err
            : M (St * list Event) unit).
Proof.
  intros p a p'. unfold mbind, M_bind, call, record, appendErr. simpl.
  unfold journaled, journal.
  destruct (deleteRecord id (client p).1) as [[e|] c]; simpl;
    intros [= <- <-]; simpl.
  - exists [EvDelete id (Some e)], [e].
    split; [done|]. split; [done|]. split; [by repeat constructor|done].
  - exists [EvDelete id None], []. rewrite app_nil_r.
    split; [done|]. split; [done|]. split; [by repeat constructor|done].
Qed.

Lemma accounts_delete id (after : error → M (St * list Event) unit) :
  (∀ e, accounts (after e)) →
  accounts (err ← call (deleteRecord id);
            match err with
            | Some e => appendErr e;; after e
            | None => mret ()
            end : M (St * list Event) unit).
Proof.
  intros Hafter p a p'. unfold mbind at 1, M_bind at 1, call. simpl.
  unfold journaled, journal.
  destruct (deleteRecord id (client p).1) as [[e|] c]; simpl.
  - intros Hrun.
    destruct (accounts_bind (appendErr e) (λ _, after e)
                (accounts_appendErr e) (λ _, Hafter e) _ _ _ Hrun)
      as (evs & extra & Hj & He & Hc & Hs).
    unfold journal in *. simpl in *.
    assert (∃ rest, extra = e :: rest) as [rest ->].
    { unfold mbind, M_bind, appendErr in Hrun. simpl in Hrun.
      destruct (Hafter e _ _ _ Hrun) as (? & extra' & _ & He' & _).
      simpl in He'. rewrite He' in He. rewrite <- app_assoc in He.
      apply app_inv_head in He. by exists extra'. }
    exists (EvDelete id (Some e) :: evs), (e :: rest).
    split; [by rewrite Hj, <- app_assoc|]. split; [done|].
    split; [by constructor|]. simpl.
    unfold mbind, M_bind, appendErr in Hrun. simpl in Hrun.
    destruct (Hafter e _ _ _ Hrun) as (evs' & extra' & Hj' & He' & _ & Hs').
    unfold journal in *. simpl in *.
    rewrite Hj' in Hj. apply app_inv_head in Hj. subst evs'.
    rewrite He', <- app_assoc in He. apply app_inv_head in He.
    injection He as <-. by apply sublist_skip.
  - intros [= <- <-]. simpl. exists [EvDelete id None], [].
    rewrite app_nil_r.
    split; [done|]. split; [done|]. split; [by repeat constructor|done].
Qed.

Lemma accounts_resetCache : accounts (resetCache : M (St * list Event) unit).
Proof.
  intros p a p' [= <- <-]. exists [], []. by rewrite !app_nil_r.
Qed.

Lemma accounts_deleteEndpoint zones ep :
  accounts (deleteEndpoint zones ep : M (St * list Event) unit).
Proof.
  unfold deleteEndpoint. destruct (getZone zones ep) as [zone [err|]];
    [apply accounts_appendErr|].
  apply accounts_bind; [apply accounts_cachedRecords|].
  intros [recs|]; [|apply accounts_ret].
  destruct (getRecIDs zone recs ep) as [recIDs err].
  apply accounts_bind; [apply accounts_record|]. intros _.
  apply accounts_forEach. intros id. apply accounts_deleteRecord.
Qed.

Lemma accounts_createEndpoint zones ep :
  accounts (createEndpoint zones ep : M (St * list Event) unit).
Proof.
  unfold createEndpoint. destruct (getZone zones ep) as [zone [err|]];
    [apply accounts_appendErr|].
  apply accounts_bind; [apply accounts_cachedRecords|].
  intros [recs|]; [|apply accounts_ret].
  apply accounts_forEach. intros target. unfold createTarget.
  case_bool_decide; [apply accounts_ret|].
  destruct (_ && _); [|apply accounts_createOrExists].
  apply accounts_bind; [apply accounts_index|]. intros r0.
  apply accounts_update.
Qed.

Lemma accounts_updateEndpoint zones oldEp newEp :
  accounts (updateEndpoint zones oldEp newEp : M (St * list Event) unit).
Proof.
  unfold updateEndpoint. destruct (getZone zones oldEp) as [zone [err|]];
    [apply accounts_appendErr|].
  apply accounts_bind; [apply accounts_cachedRecords|].
  intros [recs|]; [|apply accounts_ret].
  destruct (getRecIDs zone recs oldEp) as [recIDs [err|]].
  - unfold updateFallback. apply accounts_forEach. intros target.
    case_bool_decide; [apply accounts_ret|apply accounts_createOrExists].
  - unfold updatePaired. apply accounts_forEach. intros j. unfold updateIndex.
    case_bool_decide.
    + apply accounts_bind; [apply accounts_index|]. intros id.
      apply accounts_delete. intros e.
      apply accounts_bind; [apply accounts_index|]. intros _.
      apply accounts_ret.
    + case_bool_decide.
      * apply accounts_bind; [apply accounts_index|]. intros target.
        apply accounts_createOrExists.
      * apply accounts_bind; [apply accounts_index|]. intros target.
        apply accounts_bind; [apply accounts_index|]. intros id.
        apply accounts_update.
Qed.

Lemma accounts_phases zones changes :
  accounts (phases zones changes : M (St * list Event) unit).
Proof.
  unfold phases, updatePhase.
  repeat (apply accounts_bind; [|intros _]);
    try apply accounts_resetCache;
    try (apply accounts_forEach; intros ?).
  - apply accounts_deleteEndpoint.
  - apply accounts_createEndpoint.
  - destruct a as [i oldEp].
    apply accounts_bind; [apply accounts_index|]. intros newEp.
    apply accounts_updateEndpoint.
Qed.

(** X9. A pass that ends has either found nothing to apply and made no call;
    or failed to log in, made no other call and returns that error; or
    logged in, failed to list the zones, logged out and returns that
    error; or logged in, listed the zones, made only calls on records and
    logged out once, at the end. In the last case it returns no error
    only if no fetch and no write failed (but for creates refused with
    "object exists"), and otherwise the error that counts the errors,
    which are at least the failed calls. The result of the logout changes
    nothing. *)
Theorem ApplyChanges_session changes (cj cj' : St * list Event) r :
  ApplyChanges changes cj = Some (r, cj') → sessionOutcome changes cj cj' r.
Proof.
  unfold sessionOutcome, ApplyChanges. destruct (HasChanges changes); simpl;
    [|intros [= <- <-]; by left].
  unfold journaled at 1. destruct (login cj.1) as [[e|] c1]; simpl.
  { intros [= <- <-]. right. left. by exists e. }
  unfold journaled at 1. simpl.
  destruct (getZones c1) as [[zones|e] c2]; simpl.
  - destruct (phases zones changes _) as [[[] p]|] eqn:Hrun; [|done].
    destruct (accounts_phases zones changes _ _ _ Hrun)
      as (evs & extra & Hj & He & Hc & Hs).
    unfold journal in Hj. simpl in Hj, He.
    unfold journaled. destruct (logout (client p).1) as [rl c3]. simpl.
    intros [= <- <-]. right. right. right. exists zones, evs, rl.
    simpl. rewrite Hj, <- !app_assoc. simpl. split; [done|]. split; [done|].
    rewrite He. case_bool_decide as Hn.
    + right. exists (length extra). split; [done|]. split; [done|].
      by apply sublist_length.
    + left. split; [done|]. destruct extra; [|simpl in Hn; lia].
      by apply sublist_nil_r.
  - unfold journaled. simpl. destruct (logout c2) as [rl c3]. simpl.
    intros [= <- <-]. right. right. left. exists e, rl. simpl.
    by rewrite <- !app_assoc.
Qed.
End Accounting.

Lemma ApplyChanges_session_witness :
  ∃ r cj', ApplyChanges (mkChanges [fooFirst] [] [] []) (emptyZone, [])
           = Some (r, cj')
           ∧ sessionOutcome (mkChanges [fooFirst] [] [] []) (emptyZone, [])
               cj' r.
Proof.
  destruct (ApplyChanges (mkChanges [fooFirst] [] [] []) (emptyZone, []))
    as [[r cj']|] eqn:E.
  - exists r, cj'. split; [done|].
    exact (ApplyChanges_session (St := MockClientWrapper) _ _ _ _ E).
  - vm_compute in E. discriminate E.
Defined.

(** ** When a pass panics *)

Section Totality.
Context {St : Type} `{!AbstractClientWrapper St}.

Lemma total_ret {A} (a : A) : total (mret a : M St A).
Proof. intros p. by eexists. Qed.

Lemma total_bind {A B} (m : M St A) (f : A → M St B) :
  total m → (∀ a, total (f a)) → total (m ≫= f).
Proof.
  intros Hm Hf p. unfold mbind, M_bind.
  destruct (Hm p) as [[a p1] ->]. apply Hf.
Qed.

Lemma total_appendErr e : total (appendErr e : M St unit).
Proof. intros p. by eexists. Qed.

Lemma total_record err : total (record err : M St unit).
Proof. destruct err; [apply total_appendErr|apply total_ret]. Qed.

Lemma total_call {A} (op : St → A * St) : total (call op).
Proof. intros p. unfold call. destruct (op (client p)). by eexists. Qed.

Lemma total_index {A} (s : list A) i : i < length s → total (index s i : M St A).
Proof.
  intros Hi p. unfold index.
  destruct (lookup_lt_is_Some_2 s i Hi) as [a ->]. by eexists.
Qed.

Lemma total_forEach {A} (s : list A) (body : A → M St unit) :
  (∀ a, a ∈ s → total (body a)) → total (forEach s body).
Proof.
  intros Hbody p. apply forEach_total. intros a q Ha. by apply Hbody.
Qed.

Lemma total_cachedRecords zone : total (cachedRecords zone).
Proof.
  intros p. unfold cachedRecords. destruct (recordsCache p !! zone);
    [by eexists|].
  destruct (getRecords zone (client p)) as [[recs|e] c]; by eexists.
Qed.

Lemma total_createOrExists rec : total (createOrExists rec).
Proof.
  apply total_bind; [apply total_call|]. intros [e|]; [|apply total_ret].
  destruct (isObjectExistsError e); [apply total_ret|apply total_appendErr].
Qed.

Lemma total_deleteEndpoint zones ep : total (deleteEndpoint zones ep).
Proof.
  unfold deleteEndpoint. destruct (getZone zones ep) as [zone [err|]];
    [apply total_appendErr|].
  apply total_bind; [apply total_cachedRecords|].
  intros [recs|]; [|apply total_ret].
  destruct (getRecIDs zone recs ep) as [recIDs err].
  apply total_bind; [apply total_record|]. intros _.
  apply total_forEach. intros id _.
  apply total_bind; [apply total_call|]. intros err'. apply total_record.
Qed.

Lemma total_createEndpoint zones ep : total (createEndpoint zones ep).
Proof.
  unfold createEndpoint. destruct (getZone zones ep) as [zone [err|]];
    [apply total_appendErr|].
  apply total_bind; [apply total_cachedRecords|].
  intros [recs|]; [|apply total_ret].
  apply total_forEach. intros target _. unfold createTarget.
  case_bool_decide; [apply total_ret|].
  destruct (bool_decide (length _ = 1) && _) eqn:E;
    [|apply total_createOrExists].
  apply andb_true_iff in E as [E _]. apply bool_decide_eq_true in E.
  apply total_bind; [apply total_index; lia|]. intros r0.
  apply total_bind; [apply total_call|]. intros err. apply total_record.
Qed.

Lemma total_updateIndex zone name recIDs oldEp newEp j :
  length recIDs = length (Targets oldEp) →
  j < Nat.max (Nat.max (length (Targets oldEp)) (length (Targets newEp)))
              (length recIDs) →
  total (updateIndex zone name recIDs oldEp newEp j).
Proof.
  intros Hlen Hj. unfold updateIndex. case_bool_decide.
  - apply total_bind; [apply total_index; lia|]. intros id.
    apply total_bind; [apply total_call|]. intros [e|]; [|apply total_ret].
    apply total_bind; [apply total_appendErr|]. intros _.
    apply total_bind; [apply total_index; lia|]. intros _. apply total_ret.
  - case_bool_decide.
    + apply total_bind; [apply total_index; lia|]. intros target.
      apply total_createOrExists.
    + apply total_bind; [apply total_index; lia|]. intros target.
      apply total_bind; [apply total_index; lia|]. intros id.
      apply total_bind; [apply total_call|]. intros err. apply total_record.
Qed.

Lemma total_updateEndpoint zones oldEp newEp :
  total (updateEndpoint zones oldEp newEp).
Proof.
  unfold updateEndpoint. destruct (getZone zones oldEp) as [zone [err|]];
    [apply total_appendErr|].
  apply total_bind; [apply total_cachedRecords|].
  intros [recs|]; [|apply total_ret].
  destruct (getRecIDs zone recs oldEp) as [recIDs [err|]] eqn:E.
  - unfold updateFallback. apply total_forEach. intros target _.
    case_bool_decide; [apply total_ret|apply total_createOrExists].
  - apply getRecIDs_length in E. unfold updatePaired.
    apply total_forEach. intros j Hj. apply elem_of_seq in Hj.
    apply total_updateIndex; [done|lia].
Qed.

Lemma total_phase_delete zones eps :
  total (forEach eps (deleteEndpoint zones)).
Proof. apply total_forEach. intros; apply total_deleteEndpoint. Qed.

Lemma total_phase_create zones eps :
  total (forEach eps (createEndpoint zones)).
Proof. apply total_forEach. intros; apply total_createEndpoint. Qed.

(** X10. The only index of a pass that can be out of range is that of the new
    endpoint of an update: when [changes.UpdateNew] has as many entries as
    [changes.UpdateOld], [ApplyChanges] does not panic, whatever the
    client answers. *)
Theorem ApplyChanges_total changes (c : St) :
  length (UpdateOld changes) ≤ length (UpdateNew changes) →
  is_Some (ApplyChanges changes c).
Proof.
  intros Hlen. unfold ApplyChanges.
  destruct (negb (HasChanges changes)); [by eexists|].
  destruct (login c) as [[e|] c1]; [by eexists|].
  destruct (getZones c1) as [[zones|e] c2];
    [|destruct (logout c2); by eexists].
  assert (total (phases zones changes)) as Htotal.
  { unfold phases, updatePhase.
    repeat (apply total_bind; [|intros _]);
      try (intros p; by eexists);
      try apply total_phase_delete; try apply total_phase_create.
    apply total_forEach. intros [i oldEp] Hin.
    apply elem_of_lookup_imap in Hin as (i' & oldEp' & [= -> ->] & Hi).
    apply lookup_lt_Some in Hi.
    apply total_bind; [apply total_index; lia|]. intros newEp.
    apply total_updateEndpoint. }
  destruct (Htotal (mkPass c2 [] ∅)) as [[[] p] ->].
  destruct (logout (client p)). by eexists.
Qed.

Lemma forEach_panics {A} (l1 l2 : list A) x (body : A → M St unit) :
  (∀ a, a ∈ l1 → total (body a)) → (∀ p, body x p = None) →
  ∀ p, forEach (l1 ++ x :: l2) body p = None.
Proof.
  intros Htotal Hx. induction l1 as [|a l1 IH]; intros p; simpl.
  - unfold mbind, M_bind. by rewrite Hx.
  - unfold mbind, M_bind.
    destruct (Htotal a ltac:(left) p) as [[[] p1] ->].
    apply IH. intros; apply Htotal; by right.
Qed.

(** X11. When [changes.UpdateNew] has fewer entries than [changes.UpdateOld],
    a pass that logs in and lists the zones panics: [changes.UpdateNew[i]]
    is read before anything else is done for the [i]-th update. *)
Theorem ApplyChanges_panics changes (c c1 c2 : St) zones :
  login c = (None, c1) → getZones c1 = (Ok zones, c2) →
  length (UpdateNew changes) < length (UpdateOld changes) →
  ApplyChanges changes c = None.
Proof.
  intros Hlogin Hzones Hlen. unfold ApplyChanges.
  assert (HasChanges changes = true) as ->.
  { unfold HasChanges. rewrite bool_decide_false; [done|].
    intros (_ & _ & Hold & _). rewrite Hold in Hlen. simpl in Hlen. lia. }
  simpl. rewrite Hlogin, Hzones.
  assert (∀ p, updatePhase zones changes p = None) as Hupdate.
  { set (n := length (UpdateNew changes)).
    destruct (lookup_lt_is_Some_2 (UpdateOld changes) n Hlen) as [oldEp Hold].
    unfold updatePhase.
    rewrite <- (take_drop_middle (UpdateOld changes) n oldEp Hold).
    rewrite imap_app. simpl.
    apply forEach_panics.
    - intros [i ep] Hin.
      apply elem_of_lookup_imap in Hin as (i' & ep' & [= -> ->] & Hi).
      apply lookup_lt_Some in Hi. rewrite length_take in Hi.
      apply total_bind; [apply total_index; lia|]. intros newEp.
      apply total_updateEndpoint.
    - intros p. unfold mbind, M_bind, index.
      rewrite length_take, Nat.min_l by lia. rewrite Nat.add_0_r.
      by rewrite lookup_ge_None_2. }
  unfold phases, mbind, M_bind, resetCache. simpl.
  destruct (total_phase_delete zones (Delete changes) (mkPass c2 [] ∅))
    as [[[] p1] ->].
  destruct (total_phase_create zones (Create changes)
              (mkPass (client p1) (errs p1) ∅)) as [[[] p2] ->].
  by rewrite Hupdate.
Qed.

End Totality.

Lemma ApplyChanges_total_witness :
  is_Some (ApplyChanges addSecondAddress bothAddresses).
Proof.
  apply (ApplyChanges_total addSecondAddress bothAddresses).
  vm_compute. lia.
Defined.

Lemma ApplyChanges_panics_witness :
  ApplyChanges (mkChanges [] [fooFirst] [] []) emptyZone = None.
Proof.
  apply (ApplyChanges_panics (mkChanges [] [fooFirst] [] []) emptyZone
           emptyZone emptyZone ["example.com"]).
  - reflexivity.
  - vm_compute. reflexivity.
  - vm_compute. lia.
Defined.

(** ** [Records]: failures, and the mock *)

Section ReadFailure.
Context {St : Type} `{!AbstractClientWrapper St}.

Lemma collectRecords_failure zones endpoints (cj cj' : St * list Event) e :
  collectRecords zones endpoints cj = (Err e, cj') →
  ∃ fetched zone cause rest,
    zones = fetched.*1 ++ zone :: rest
    ∧ e = ErrZoneInfo zone cause
    ∧ cj'.2 = cj.2 ++ (fetchedEvent <$> fetched)
                   ++ [EvGetRecords zone (Err cause)].
Proof.
  revert endpoints cj. induction zones as [|zone zones IH];
    intros endpoints cj; simpl; [done|].
  unfold journaled.
  destruct (getRecords zone cj.1) as [[records|err] c] eqn:E; simpl.
  - intros Hrest. apply IH in Hrest as (fetched & z & cause & rest & -> & -> & Hj).
    simpl in Hj. exists ((zone, records) :: fetched), z, cause, rest.
    split; [done|]. split; [done|]. by rewrite Hj, <- app_assoc.
  - intros [= <- <-]. by exists [], zone, err, zones.
Qed.

(** X15. When [Records] fails, it failed at the login, at the listing of the
    zones, or at the first zone whose records could not be fetched, and
    it stopped there: no later zone is fetched. The error of a zone is
    wrapped with the name of the zone; the others are handed on as they
    are. Once logged in, [Records] logs out, also on failure. *)
Theorem Records_failure (cj cj' : St * list Event) e :
  Records cj = (Err e, cj') → readFailure cj cj' e.
Proof.
  unfold Records, readFailure. simpl. unfold journaled at 1.
  destruct (login cj.1) as [[e1|] c1] eqn:E1; simpl.
  { intros [= <- <-]. by left. }
  unfold journaled at 1. simpl.
  destruct (getZones c1) as [[zones|e2] c2] eqn:E2; simpl.
  - destruct (collectRecords zones [] (c2, _)) as [r cj3] eqn:E3.
    unfold journaled. destruct (logout cj3.1) as [rl c4] eqn:E4. simpl.
    intros [= -> <-]. right; right.
    apply collectRecords_failure in E3
      as (fetched & zone & cause & rest & -> & -> & Hj). simpl in *.
    exists fetched, zone, cause, rest, rl. split; [done|].
    rewrite Hj, <- !app_assoc. simpl. done.
  - unfold journaled. simpl. destruct (logout c2) as [rl c4]. simpl.
    intros Heq. injection Heq as <- <-. right; left. exists rl. simpl.
    by rewrite <- !app_assoc.
Qed.
End ReadFailure.

Lemma Records_failure_witness :
  ∃ e cj',
    Records (AbstractClientWrapper0 := Journal
               (AbstractClientWrapper0 := listing ["example.com"; "gone.org"]))
            (bothAddresses, [])
    = (Err e, cj')
    ∧ readFailure (bothAddresses, []) cj' e.
Proof.
  eexists _, _. split; [vm_compute; reflexivity|].
  apply (Records_failure
           (AbstractClientWrapper0 := listing ["example.com"; "gone.org"])).
  vm_compute. reflexivity.
Defined.

Lemma collectRecords_mock (entries : list (string * list NameserverRecord))
    endpoints (w : MockClientWrapper) j :
  (∀ zr, zr ∈ entries → db w !! zr.1 = Some zr.2) →
  ∃ eps,
    collectRecords entries.*1 endpoints (w, j)
    = (Ok eps,
       (w, j ++ (fetchedEvent
                   <$> ((λ zr, (zr.1, liveRecords zr.2)) <$> entries)))).
Proof.
  revert endpoints j. induction entries as [|[zone recs] entries IH];
    intros endpoints j Hdb; simpl.
  { exists endpoints. by rewrite app_nil_r. }
  pose proof (Hdb (zone, recs) ltac:(left)) as Hz. simpl in Hz.
  unfold journaled, Mock.getRecords. simpl. rewrite Hz. simpl.
  destruct (IH (foldl (λ endpoints rec,
                         endpoints ++
                           [NewEndpointWithTTL (Name rec +:+ "." +:+ zone)
                              (Type_ rec) (TTL rec) (Content rec)])
                      endpoints (filter (λ rec, ID rec ≠ "") recs))
               (j ++ [EvGetRecords zone (Ok (filter (λ rec, ID rec ≠ "") recs))]))
    as (eps & Heq).
  { intros; apply Hdb; by right. }
  exists eps. etrans; [exact Heq|]. by rewrite <- app_assoc.
Qed.

(** X16. On the mock, a [Records] that returns returns no error: it has
    logged in, listed the zones, fetched every zone listed - each fetch
    succeeds and gives the records of the zone that were not deleted -
    and logged out, and it leaves the mock as it was. *)
Theorem Records_mock (w : MockClientWrapper) j r cj' :
  Records (w, j) = (r, cj') →
  (∃ eps, r = Ok eps)
  ∧ cj'.1 = w
  ∧ cj'.2 = j ++ [EvLogin None; EvGetZones (Ok (liveZones w).*1)]
              ++ (fetchedEvent <$> liveZones w) ++ [EvLogout None].
Proof.
  unfold Records. simpl. unfold journaled, Mock.login, Mock.getZones. simpl.
  destruct (collectRecords_mock (map_to_list (db w)) [] w
              ((j ++ [EvLogin None])
               ++ [EvGetZones (Ok (map_to_list (db w)).*1)]))
    as (eps & Heq).
  { intros [zone recs] Hin. by apply elem_of_map_to_list in Hin. }
  rewrite Heq. unfold journaled. simpl. intros [= <- <-]. simpl.
  split; [by exists eps|]. split; [done|].
  unfold liveZones. rewrite <- !app_assoc. simpl.
  do 3 f_equal. rewrite <- list_fmap_compose. done.
Qed.

Lemma Records_mock_witness :
  ∃ r cj',
    Records (bothAddresses, []) = (r, cj')
    ∧ (∃ eps, r = Ok eps)
    ∧ cj'.1 = bothAddresses
    ∧ cj'.2 = [EvLogin None; EvGetZones (Ok (liveZones bothAddresses).*1)]
              ++ (fetchedEvent <$> liveZones bothAddresses)
              ++ [EvLogout None].
Proof.
  destruct (Records (bothAddresses, [])) as [r cj'] eqn:E.
  exists r, cj'. split; [reflexivity|].
  exact (Records_mock bothAddresses [] r cj' E).
Defined.

(** ** The mock registrar *)

Lemma to_uint_nonnil n : Nat.to_uint n ≠ Decimal.Nil.
Proof.
  intros H. pose proof (Unsigned.to_of (Nat.to_uint n)) as E.
  rewrite Unsigned.of_to, H in E. discriminate E.
Qed.

Lemma Itoa_inj n m : Itoa n = Itoa m → n = m.
Proof.
  unfold Itoa. intros H. apply Unsigned.to_uint_inj.
  apply (f_equal NilZero.uint_of_string) in H.
  rewrite !NilZero.usu in H by apply to_uint_nonnil. congruence.
Qed.

Lemma numbered_cons k r l :
  numbered k (r :: l) → (ID r = "" ∨ ID r = Itoa k) ∧ numbered (S k) l.
Proof.
  intros H. split.
  - specialize (H 0 r eq_refl). by rewrite Nat.add_0_r in H.
  - intros i r' Hi. specialize (H (S i) r' Hi).
    by replace (S k + i) with (k + S i) by lia.
Qed.

Lemma numbered_live k l r :
  numbered k l → r ∈ liveRecords l → ∃ i, ID r = Itoa (k + i).
Proof.
  intros H Hr. apply list_elem_of_filter in Hr as [Hid Hr].
  apply list_elem_of_lookup_1 in Hr as [i Hi].
  destruct (H i r Hi); [done|by exists i].
Qed.

Lemma wellNumbered_numbered w zone recs :
  wellNumbered w → db w !! zone = Some recs → numbered 0 recs.
Proof. intros H Hz i r Hi. exact (H zone recs i r Hz Hi). Qed.

Lemma numbered_NoDup k l : numbered k l → NoDup (ID <$> liveRecords l).
Proof.
  revert k. induction l as [|r l IH]; intros k H; [constructor|].
  apply numbered_cons in H as [Hr Hl]. rewrite liveRecords_cons.
  destruct (decide (ID r ≠ "")) as [Hlive|]; simpl; [|by eapply IH].
  constructor; [|by eapply IH].
  intros Hin. apply list_elem_of_fmap in Hin as (r' & Heq & Hr').
  destruct (numbered_live _ _ _ Hl Hr') as [i Hi].
  destruct Hr as [|Hr]; [done|].
  rewrite Heq, Hi in Hr. apply Itoa_inj in Hr. lia.
Qed.

Lemma findRecord_Some recs id idx :
  Mock.findRecord recs id = Some idx →
  ∃ r, recs !! idx = Some r ∧ ID r = id.
Proof.
  revert idx. induction recs as [|r recs IH]; intros idx; simpl; [done|].
  case_bool_decide as Hid.
  - intros [= <-]. by exists r.
  - destruct (Mock.findRecord recs id) as [i|]; simpl; [|done].
    intros [= <-]. by apply IH.
Qed.

Lemma findRecord_None recs id :
  (∀ r, r ∈ recs → ID r ≠ id) → Mock.findRecord recs id = None.
Proof.
  induction recs as [|r recs IH]; intros H; simpl; [done|].
  rewrite bool_decide_false by (apply H; left).
  rewrite IH; [done|]. intros; apply H; by right.
Qed.

Lemma numbered_insert k l idx new :
  numbered k l → (ID new = "" ∨ ID new = Itoa (k + idx)) →
  numbered k (<[idx := new]> l).
Proof.
  intros H Hnew i r Hi. destruct (decide (i = idx)) as [->|Hne].
  - destruct (decide (idx < length l)).
    + rewrite list_lookup_insert_eq in Hi by done. by injection Hi as <-.
    + rewrite list_insert_ge in Hi by lia. by apply H.
  - rewrite list_lookup_insert_ne in Hi by done. by apply H.
Qed.

Lemma numbered_snoc l new :
  numbered 0 l → ID new = Itoa (length l) → numbered 0 (l ++ [new]).
Proof.
  intros H Hnew i r Hi. apply lookup_app_Some in Hi as [Hi|[Hge Hi]].
  - by apply H.
  - apply list_lookup_singleton_Some in Hi as [Hi <-]. right.
    rewrite Hnew. f_equal. lia.
Qed.

Lemma wellNumbered_insert w zone l ids :
  wellNumbered w → numbered 0 l →
  wellNumbered (mkMock (<[zone := l]> (db w)) ids).
Proof.
  intros Hw Hl zone' recs i r Hz Hi. simpl in Hz.
  destruct (decide (zone' = zone)) as [->|Hne].
  - rewrite lookup_insert_eq in Hz. injection Hz as <-. exact (Hl i r Hi).
  - rewrite lookup_insert_ne in Hz by done. exact (Hw zone' recs i r Hz Hi).
Qed.

Lemma wellNumbered_emptyMock : wellNumbered emptyMock.
Proof. intros zone recs i r Hz. simpl in Hz. by rewrite lookup_empty in Hz. Qed.

(** X17. The identifiers of the mock stay in step with the positions: when
    every record of every zone carries the decimal of its position, or no
    identifier any more, this is still so after [createRecord],
    [updateRecord], [deleteRecord] and [CreateZone], whether they succeed
    or fail. *)
Theorem Mock_wellNumbered (w : MockClientWrapper) :
  wellNumbered w →
  (∀ req, wellNumbered (Mock.createRecord req w).2)
  ∧ (∀ id req, wellNumbered (Mock.updateRecord id req w).2)
  ∧ (∀ id, wellNumbered (Mock.deleteRecord id w).2)
  ∧ (∀ zone w', Mock.CreateZone zone w = Some w' → wellNumbered w').
Proof.
  intros Hw. repeat split.
  - intros req. unfold Mock.createRecord.
    destruct (db w !! rqDomain req) as [recs|] eqn:Hz; simpl; [|done].
    apply wellNumbered_insert; [done|].
    apply numbered_snoc; [by eapply wellNumbered_numbered|done].
  - intros id req. unfold Mock.updateRecord.
    destruct (db w !! rqDomain req) as [recs|] eqn:Hz; simpl; [|done].
    destruct (Mock.findRecord recs id) as [idx|] eqn:Hf; simpl; [|done].
    apply findRecord_Some in Hf as (r & Hr & Hid).
    apply wellNumbered_insert; [done|].
    apply numbered_insert; [by eapply wellNumbered_numbered|]. simpl.
    rewrite <- Hid. exact (Hw _ _ _ _ Hz Hr).
  - intros id. unfold Mock.deleteRecord.
    destruct (idToZone w !! id) as [zone|]; simpl; [|done].
    destruct (db w !! zone) as [recs|] eqn:Hz; simpl; [|done].
    destruct (Mock.findRecord recs id) as [idx|] eqn:Hf; simpl; [|done].
    destruct (recs !! idx) as [rec|]; simpl; [|done].
    case_bool_decide; simpl; [done|].
    apply wellNumbered_insert; [done|].
    apply numbered_insert; [by eapply wellNumbered_numbered|]. by left.
  - intros zone w'. unfold Mock.CreateZone.
    destruct (db w !! zone); [done|]. intros [= <-].
    apply wellNumbered_insert; [done|]. intros i r Hi. done.
Qed.

Lemma wellNumbered_emptyZone : wellNumbered emptyZone.
Proof.
  intros zone recs i r Hz Hi. unfold emptyZone in Hz. simpl in Hz.
  apply lookup_singleton_Some in Hz as [_ <-]. done.
Qed.

Lemma wellNumbered_bothAddresses : wellNumbered bothAddresses.
Proof.
  intros zone recs i r Hz Hi. unfold bothAddresses in Hz. simpl in Hz.
  apply lookup_singleton_Some in Hz as [_ <-].
  destruct i as [|[|i]]; simpl in Hi; [| |done]; injection Hi as <-; by right.
Qed.

(** X18. The records [getRecords] returns for a zone of the mock have
    identifiers that differ from one another. *)
Theorem getRecords_distinct (w w' : MockClientWrapper) zone recs :
  wellNumbered w → Mock.getRecords zone w = (Ok recs, w') →
  NoDup (ID <$> recs).
Proof.
  intros Hw. unfold Mock.getRecords.
  destruct (db w !! zone) as [l|] eqn:Hz; [|done]. intros [= <- _].
  eapply (numbered_NoDup 0). by eapply wellNumbered_numbered.
Qed.

(** X19. What is created can be read back: after a successful
    [createRecord], [getRecords] returns for the zone what it returned
    before and, last, the new record, whose identifier none of the others
    has (identifiers of deleted records are not given out again) and
    which [idToZone] files under the zone; the other zones read as
    before. *)
Theorem createRecord_getRecords (w w' : MockClientWrapper) req :
  wellNumbered w → Mock.createRecord req w = (None, w') →
  ∃ recs id,
    Mock.getRecords (rqDomain req) w = (Ok recs, w)
    ∧ (id ∉ (ID <$> recs))
    ∧ idToZone w' !! id = Some (rqDomain req)
    ∧ Mock.getRecords (rqDomain req) w' = (Ok (recs ++ [written id req]), w')
    ∧ ∀ zone, zone ≠ rqDomain req →
        Mock.getRecords zone w' = ((Mock.getRecords zone w).1, w').
Proof.
  intros Hw. unfold Mock.createRecord.
  destruct (db w !! rqDomain req) as [l|] eqn:Hz; [|done]. intros [= <-].
  exists (liveRecords l), (Itoa (length l)).
  unfold Mock.getRecords. simpl. rewrite Hz, !lookup_insert_eq.
  split; [done|]. split; [|split; [done|split]].
  - intros Hin. apply list_elem_of_fmap in Hin as (r & Heq & Hr).
    apply list_elem_of_filter in Hr as [Hid Hr].
    apply list_elem_of_lookup_1 in Hr as [i Hi].
    destruct (Hw _ _ _ _ Hz Hi) as [|Hi']; [done|].
    rewrite Hi' in Heq. apply Itoa_inj in Heq.
    apply lookup_lt_Some in Hi. lia.
  - fold (liveRecords (l ++ [written (Itoa (length l)) req])).
    rewrite liveRecords_snoc. rewrite decide_True; [done|].
    simpl. apply Itoa_nonempty.
  - intros zone Hne. rewrite lookup_insert_ne by done.
    by destruct (db w !! zone).
Qed.

Lemma filter_all {A} (P : A → Prop) `{!∀ a, Decision (P a)} (l : list A) :
  (∀ a, a ∈ l → P a) → filter P l = l.
Proof.
  induction l as [|a l IH]; intros Hall; [done|].
  rewrite filter_cons, decide_True by (apply Hall; left).
  rewrite IH; [done|]. intros; apply Hall; by right.
Qed.

Lemma numbered_delete k l idx rec blank :
  numbered k l → l !! idx = Some rec → ID rec ≠ "" → ID blank = "" →
  liveRecords (<[idx := blank]> l)
  = filter (λ r, ID r ≠ ID rec) (liveRecords l).
Proof.
  revert k idx. induction l as [|r l IH]; intros k idx Hn Hi Hlive Hblank;
    [done|].
  apply numbered_cons in Hn as [Hr Hl].
  destruct idx as [|idx]; simpl in *.
  - injection Hi as ->. rewrite !liveRecords_cons.
    rewrite decide_False; [|intros Hc; by apply Hc].
    rewrite decide_True by done. simpl.
    rewrite filter_cons, decide_False; [|intros Hc; by apply Hc].
    symmetry. apply filter_all. intros r Hin.
    destruct (numbered_live _ _ _ Hl Hin) as [i Hid].
    destruct Hr as [|Hr]; [done|]. rewrite Hid, Hr.
    intros Heq. apply Itoa_inj in Heq. lia.
  - rewrite !liveRecords_cons.
    assert (ID rec = Itoa (S k + idx)) as Hrec.
    { by destruct (Hl idx rec Hi). }
    destruct (decide (ID r ≠ "")) as [Hr'|]; simpl.
    + rewrite filter_cons, decide_True.
      * f_equal. by eapply IH.
      * destruct Hr as [|Hr]; [done|]. rewrite Hr, Hrec.
        intros Heq. apply Itoa_inj in Heq. lia.
    + by eapply IH.
Qed.

Lemma deleteRecord_success id (w w' : MockClientWrapper) :
  Mock.deleteRecord id w = (None, w') →
  ∃ zone l idx rec,
    idToZone w !! id = Some zone ∧ db w !! zone = Some l
    ∧ l !! idx = Some rec ∧ ID rec = id ∧ id ≠ ""
    ∧ w' = mkMock (<[zone := <[idx := mkRecord "" (Name rec) (Type_ rec)
                                        (Content rec) (TTL rec) (Priority rec)]> l]>
                     (db w)) (idToZone w).
Proof.
  unfold Mock.deleteRecord.
  destruct (idToZone w !! id) as [zone|]; [|done].
  destruct (db w !! zone) as [l|] eqn:Hz; [|done].
  destruct (Mock.findRecord l id) as [idx|] eqn:Hf; [|done].
  apply findRecord_Some in Hf as (r & Hr & Hid). rewrite Hr.
  case_bool_decide as Hdead; [done|]. intros [= <-].
  exists zone, l, idx, r. repeat split; try done. by rewrite <- Hid.
Qed.

(** X20. After a successful [deleteRecord], [getRecords] returns for the
    zone of the record what it returned before without the record of
    that identifier, which was among them; the other zones read as
    before. *)
Theorem deleteRecord_getRecords id (w w' : MockClientWrapper) :
  wellNumbered w → Mock.deleteRecord id w = (None, w') →
  ∃ zone recs,
    idToZone w !! id = Some zone
    ∧ Mock.getRecords zone w = (Ok recs, w)
    ∧ id ∈ (ID <$> recs)
    ∧ Mock.getRecords zone w' = (Ok (filter (λ r, ID r ≠ id) recs), w')
    ∧ ∀ zone', zone' ≠ zone →
        Mock.getRecords zone' w' = ((Mock.getRecords zone' w).1, w').
Proof.
  intros Hw Hdel.
  apply deleteRecord_success in Hdel
    as (zone & l & idx & rec & Hid & Hz & Hrec & <- & Hlive & ->).
  exists zone, (liveRecords l). unfold Mock.getRecords. simpl.
  rewrite Hz, lookup_insert_eq. split; [done|]. split; [done|].
  split; [|split].
  - apply list_elem_of_fmap. exists rec. split; [done|].
    apply list_elem_of_filter. split; [done|]. by eapply list_elem_of_lookup_2.
  - f_equal. f_equal. eapply (numbered_delete 0); try done.
    by eapply wellNumbered_numbered.
  - intros zone' Hne. rewrite lookup_insert_ne by done.
    by destruct (db w !! zone').
Qed.

(** X21. A record is deleted once: after a successful [deleteRecord], the
    same call fails with "record ID ... not found" (not with "has already
    been deleted": the identifier was blanked, so [findRecord] no longer
    finds it) and changes nothing. *)
Theorem deleteRecord_twice id (w w' : MockClientWrapper) :
  wellNumbered w → Mock.deleteRecord id w = (None, w') →
  Mock.deleteRecord id w'
  = (Some (ErrOther ("record ID " +:+ id +:+ " not found")), w').
Proof.
  intros Hw Hdel.
  apply deleteRecord_success in Hdel
    as (zone & l & idx & rec & Hid & Hz & Hrec & <- & Hlive & ->).
  unfold Mock.deleteRecord. simpl. rewrite Hid, lookup_insert_eq.
  rewrite findRecord_None; [done|].
  intros r Hr. apply list_elem_of_lookup_1 in Hr as [i Hi].
  destruct (decide (i = idx)) as [->|Hne].
  - rewrite list_lookup_insert_eq in Hi by (by eapply lookup_lt_Some).
    injection Hi as <-. simpl. congruence.
  - rewrite list_lookup_insert_ne in Hi by done.
    destruct (Hw _ _ _ _ Hz Hi) as [Hr|Hr]; [congruence|].
    destruct (Hw _ _ _ _ Hz Hrec) as [|Hrec']; [done|].
    rewrite Hr, Hrec'. intros Heq. by apply Itoa_inj in Heq.
Qed.

Lemma fmap_ident {A} (f : A → A) (l : list A) :
  (∀ a, a ∈ l → f a = a) → f <$> l = l.
Proof.
  induction l as [|a l IH]; intros H; [done|]. rewrite fmap_cons.
  rewrite H by left. f_equal. apply IH. intros; apply H; by right.
Qed.

Lemma numbered_update k l idx rec new :
  numbered k l → l !! idx = Some rec → ID new = ID rec →
  liveRecords (<[idx := new]> l)
  = (λ r, if decide (ID r = ID rec) then new else r) <$> liveRecords l.
Proof.
  revert k idx. induction l as [|r l IH]; intros k idx Hn Hi Hnew; [done|].
  apply numbered_cons in Hn as [Hr Hl].
  destruct idx as [|idx]; simpl in *.
  - injection Hi as ->. rewrite !liveRecords_cons. rewrite Hnew.
    assert ((λ r, if decide (ID r = ID rec) then new else r)
              <$> liveRecords l = liveRecords l) as Hrest.
    { apply fmap_ident. intros r Hin.
      destruct (decide (ID r = ID rec)) as [Heq|]; [|done].
      apply list_elem_of_filter in Hin as Hin'. destruct Hin' as [Hlive _].
      destruct (numbered_live _ _ _ Hl Hin) as [i Hid].
      destruct Hr as [Hr|Hr]; [congruence|]. rewrite Hid, Hr in Heq.
      apply Itoa_inj in Heq. lia. }
    rewrite fmap_app, Hrest.
    destruct (decide (ID rec ≠ "")); simpl; [|done].
    by rewrite decide_True by done.
  - rewrite !liveRecords_cons, fmap_app. rewrite (IH (S k) idx Hl Hi Hnew).
    destruct (decide (ID r ≠ "")) as [Hr'|]; simpl; [|done].
    rewrite decide_False; [done|].
    destruct Hr as [|Hr]; [done|].
    destruct (Hl idx rec Hi) as [Hrec|Hrec]; [congruence|].
    rewrite Hr, Hrec. intros Heq. apply Itoa_inj in Heq. lia.
Qed.

(** X22. After a successful [updateRecord], [getRecords] returns for the
    zone what it returned before, with the record of that identifier
    replaced, in its place, by the record of the request under the same
    identifier; the other zones read as before. *)
Theorem updateRecord_getRecords id req (w w' : MockClientWrapper) :
  wellNumbered w → Mock.updateRecord id req w = (None, w') →
  ∃ recs,
    Mock.getRecords (rqDomain req) w = (Ok recs, w)
    ∧ Mock.getRecords (rqDomain req) w'
      = (Ok ((λ r, if decide (ID r = id) then written id req else r) <$> recs),
         w')
    ∧ ∀ zone, zone ≠ rqDomain req →
        Mock.getRecords zone w' = ((Mock.getRecords zone w).1, w').
Proof.
  intros Hw. unfold Mock.updateRecord.
  destruct (db w !! rqDomain req) as [l|] eqn:Hz; [|done].
  destruct (Mock.findRecord l id) as [idx|] eqn:Hf; [|done].
  apply findRecord_Some in Hf as (rec & Hrec & <-). intros [= <-].
  exists (liveRecords l). unfold Mock.getRecords. simpl.
  rewrite Hz, lookup_insert_eq. split; [done|]. split.
  - f_equal. f_equal.
    apply (numbered_update 0 l idx rec (written (ID rec) req));
      [by eapply wellNumbered_numbered|done|done].
  - intros zone Hne. rewrite lookup_insert_ne by done.
    by destruct (db w !! zone).
Qed.

Lemma Mock_wellNumbered_witness :
  (∀ req, wellNumbered (Mock.createRecord req bothAddresses).2)
  ∧ (∀ id req, wellNumbered (Mock.updateRecord id req bothAddresses).2)
  ∧ (∀ id, wellNumbered (Mock.deleteRecord id bothAddresses).2)
  ∧ (∀ zone w', Mock.CreateZone zone bothAddresses = Some w' → wellNumbered w').
Proof. exact (Mock_wellNumbered bothAddresses wellNumbered_bothAddresses). Defined.

Lemma getRecords_distinct_witness :
  ∃ recs, Mock.getRecords "example.com" bothAddresses = (Ok recs, bothAddresses)
          ∧ NoDup (ID <$> recs).
Proof.
  exists (liveRecords [mkRecord "0" "foo" "A" "1.1.1.1" 60 0;
                       mkRecord "1" "foo" "A" "2.2.2.2" 60 0]).
  assert (Mock.getRecords "example.com" bothAddresses
          = (Ok (liveRecords [mkRecord "0" "foo" "A" "1.1.1.1" 60 0;
                              mkRecord "1" "foo" "A" "2.2.2.2" 60 0]),
             bothAddresses)) as H by (vm_compute; reflexivity).
  split; [exact H|].
  exact (getRecords_distinct bothAddresses bothAddresses "example.com" _
           wellNumbered_bothAddresses H).
Defined.

Lemma createRecord_getRecords_witness :
  ∃ w', Mock.createRecord thirdRequest bothAddresses = (None, w')
    ∧ ∃ recs id,
        Mock.getRecords "example.com" bothAddresses = (Ok recs, bothAddresses)
        ∧ (id ∉ (ID <$> recs))
        ∧ idToZone w' !! id = Some "example.com"
        ∧ Mock.getRecords "example.com" w'
          = (Ok (recs ++ [written id thirdRequest]), w')
        ∧ ∀ zone, zone ≠ "example.com" →
            Mock.getRecords zone w'
            = ((Mock.getRecords zone bothAddresses).1, w').
Proof.
  exists (Mock.createRecord thirdRequest bothAddresses).2.
  assert (Mock.createRecord thirdRequest bothAddresses
          = (None, (Mock.createRecord thirdRequest bothAddresses).2)) as H
    by (vm_compute; reflexivity).
  split; [exact H|].
  exact (createRecord_getRecords bothAddresses _ thirdRequest
           wellNumbered_bothAddresses H).
Defined.

Lemma deleteRecord_getRecords_witness :
  ∃ w', Mock.deleteRecord "0" bothAddresses = (None, w')
    ∧ ∃ zone recs,
        idToZone bothAddresses !! "0" = Some zone
        ∧ Mock.getRecords zone bothAddresses = (Ok recs, bothAddresses)
        ∧ "0" ∈ (ID <$> recs)
        ∧ Mock.getRecords zone w' = (Ok (filter (λ r, ID r ≠ "0") recs), w')
        ∧ ∀ zone', zone' ≠ zone →
            Mock.getRecords zone' w'
            = ((Mock.getRecords zone' bothAddresses).1, w').
Proof.
  exists (Mock.deleteRecord "0" bothAddresses).2.
  assert (Mock.deleteRecord "0" bothAddresses
          = (None, (Mock.deleteRecord "0" bothAddresses).2)) as H
    by (vm_compute; reflexivity).
  split; [exact H|].
  exact (deleteRecord_getRecords "0" bothAddresses _
           wellNumbered_bothAddresses H).
Defined.

Lemma deleteRecord_twice_witness :
  ∃ w', Mock.deleteRecord "1" bothAddresses = (None, w')
    ∧ Mock.deleteRecord "1" w'
      = (Some (ErrOther ("record ID " +:+ "1" +:+ " not found")), w').
Proof.
  exists (Mock.deleteRecord "1" bothAddresses).2.
  assert (Mock.deleteRecord "1" bothAddresses
          = (None, (Mock.deleteRecord "1" bothAddresses).2)) as H
    by (vm_compute; reflexivity).
  split; [exact H|].
  exact (deleteRecord_twice "1" bothAddresses _ wellNumbered_bothAddresses H).
Defined.

Lemma updateRecord_getRecords_witness :
  ∃ w', Mock.updateRecord "1" thirdRequest bothAddresses = (None, w')
    ∧ ∃ recs,
        Mock.getRecords "example.com" bothAddresses = (Ok recs, bothAddresses)
        ∧ Mock.getRecords "example.com" w'
          = (Ok ((λ r, if decide (ID r = "1") then written "1" thirdRequest
                       else r) <$> recs), w')
        ∧ ∀ zone, zone ≠ "example.com" →
            Mock.getRecords zone w'
            = ((Mock.getRecords zone bothAddresses).1, w').
Proof.
  exists (Mock.updateRecord "1" thirdRequest bothAddresses).2.
  assert (Mock.updateRecord "1" thirdRequest bothAddresses
          = (None, (Mock.updateRecord "1" thirdRequest bothAddresses).2)) as H
    by (vm_compute; reflexivity).
  split; [exact H|].
  exact (updateRecord_getRecords "1" thirdRequest bothAddresses _
           wellNumbered_bothAddresses H).
Defined.

(** ** The Delete and Create phases, endpoint by endpoint *)

Section PhaseSteps.
Context {St : Type} `{!AbstractClientWrapper St}.
Implicit Types p : Pass (St * list Event).

Lemma issues_deleteRecord id p :
  ∃ r p', issues (err ← call (deleteRecord id); record err) p
                 [EvDelete id r] p'.
Proof.
  unfold issues, mbind, M_bind, call, record. simpl.
  unfold journaled, journal.
  destruct (deleteRecord id (client p).1) as [r c] eqn:E. simpl.
  exists r. destruct r as [e|]; simpl; eexists; (split; [done|]);
    simpl; by rewrite ?app_nil_r.
Qed.

(** X13. An endpoint is deleted whole or not at all. With the records of its
    zone cached: when the cached records answer its targets one for one,
    one delete is issued for each of the identifiers collected, in their
    order, whatever the deletes before it returned, and every failed
    delete is appended to [errs]; otherwise no call is issued and the one
    error of [getRecIDs] is appended. [recordsCache] stays as it is:
    what was deleted stays cached. *)
Theorem deleteEndpoint_steps zones ep zone (recs : list NameserverRecord) p :
  getZone zones ep = (zone, None) → recordsCache p !! zone = Some recs →
  ∃ evs p',
    deleteEndpoint zones ep p = Some ((), p')
    ∧ journal p' = journal p ++ evs
    ∧ recordsCache p' = recordsCache p
    ∧ if decide (length (collectedIDs zone recs ep) = length (Targets ep))
      then Forall2 (λ id ev, ∃ r, ev = EvDelete id r)
                   (collectedIDs zone recs ep) evs
           ∧ errs p' = errs p ++ (evs ≫= recorded)
      else evs = [] ∧ errs p' = errs p ++ [ErrMapTargets].
Proof.
  intros Hzone Hcache. unfold deleteEndpoint. rewrite Hzone.
  unfold mbind at 1, M_bind at 1, cachedRecords. rewrite Hcache.
  rewrite getRecIDs_collected.
  destruct (decide (length (collectedIDs zone recs ep) = length (Targets ep)))
    as [Hlen|Hlen].
  - rewrite bool_decide_true by done.
    destruct (forEach_issues (collectedIDs zone recs ep)
                (λ id, err ← call (deleteRecord id); record err)
                (λ id evs, ∃ ev, evs = [ev] ∧ ∃ r, ev = EvDelete id r)) with p
      as (evss & p' & (Hrun & Hj & He & Hc) & HQ).
    { intros id q _. destruct (issues_deleteRecord id q) as (r & q' & Hq).
      exists [EvDelete id r], q'. split; [done|]. eauto. }
    exists (concat evss), p'. split; [exact Hrun|]. split; [done|].
    split; [done|]. split; [|done].
    by apply (Forall2_concat_singletons (λ id ev, ∃ r, ev = EvDelete id r)).
  - rewrite bool_decide_false by done. simpl.
    eexists [], _. split; [reflexivity|]. simpl.
    split; [by rewrite app_nil_r|]. done.
Qed.
End PhaseSteps.

Lemma deleteEndpoint_steps_witness :
  ∃ evs p',
    deleteEndpoint exampleZones fooBoth cachedBoth = Some ((), p')
    ∧ journal p' = journal cachedBoth ++ evs
    ∧ recordsCache p' = recordsCache cachedBoth
    ∧ Forall2 (λ id ev, ∃ r, ev = EvDelete id r) ["0"; "1"] evs
    ∧ errs p' = errs cachedBoth ++ (evs ≫= recorded).
Proof.
  destruct (deleteEndpoint_steps (St := MockClientWrapper) exampleZones
              fooBoth "example.com"
              [mkRecord "0" "foo" "A" "1.1.1.1" 60 0;
               mkRecord "1" "foo" "A" "2.2.2.2" 60 0] cachedBoth)
    as (evs & p' & Hrun & Hj & Hc & Hsteps).
  - vm_compute. reflexivity.
  - vm_compute. reflexivity.
  - exists evs, p'. split; [exact Hrun|]. split; [exact Hj|].
    split; [exact Hc|]. exact Hsteps.
Defined.

Section Settled.
Context {St : Type} `{!AbstractClientWrapper St}.

Lemma forEach_skip {A} (s : list A) (body : A → M St unit) (p : Pass St) :
  (∀ a, a ∈ s → body a p = Some ((), p)) → forEach s body p = Some ((), p).
Proof.
  induction s as [|a s IH]; intros Hbody; simpl; [done|].
  unfold mbind, M_bind. rewrite Hbody by left.
  apply IH. intros; apply Hbody; by right.
Qed.

(** X14. Creating what is there does nothing: an endpoint each target of
    which has a record among the cached records of its zone leaves the
    pass as it was, the client included: no call is issued, no error
    appended. *)
Theorem createEndpoint_settled zones ep zone (recs : list NameserverRecord)
    (p : Pass St) :
  getZone zones ep = (zone, None) → recordsCache p !! zone = Some recs →
  identified recs →
  (∀ target, target ∈ Targets ep →
     ∃ r, r ∈ recs ∧ matchesTarget zone ep target r) →
  createEndpoint zones ep p = Some ((), p).
Proof.
  intros Hzone Hcache Hid Hall. unfold createEndpoint. rewrite Hzone.
  unfold mbind at 1, M_bind at 1, cachedRecords. rewrite Hcache.
  apply forEach_skip. intros target Hin. unfold createTarget.
  rewrite bool_decide_true; [done|].
  rewrite findRecordsByNameAndType_filter.
  apply findExactRecord_found; [by apply identified_filter|].
  apply exact_in_existing. by apply Hall.
Qed.
End Settled.

Lemma createEndpoint_settled_witness :
  createEndpoint exampleZones fooBoth cachedBoth = Some ((), cachedBoth).
Proof.
  apply (createEndpoint_settled exampleZones fooBoth "example.com"
           [mkRecord "0" "foo" "A" "1.1.1.1" 60 0;
            mkRecord "1" "foo" "A" "2.2.2.2" 60 0] cachedBoth).
  - vm_compute. reflexivity.
  - vm_compute. reflexivity.
  - repeat constructor; simpl; discriminate.
  - intros target Hin.
    apply elem_of_cons in Hin as [->|Hin];
      [|apply list_elem_of_singleton in Hin as ->].
    + exists (mkRecord "0" "foo" "A" "1.1.1.1" 60 0).
      split; [left|]. repeat split; vm_compute; reflexivity.
    + exists (mkRecord "1" "foo" "A" "2.2.2.2" 60 0).
      split; [right; left|]. repeat split; vm_compute; reflexivity.
Defined.

(** ** Convergence on the mock *)

Lemma forEach_ext {St A} (s : list A) (body1 body2 : A → M St unit) p :
  (∀ a q, a ∈ s → body1 a q = body2 a q) →
  forEach s body1 p = forEach s body2 p.
Proof.
  revert p. induction s as [|a s IH]; intros p Hext; simpl; [done|].
  unfold mbind, M_bind. rewrite Hext by left.
  destruct (body2 a p) as [[[] p1]|]; [|done].
  apply IH. intros; apply Hext; by right.
Qed.

Lemma findRecord_live l r :
  r ∈ liveRecords l → is_Some (Mock.findRecord l (ID r)).
Proof.
  intros Hr. apply list_elem_of_filter in Hr as [_ Hr].
  induction l as [|a l IH]; [by apply elem_of_nil in Hr|]. simpl.
  case_bool_decide; [by eexists|].
  apply elem_of_cons in Hr as [->|Hr]; [done|].
  destruct (IH Hr) as [i ->]. by eexists.
Qed.

Lemma createTarget_plain zone name (recs : list NameserverRecord) ep target
    (q : Pass MockClientWrapper) :
  bool_decide (length (findRecordsByNameAndType zone recs (DNSName ep)
                         (RecordType ep)) = 1)
  && bool_decide (length (Targets ep) = 1) = false →
  createTarget zone name recs ep target q
  = (if bool_decide
          (findExactRecord
             (filter (sameNameType zone (DNSName ep) (RecordType ep)) recs)
             target ≠ "")
     then mret ()
     else createOrExists
            (mkRequest zone name (RecordType ep) target (RecordTTL ep) 0)) q.
Proof.
  intros Hplain. unfold createTarget. rewrite Hplain.
  by rewrite findRecordsByNameAndType_filter.
Qed.

Lemma createTargets_mock_converge zone ep l (p1 : Pass MockClientWrapper) :
  db (client p1) !! zone = Some l →
  ∃ p' l',
    forEach (Targets ep)
      (createTarget zone (extractRecordName (DNSName ep) zone) (liveRecords l)
                    ep) p1
    = Some ((), p')
    ∧ errs p' = errs p1
    ∧ db (client p') !! zone = Some l'
    ∧ ∀ target, target ∈ Targets ep →
        ∃ r, r ∈ liveRecords l' ∧ matchesTarget zone ep target r.
Proof.
  intros Hl.
  set (name := extractRecordName (DNSName ep) zone).
  assert (∀ target,
            findExactRecord
              (filter (sameNameType zone (DNSName ep) (RecordType ep))
                      (liveRecords l)) target ≠ "" →
            ∃ r, r ∈ liveRecords l ∧ matchesTarget zone ep target r) as Hfound.
  { intros target Hne. apply findExactRecord_found in Hne.
    - by apply exact_in_existing in Hne.
    - apply identified_filter, liveRecords_identified. }
  destruct (bool_decide (length (findRecordsByNameAndType zone (liveRecords l)
                                   (DNSName ep) (RecordType ep)) = 1)
            && bool_decide (length (Targets ep) = 1)) eqn:Hupsert.
  - unfold createTarget. rewrite Hupsert.
    apply andb_true_iff in Hupsert as [He Ht].
    apply bool_decide_eq_true in He, Ht.
    rewrite findRecordsByNameAndType_filter in *.
    destruct (Targets ep) as [|target [|]] eqn:Htargets; try done.
    destruct (filter _ (liveRecords l)) as [|r0 [|]] eqn:Hex; try done.
    simpl. unfold mbind at 1, M_bind at 1.
    case_bool_decide as Hexact.
    + exists p1, l. split; [done|]. split; [done|]. split; [done|].
      intros t Hin. apply list_elem_of_singleton in Hin as ->.
      by apply Hfound.
    + assert (r0 ∈ liveRecords l) as Hr0.
      { assert (r0 ∈ [r0]) as Hin by left. rewrite <- Hex in Hin.
        by apply list_elem_of_filter in Hin as [_ Hin]. }
      destruct (findRecord_live l r0 Hr0) as [idx Hidx].
      unfold mbind, M_bind, index, call. simpl.
      unfold Mock.updateRecord. simpl. rewrite Hl, Hidx. simpl.
      eexists _, _. split; [reflexivity|]. simpl. split; [done|].
      split; [by rewrite lookup_insert_eq|].
      intros t Hin. apply list_elem_of_singleton in Hin as ->.
      exists (mkRecord (ID r0) name (RecordType ep) target (RecordTTL ep) 0).
      split; [|done].
      apply list_elem_of_filter. split.
      { simpl. by apply list_elem_of_filter in Hr0 as [? _]. }
      apply list_elem_of_lookup_2 with idx.
      apply list_lookup_insert_eq.
      apply findRecord_Some in Hidx as (r & Hr & _).
      by eapply lookup_lt_Some.
  - rewrite (forEach_ext (Targets ep) (createTarget zone name (liveRecords l) ep)
               (λ target,
                  if bool_decide
                       (findExactRecord
                          (filter (sameNameType zone (DNSName ep) (RecordType ep))
                                  (liveRecords l)) target ≠ "")
                  then mret ()
                  else createOrExists
                         (mkRequest zone name (RecordType ep) target
                            (RecordTTL ep) 0)) p1
               (λ target q _, createTarget_plain zone name (liveRecords l) ep
                                target q Hupsert)).
    destruct (updateFallback_targets zone name (RecordTTL ep) (RecordType ep)
                (filter (sameNameType zone (DNSName ep) (RecordType ep))
                        (liveRecords l)) (Targets ep) l p1 Hl)
      as (p' & l' & Hrun & Herrs & Hl' & Hsub & Hall).
    exists p', l'. split; [done|]. split; [done|]. split; [done|].
    intros target Ht.
    destruct (decide (findExactRecord
                (filter (sameNameType zone (DNSName ep) (RecordType ep))
                        (liveRecords l)) target = "")) as [Hnone|Hsome].
    + destruct (Hall target Ht Hnone) as (r & Hr & ? & ? & ?).
      exists r. by repeat split.
    + destruct (Hfound target Hsome) as (r & Hr & Hm).
      exists r. split; [by apply Hsub|done].
Qed.

(** X23. Creating converges on the mock: for an endpoint whose zone the mock
    holds and has not been fetched in this phase, the Create phase ends
    without a new error, and afterwards every target of the endpoint has
    a live record of the resolved name, the type and the target as
    content in the zone - one that was there, the one record of this
    name and type updated, or one created. *)
Theorem createEndpoint_converges zones ep zone l (p : Pass MockClientWrapper) :
  getZone zones ep = (zone, None) → recordsCache p !! zone = None →
  db (client p) !! zone = Some l →
  ∃ p' l',
    createEndpoint zones ep p = Some ((), p')
    ∧ errs p' = errs p
    ∧ db (client p') !! zone = Some l'
    ∧ ∀ target, target ∈ Targets ep →
        ∃ r, r ∈ liveRecords l' ∧ matchesTarget zone ep target r.
Proof.
  intros Hzone Hcache Hl. unfold createEndpoint. rewrite Hzone.
  unfold mbind at 1, M_bind at 1, cachedRecords. rewrite Hcache. simpl.
  unfold Mock.getRecords. rewrite Hl. fold (liveRecords l).
  exact (createTargets_mock_converge zone ep l
           (mkPass (client p) (errs p)
                   (<[zone := liveRecords l]> (recordsCache p))) Hl).
Qed.

Lemma getZone_member zones ep zone :
  getZone zones ep = (zone, None) → zone ∈ zones.
Proof.
  unfold getZone.
  destruct (zonePass_result (dotBoundary (DNSName ep)) zones
              (ErrNoMatchingZone ep))
    as [[-> _]|(Z & -> & HZ & Hne & _)].
  - rewrite bool_decide_true by done.
    destruct (zonePass_result (hyphenBoundary (DNSName ep)) zones
                (ErrNoMatchingZone ep))
      as [[-> _]|(Z & -> & HZ & _)]; [done|].
    by intros [= <-].
  - rewrite bool_decide_false by done. by intros [= <-].
Qed.

Lemma createEndpoint_converges_witness :
  ∃ p' l',
    createEndpoint exampleZones fooThird freshBoth = Some ((), p')
    ∧ errs p' = errs freshBoth
    ∧ db (client p') !! "example.com" = Some l'
    ∧ ∀ target, target ∈ Targets fooThird →
        ∃ r, r ∈ liveRecords l' ∧ matchesTarget "example.com" fooThird target r.
Proof.
  apply (createEndpoint_converges exampleZones fooThird "example.com"
           [mkRecord "0" "foo" "A" "1.1.1.1" 60 0;
            mkRecord "1" "foo" "A" "2.2.2.2" 60 0] freshBoth).
  - vm_compute. reflexivity.
  - vm_compute. reflexivity.
  - vm_compute. reflexivity.
Defined.

Lemma updateFallback_converges_witness :
  ∃ p' l',
    updateFallback "example.com"
      (extractRecordName (DNSName fooThird) "example.com") firstAddress
      fooThird freshBoth
    = Some ((), p')
    ∧ errs p' = errs freshBoth
    ∧ db (client p') !! "example.com" = Some l'
    ∧ ∀ target, target ∈ Targets fooThird →
        ∃ r, r ∈ liveRecords l' ∧ matchesTarget "example.com" fooThird target r.
Proof.
  apply (updateFallback_converges "example.com" firstAddress
           [mkRecord "0" "foo" "A" "1.1.1.1" 60 0;
            mkRecord "1" "foo" "A" "2.2.2.2" 60 0] fooThird freshBoth).
  - vm_compute. reflexivity.
  - repeat constructor; simpl; discriminate.
  - intros r Hr. apply list_elem_of_singleton in Hr as ->.
    apply list_elem_of_filter. split; [simpl; discriminate|left].
Defined.

(** X25. What [ApplyChanges] creates, the registrar holds. On the mock,
    the pass that creates one endpoint whose name resolves to a zone
    ends without an error, and [getRecords] then returns for the zone,
    for every target of the endpoint, a record with the resolved name,
    the type and the target as content. *)
Theorem ApplyChanges_getRecords (w : MockClientWrapper) ep zone :
  getZone (map_to_list (db w)).*1 ep = (zone, None) →
  ∃ w' recs,
    ApplyChanges (mkChanges [ep] [] [] []) w = Some (None, w')
    ∧ Mock.getRecords zone w' = (Ok recs, w')
    ∧ ∀ target, target ∈ Targets ep →
        ∃ r, r ∈ recs ∧ matchesTarget zone ep target r.
Proof.
  intros Hzone.
  assert (∃ l, db w !! zone = Some l) as [l Hl].
  { apply getZone_member, list_elem_of_fmap in Hzone as ([z l] & -> & Hin).
    exists l. by apply elem_of_map_to_list in Hin. }
  destruct (createTargets_mock_converge zone ep l
              (mkPass w [] (<[zone := liveRecords l]> ∅)))
    as (p' & l' & Hrun & Herrs & Hl' & Hall); [done|].
  exists (client p'), (liveRecords l'). split; [|split].
  - unfold ApplyChanges, phases, updatePhase, resetCache, mbind, M_bind.
    simpl. unfold mbind, M_bind, createEndpoint. rewrite Hzone.
    unfold mbind, M_bind, cachedRecords. simpl. rewrite lookup_empty.
    unfold Mock.getRecords. rewrite Hl. fold (liveRecords l).
    rewrite Hrun. simpl. rewrite Herrs. done.
  - unfold Mock.getRecords. by rewrite Hl'.
  - exact Hall.
Qed.

Lemma ApplyChanges_getRecords_witness :
  ∃ w' recs,
    ApplyChanges (mkChanges [fooThird] [] [] []) bothAddresses = Some (None, w')
    ∧ Mock.getRecords "example.com" w' = (Ok recs, w')
    ∧ ∀ target, target ∈ Targets fooThird →
        ∃ r, r ∈ recs ∧ matchesTarget "example.com" fooThird target r.
Proof.
  apply (ApplyChanges_getRecords bothAddresses fooThird "example.com").
  vm_compute. reflexivity.
Defined.

(** ** [recordsCache] *)

Section Caching.
Context {St : Type} `{!AbstractClientWrapper St}.
Implicit Types p : Pass (St * list Event).

Lemma caches_quiet {A} (m : M (St * list Event) A) :
  (∀ p a p', m p = Some (a, p') →
     recordsCache p' = recordsCache p
     ∧ ∃ evs, journal p' = journal p ++ evs ∧ fetches evs = []) →
  caches m.
Proof.
  intros Hm p a p' Hrun. destruct (Hm p a p' Hrun) as (Hc & evs & Hj & Hf).
  exists evs. rewrite Hf, Hc. split; [done|]. split; [constructor|].
  split; [by intros zone Hin%elem_of_nil|].
  intros zone. split; [by left|]. by intros [?|Hin%elem_of_nil].
Qed.

Lemma caches_ret {A} (a : A) : caches (mret a : M (St * list Event) A).
Proof.
  apply caches_quiet. intros p a' p' [= <- <-]. split; [done|].
  exists []. by rewrite app_nil_r.
Qed.

Lemma caches_bind {A B} (m : M (St * list Event) A)
    (f : A → M (St * list Event) B) :
  caches m → (∀ a, caches (f a)) → caches (m ≫= f).
Proof.
  intros Hm Hf p b p'. unfold mbind, M_bind.
  destruct (m p) as [[a p1]|] eqn:E; [|done]. intros Hrun.
  destruct (Hm p a p1 E) as (evs1 & Hj1 & Hn1 & Hnew1 & Hc1).
  destruct (Hf a p1 b p' Hrun) as (evs2 & Hj2 & Hn2 & Hnew2 & Hc2).
  exists (evs1 ++ evs2). unfold fetches in *. rewrite bind_app.
  split; [by rewrite Hj2, Hj1, app_assoc|]. split; [|split].
  - apply NoDup_app. split; [done|]. split; [|done].
    intros zone Hin1 Hin2. apply Hnew2 in Hin2.
    assert (is_Some (recordsCache p1 !! zone)) as [? Hsome]
      by (apply Hc1; by right).
    congruence.
  - intros zone Hin. apply elem_of_app in Hin as [Hin|Hin]; [by apply Hnew1|].
    apply Hnew2 in Hin. destruct (recordsCache p !! zone) eqn:Hz; [|done].
    assert (is_Some (recordsCache p1 !! zone)) as [? Hsome]
      by (apply Hc1; left; by eexists).
    congruence.
  - intros zone. rewrite Hc2, Hc1, elem_of_app. tauto.
Qed.

Lemma caches_appendErr e : caches (appendErr e : M (St * list Event) unit).
Proof.
  apply caches_quiet. intros p a' p' [= <- <-]. split; [done|].
  exists []. by rewrite app_nil_r.
Qed.

Lemma caches_record err : caches (record err : M (St * list Event) unit).
Proof. destruct err; [apply caches_appendErr|apply caches_ret]. Qed.

Lemma caches_index {A} (s : list A) i :
  caches (index s i : M (St * list Event) A).
Proof.
  apply caches_quiet. intros p a p'. unfold index.
  destruct (s !! i); [|done]. intros [= <- <-]. split; [done|].
  exists []. by rewrite app_nil_r.
Qed.

Lemma caches_forEach {A} (s : list A) (body : A → M (St * list Event) unit) :
  (∀ a, caches (body a)) → caches (forEach s body).
Proof.
  intros Hbody. induction s as [|a s IH]; simpl; [apply caches_ret|].
  apply caches_bind; [apply Hbody|]. intros _. exact IH.
Qed.

Lemma caches_createRecord rec :
  caches (call (createRecord rec) : M (St * list Event) _).
Proof.
  apply caches_quiet. intros p a p'. unfold call. simpl.
  unfold journaled, journal.
  destruct (createRecord rec (client p).1) as [r c]. simpl.
  intros [= <- <-]. split; [done|]. by exists [EvCreate rec r].
Qed.

Lemma caches_updateRecord id rec :
  caches (call (updateRecord id rec) : M (St * list Event) _).
Proof.
  apply caches_quiet. intros p a p'. unfold call. simpl.
  unfold journaled, journal.
  destruct (updateRecord id rec (client p).1) as [r c]. simpl.
  intros [= <- <-]. split; [done|]. by exists [EvUpdate id rec r].
Qed.

Lemma caches_deleteRecord id :
  caches (call (deleteRecord id) : M (St * list Event) _).
Proof.
  apply caches_quiet. intros p a p'. unfold call. simpl.
  unfold journaled, journal.
  destruct (deleteRecord id (client p).1) as [r c]. simpl.
  intros [= <- <-]. split; [done|]. by exists [EvDelete id r].
Qed.

Lemma caches_createOrExists rec :
  caches (createOrExists rec : M (St * list Event) unit).
Proof.
  apply caches_bind; [apply caches_createRecord|]. intros [e|];
    [|apply caches_ret].
  destruct (isObjectExistsError e); [apply caches_ret|apply caches_appendErr].
Qed.

Lemma caches_cachedRecords zone :
  caches (cachedRecords zone : M (St * list Event) _).
Proof.
  intros p a p'. unfold cachedRecords.
  destruct (recordsCache p !! zone) as [recs|] eqn:Hz.
  { intros [= <- <-]. exists []. rewrite app_nil_r. split; [done|].
    split; [constructor|]. split; [by intros z Hin%elem_of_nil|].
    intros z. split; [by left|]. by intros [?|Hin%elem_of_nil]. }
  simpl. unfold journaled, journal.
  destruct (getRecords zone (client p).1) as [[recs|e] c]; simpl;
    intros [= <- <-]; simpl.
  - exists [EvGetRecords zone (Ok recs)]. simpl. split; [done|].
    split; [apply NoDup_singleton|].
    split; [by intros z ->%list_elem_of_singleton|].
    intros z. rewrite list_elem_of_singleton.
    destruct (decide (z = zone)) as [->|Hne].
    + rewrite lookup_insert_eq. split; [by right|by eexists].
    + rewrite lookup_insert_ne by done. split; [by left|].
      by intros [?|?].
  - exists [EvGetRecords zone (Err e)]. simpl. split; [done|].
    split; [constructor|]. split; [by intros z Hin%elem_of_nil|].
    intros z. split; [by left|]. by intros [?|Hin%elem_of_nil].
Qed.

Lemma caches_deleteEndpoint zones ep : caches (deleteEndpoint zones ep).
Proof.
  unfold deleteEndpoint. destruct (getZone zones ep) as [zone [err|]];
    [apply caches_appendErr|].
  apply caches_bind; [apply caches_cachedRecords|].
  intros [recs|]; [|apply caches_ret].
  destruct (getRecIDs zone recs ep) as [recIDs err].
  apply caches_bind; [apply caches_record|]. intros _.
  apply caches_forEach. intros id.
  apply caches_bind; [apply caches_deleteRecord|]. intros err'.
  apply caches_record.
Qed.

Lemma caches_createEndpoint zones ep : caches (createEndpoint zones ep).
Proof.
  unfold createEndpoint. destruct (getZone zones ep) as [zone [err|]];
    [apply caches_appendErr|].
  apply caches_bind; [apply caches_cachedRecords|].
  intros [recs|]; [|apply caches_ret].
  apply caches_forEach. intros target. unfold createTarget.
  case_bool_decide; [apply caches_ret|].
  destruct (_ && _); [|apply caches_createOrExists].
  apply caches_bind; [apply caches_index|]. intros r0.
  apply caches_bind; [apply caches_updateRecord|]. intros err.
  apply caches_record.
Qed.

Lemma caches_updateEndpoint zones oldEp newEp :
  caches (updateEndpoint zones oldEp newEp).
Proof.
  unfold updateEndpoint. destruct (getZone zones oldEp) as [zone [err|]];
    [apply caches_appendErr|].
  apply caches_bind; [apply caches_cachedRecords|].
  intros [recs|]; [|apply caches_ret].
  destruct (getRecIDs zone recs oldEp) as [recIDs [err|]].
  - unfold updateFallback. apply caches_forEach. intros target.
    case_bool_decide; [apply caches_ret|apply caches_createOrExists].
  - unfold updatePaired. apply caches_forEach. intros j. unfold updateIndex.
    case_bool_decide.
    + apply caches_bind; [apply caches_index|]. intros id.
      apply caches_bind; [apply caches_deleteRecord|].
      intros [e|]; [|apply caches_ret].
      apply caches_bind; [apply caches_appendErr|]. intros _.
      apply caches_bind; [apply caches_index|]. intros _. apply caches_ret.
    + case_bool_decide.
      * apply caches_bind; [apply caches_index|]. intros target.
        apply caches_createOrExists.
      * apply caches_bind; [apply caches_index|]. intros target.
        apply caches_bind; [apply caches_index|]. intros id.
        apply caches_bind; [apply caches_updateRecord|]. intros err.
        apply caches_record.
Qed.

Lemma caches_updatePhase zones changes : caches (updatePhase zones changes).
Proof.
  unfold updatePhase. apply caches_forEach. intros [i oldEp].
  apply caches_bind; [apply caches_index|]. intros newEp.
  apply caches_updateEndpoint.
Qed.

(** X12. Every phase fetches the records of a zone at most once with success:
    a pass runs the Delete phase, the Create phase and the Update phase,
    each from an empty [recordsCache] and from the client and the errors
    the phase before left, and in the calls of each the zones fetched
    with success differ from one another. (The cache being emptied
    between the phases, a zone can be fetched once in each; a failed
    fetch is not cached and is tried again by the next endpoint of the
    zone.) *)
Theorem phases_fetch_once zones changes p p' :
  phases zones changes p = Some ((), p') →
  ∃ pD pC evsD evsC evsU,
    forEach (Delete changes) (deleteEndpoint zones)
            (mkPass (client p) (errs p) ∅) = Some ((), pD)
    ∧ forEach (Create changes) (createEndpoint zones)
              (mkPass (client pD) (errs pD) ∅) = Some ((), pC)
    ∧ updatePhase zones changes (mkPass (client pC) (errs pC) ∅)
      = Some ((), p')
    ∧ journal pD = journal p ++ evsD
    ∧ journal pC = journal pD ++ evsC
    ∧ journal p' = journal pC ++ evsU
    ∧ NoDup (fetches evsD) ∧ NoDup (fetches evsC) ∧ NoDup (fetches evsU).
Proof.
  unfold phases, mbind, M_bind, resetCache. simpl.
  destruct (forEach (Delete changes) (deleteEndpoint zones) _)
    as [[[] pD]|] eqn:ED; [|done].
  destruct (forEach (Create changes) (createEndpoint zones) _)
    as [[[] pC]|] eqn:EC; [|done].
  intros EU. exists pD, pC.
  destruct (caches_forEach _ _ (caches_deleteEndpoint zones) _ _ _ ED)
    as (evsD & HjD & HnD & _).
  destruct (caches_forEach _ _ (caches_createEndpoint zones) _ _ _ EC)
    as (evsC & HjC & HnC & _).
  destruct (caches_updatePhase zones changes _ _ _ EU)
    as (evsU & HjU & HnU & _).
  exists evsD, evsC, evsU. by repeat split.
Qed.
End Caching.

Lemma phases_fetch_once_witness :
  ∃ p' pD pC evsD evsC evsU,
    phases exampleZones mixedChanges (mkPass (bothAddresses, []) [] ∅)
    = Some ((), p')
    ∧ forEach (Delete mixedChanges) (deleteEndpoint exampleZones)
              (mkPass (bothAddresses, []) [] ∅) = Some ((), pD)
    ∧ forEach (Create mixedChanges) (createEndpoint exampleZones)
              (mkPass (client pD) (errs pD) ∅) = Some ((), pC)
    ∧ updatePhase exampleZones mixedChanges (mkPass (client pC) (errs pC) ∅)
      = Some ((), p')
    ∧ journal pD = evsD
    ∧ journal pC = journal pD ++ evsC
    ∧ journal p' = journal pC ++ evsU
    ∧ NoDup (fetches evsD) ∧ NoDup (fetches evsC) ∧ NoDup (fetches evsU).
Proof.
  destruct (phases exampleZones mixedChanges (mkPass (bothAddresses, []) [] ∅))
    as [[[] p']|] eqn:E.
  - exists p'.
    destruct (phases_fetch_once (St := MockClientWrapper) _ _ _ _ E)
      as (pD & pC & evsD & evsC & evsU & HD & HC & HU & HjD & HjC & HjU & Hn).
    exists pD, pC, evsD, evsC, evsU. split; [reflexivity|].
    split; [exact HD|]. split; [exact HC|]. split; [exact HU|].
    split; [exact HjD|]. split; [exact HjC|]. split; [exact HjU|]. exact Hn.
  - vm_compute in E. discriminate E.
Defined.

(** ** The paired path of an update, on the mock *)

Lemma live_insert_other l idx x y r :
  r ∈ liveRecords l → l !! idx = Some x → ID x ≠ ID r →
  r ∈ liveRecords (<[idx := y]> l).
Proof.
  intros Hr Hx Hne. apply list_elem_of_filter in Hr as [Hlive Hr].
  apply list_elem_of_filter. split; [done|].
  apply list_elem_of_lookup_1 in Hr as [i Hi].
  apply list_elem_of_lookup_2 with i.
  rewrite list_lookup_insert_ne; [done|]. intros ->. congruence.
Qed.

Lemma mock_delete_others id (w : MockClientWrapper) zone l :
  db w !! zone = Some l →
  ∃ l', db (Mock.deleteRecord id w).2 !! zone = Some l'
        ∧ ∀ r, r ∈ liveRecords l → ID r ≠ id → r ∈ liveRecords l'.
Proof.
  intros Hl. unfold Mock.deleteRecord.
  destruct (idToZone w !! id) as [z|]; [|by exists l].
  destruct (db w !! z) as [recs|] eqn:Hz; [|by exists l].
  destruct (Mock.findRecord recs id) as [idx|] eqn:Hf; [|by exists l].
  apply findRecord_Some in Hf as (rec & Hrec & Hid). rewrite Hrec.
  case_bool_decide; [by exists l|]. simpl.
  destruct (decide (z = zone)) as [->|Hne].
  - rewrite lookup_insert_eq. eexists. split; [done|].
    intros r Hr Hrid. rewrite Hl in Hz. injection Hz as <-.
    eapply live_insert_other; [done|done|congruence].
  - rewrite lookup_insert_ne by done. by exists l.
Qed.

Lemma mock_update_found id req (w : MockClientWrapper) l r0 :
  db w !! rqDomain req = Some l → r0 ∈ liveRecords l → ID r0 = id →
  ∃ w' l', Mock.updateRecord id req w = (None, w')
    ∧ db w' !! rqDomain req = Some l'
    ∧ written id req ∈ liveRecords l'
    ∧ ∀ r, r ∈ liveRecords l → ID r ≠ id → r ∈ liveRecords l'.
Proof.
  intros Hl Hr0 Hid0. unfold Mock.updateRecord. rewrite Hl.
  destruct (findRecord_live l r0 Hr0) as [idx Hidx]. rewrite Hid0 in Hidx.
  rewrite Hidx. eexists _, _. split; [done|]. simpl.
  split; [by rewrite lookup_insert_eq|].
  apply findRecord_Some in Hidx as (rec & Hrec & Hid). split.
  - apply list_elem_of_filter. split.
    + simpl. rewrite <- Hid0. by apply list_elem_of_filter in Hr0 as [? _].
    + apply list_elem_of_lookup_2 with idx. apply list_lookup_insert_eq.
      by eapply lookup_lt_Some.
  - intros r Hr Hrid. eapply live_insert_other; [done|done|congruence].
Qed.

Lemma mock_createOrExists req (p : Pass MockClientWrapper) l :
  db (client p) !! rqDomain req = Some l →
  ∃ p', createOrExists req p = Some ((), p')
    ∧ db (client p') !! rqDomain req
      = Some (l ++ [written (Itoa (length l)) req]).
Proof.
  intros Hl. unfold createOrExists, mbind, M_bind, call. simpl.
  unfold Mock.createRecord. rewrite Hl. simpl.
  eexists. split; [done|]. simpl. by rewrite lookup_insert_eq.
Qed.

Section Paired.
Context (zone name : string) (recIDs : list string) (oldEp newEp : Endpoint).
Hypothesis Hlen : length recIDs = length (Targets oldEp).
Hypothesis Hnodup : NoDup recIDs.

Lemma pairedUpTo_step j l (p : Pass MockClientWrapper) :
  db (client p) !! zone = Some l →
  j < Nat.max (length (Targets oldEp)) (length (Targets newEp)) →
  pairedUpTo name recIDs newEp j l →
  ∃ p' l', updateIndex zone name recIDs oldEp newEp j p = Some ((), p')
    ∧ db (client p') !! zone = Some l'
    ∧ pairedUpTo name recIDs newEp (S j) l'.
Proof.
  intros Hl Hj [Hdone Htodo]. unfold updateIndex.
  case_bool_decide as Hnew; [|case_bool_decide as Hold].
  - (* delete *)
    assert (j < length recIDs) as Hjid by lia.
    destruct (lookup_lt_is_Some_2 recIDs j Hjid) as [id Hid].
    destruct (lookup_lt_is_Some_2 (Targets oldEp) j ltac:(lia)) as [t Ht].
    destruct (mock_delete_others id (client p) zone l Hl) as (l' & Hl' & Hkeep).
    assert (pairedUpTo name recIDs newEp (S j) l') as Hinv.
    { split.
      - intros i target Hi Hti. apply lookup_lt_Some in Hti as Hlt.
        destruct (Hdone i target ltac:(lia) Hti) as (r & Hr & ? & ? & ? & Hrid).
        exists r. split; [|done]. apply Hkeep; [done|].
        destruct (lookup_lt_is_Some_2 recIDs i ltac:(lia)) as [id' Hid'].
        rewrite (Hrid id' Hid'). intros ->.
        assert (i = j) by (by eapply NoDup_lookup). lia.
      - intros i id' Hi Hid'.
        destruct (Htodo i id' ltac:(lia) Hid') as (r & Hr & Hrid).
        exists r. split; [|done]. apply Hkeep; [done|].
        rewrite Hrid. intros ->.
        assert (i = j) by (by eapply NoDup_lookup). lia. }
    unfold mbind, M_bind, index, call. rewrite Hid. simpl.
    destruct (Mock.deleteRecord id (client p)) as [[e|] w'] eqn:Hdel;
      simpl in *.
    + unfold appendErr. simpl. rewrite Ht. by eexists _, _.
    + by eexists _, _.
  - (* create *)
    destruct (lookup_lt_is_Some_2 (Targets newEp) j ltac:(lia)) as [t Ht].
    set (req := mkRequest zone name (RecordType newEp) t (RecordTTL newEp) 0).
    destruct (mock_createOrExists req p l Hl) as (p' & Hrun & Hl').
    unfold mbind, M_bind, index. rewrite Ht. fold req. rewrite Hrun.
    eexists _, _. split; [done|]. split; [exact Hl'|]. split.
    + intros i target Hi Hti.
      destruct (decide (i = j)) as [->|Hne].
      * rewrite Ht in Hti. injection Hti as <-.
        eexists. split.
        { rewrite liveRecords_snoc, decide_True by apply Itoa_nonempty.
          apply elem_of_app. right. left. }
        simpl. split; [done|]. split; [done|]. split; [done|].
        intros id Hid. apply lookup_lt_Some in Hid. lia.
      * destruct (Hdone i target ltac:(lia) Hti) as (r & Hr & Hrest).
        exists r. split; [|done]. rewrite liveRecords_snoc.
        apply elem_of_app. by left.
    + intros i id Hi Hid. apply lookup_lt_Some in Hid. lia.
  - (* update *)
    destruct (lookup_lt_is_Some_2 (Targets newEp) j ltac:(lia)) as [t Ht].
    destruct (lookup_lt_is_Some_2 recIDs j ltac:(lia)) as [id Hid].
    destruct (Htodo j id ltac:(lia) Hid) as (r0 & Hr0 & Hrid0).
    set (req := mkRequest zone name (RecordType newEp) t (RecordTTL oldEp) 0).
    destruct (mock_update_found id req (client p) l r0 Hl Hr0 Hrid0)
      as (w' & l' & Hupd & Hl' & Hnew' & Hkeep).
    unfold mbind, M_bind, index, call. rewrite Ht, Hid. simpl.
    fold req. rewrite Hupd. simpl.
    eexists _, l'. split; [done|]. simpl. split; [done|]. split.
    + intros i target Hi Hti.
      destruct (decide (i = j)) as [->|Hne].
      * rewrite Ht in Hti. injection Hti as <-.
        exists (written id req). split; [done|]. simpl.
        split; [done|]. split; [done|]. split; [done|].
        intros id' Hid'. congruence.
      * destruct (Hdone i target ltac:(lia) Hti) as (r & Hr & ? & ? & ? & Hrid).
        exists r. split; [|done]. apply Hkeep; [done|].
        destruct (lookup_lt_is_Some_2 recIDs i ltac:(lia)) as [id' Hid'].
        rewrite (Hrid id' Hid'). intros ->.
        assert (i = j) by (by eapply NoDup_lookup). lia.
    + intros i id' Hi Hid'.
      destruct (Htodo i id' ltac:(lia) Hid') as (r & Hr & Hrid).
      exists r. split; [|done]. apply Hkeep; [done|].
      rewrite Hrid. intros ->.
      assert (i = j) by (by eapply NoDup_lookup). lia.
Qed.

Lemma pairedUpTo_loop k j l (p : Pass MockClientWrapper) :
  db (client p) !! zone = Some l →
  j + k = Nat.max (length (Targets oldEp)) (length (Targets newEp)) →
  pairedUpTo name recIDs newEp j l →
  ∃ p' l', forEach (seq j k) (updateIndex zone name recIDs oldEp newEp) p
           = Some ((), p')
    ∧ db (client p') !! zone = Some l'
    ∧ pairedUpTo name recIDs newEp (j + k) l'.
Proof.
  revert j l p. induction k as [|k IH]; intros j l p Hl Hjk Hinv; simpl.
  { exists p, l. by rewrite Nat.add_0_r. }
  destruct (pairedUpTo_step j l p Hl ltac:(lia) Hinv)
    as (p1 & l1 & Hrun1 & Hl1 & Hinv1).
  destruct (IH (S j) l1 p1 Hl1 ltac:(lia) Hinv1) as (p' & l' & Hrun & Hl' & Hinv').
  exists p', l'. unfold mbind, M_bind. rewrite Hrun1.
  split; [done|]. split; [done|]. by replace (j + S k) with (S j + k) by lia.
Qed.
End Paired.

(** X26. The paired path of an update converges on the mock: when the
    identifiers collected for the old endpoint differ from one another
    and each is that of a live record of the zone, the path does not
    panic, and afterwards every target of the new endpoint has a live
    record of the resolved name, the type and the target as content in
    the zone - the record of the same index updated, or one created.
    (A delete of a surplus record may fail; nothing is said of [errs].) *)
Theorem updatePaired_converges zone recIDs oldEp newEp l
    (p : Pass MockClientWrapper) :
  db (client p) !! zone = Some l →
  length recIDs = length (Targets oldEp) → NoDup recIDs →
  (∀ id, id ∈ recIDs → ∃ r, r ∈ liveRecords l ∧ ID r = id) →
  ∃ p' l',
    updatePaired zone (extractRecordName (DNSName newEp) zone) recIDs oldEp
                 newEp p = Some ((), p')
    ∧ db (client p') !! zone = Some l'
    ∧ ∀ target, target ∈ Targets newEp →
        ∃ r, r ∈ liveRecords l' ∧ matchesTarget zone newEp target r.
Proof.
  intros Hl Hlen Hnodup Hids. unfold updatePaired.
  rewrite Hlen, Nat.max_l by lia.
  destruct (pairedUpTo_loop zone (extractRecordName (DNSName newEp) zone)
              recIDs oldEp newEp Hlen Hnodup
              (Nat.max (length (Targets oldEp)) (length (Targets newEp)))
              0 l p Hl eq_refl)
    as (p' & l' & Hrun & Hl' & Hdone & _).
  { split; [intros; lia|]. intros i id _ Hid. apply Hids.
    by eapply list_elem_of_lookup_2. }
  exists p', l'. split; [done|]. split; [done|].
  intros target Ht. apply list_elem_of_lookup_1 in Ht as [i Hi].
  apply lookup_lt_Some in Hi as Hlt.
  destruct (Hdone i target ltac:(simpl; lia) Hi) as (r & Hr & ? & ? & ? & _).
  exists r. by repeat split.
Qed.

Lemma updatePaired_converges_witness :
  ∃ p' l',
    updatePaired "example.com"
      (extractRecordName (DNSName fooThird) "example.com") ["0"; "1"]
      fooBoth fooThird freshBoth
    = Some ((), p')
    ∧ db (client p') !! "example.com" = Some l'
    ∧ ∀ target, target ∈ Targets fooThird →
        ∃ r, r ∈ liveRecords l' ∧ matchesTarget "example.com" fooThird target r.
Proof.
  apply (updatePaired_converges "example.com" ["0"; "1"] fooBoth fooThird
           [mkRecord "0" "foo" "A" "1.1.1.1" 60 0;
            mkRecord "1" "foo" "A" "2.2.2.2" 60 0] freshBoth).
  - vm_compute. reflexivity.
  - reflexivity.
  - apply (bool_decide_unpack (NoDup ["0"; "1"])). vm_compute. exact I.
  - intros id Hin.
    apply elem_of_cons in Hin as [->|Hin];
      [|apply list_elem_of_singleton in Hin as ->].
    + exists (mkRecord "0" "foo" "A" "1.1.1.1" 60 0). split; [|done].
      apply list_elem_of_filter. split; [simpl; discriminate|left].
    + exists (mkRecord "1" "foo" "A" "2.2.2.2" 60 0). split; [|done].
      apply list_elem_of_filter. split; [simpl; discriminate|right; left].
Defined.

(** ** Identifiers across the zones of the mock *)

(** X27. The identifiers of the mock are those of one zone only: a
    record created in a zone takes the number of records of that zone as
    its identifier, whatever the other zones hold, and [idToZone] files
    the identifier under that zone. A live record of another zone with
    the same identifier can then not be deleted: the delete of its
    identifier succeeds, and leaves the other zone as it was. *)
Theorem createRecord_shadows (w w' : MockClientWrapper) req l zone' l' r :
  Mock.createRecord req w = (None, w') → db w !! rqDomain req = Some l →
  zone' ≠ rqDomain req → db w !! zone' = Some l' →
  r ∈ liveRecords l' → ID r = Itoa (length l) →
  ∃ w'', Mock.deleteRecord (ID r) w' = (None, w'')
         ∧ db w'' !! zone' = Some l'.
Proof.
  intros Hcreate Hl Hne Hl' Hr Hid. unfold Mock.createRecord in Hcreate.
  rewrite Hl in Hcreate. injection Hcreate as <-.
  unfold Mock.deleteRecord. simpl. rewrite Hid, !lookup_insert_eq.
  assert (written (Itoa (length l)) req
            ∈ liveRecords (l ++ [written (Itoa (length l)) req])) as Hnew.
  { rewrite liveRecords_snoc, decide_True by apply Itoa_nonempty.
    apply elem_of_app. right. left. }
  destruct (findRecord_live _ _ Hnew) as [idx Hidx]. simpl in Hidx.
  unfold written in Hidx. rewrite Hidx.
  apply findRecord_Some in Hidx as (rec & Hrec & Hrid). rewrite Hrec.
  rewrite bool_decide_false
    by (rewrite Hrid; apply Itoa_nonempty).
  eexists. split; [reflexivity|]. simpl.
  by rewrite !lookup_insert_ne by done.
Qed.

Lemma createRecord_shadows_witness :
  ∃ w' w'',
    Mock.createRecord otherRequest twoZones = (None, w')
    ∧ Mock.deleteRecord "1" w' = (None, w'')
    ∧ db w'' !! "example.com"
      = Some [mkRecord "0" "foo" "A" "1.1.1.1" 60 0;
              mkRecord "1" "foo" "A" "2.2.2.2" 60 0].
Proof.
  exists (Mock.createRecord otherRequest twoZones).2.
  assert (Mock.createRecord otherRequest twoZones
          = (None, (Mock.createRecord otherRequest twoZones).2)) as H
    by (vm_compute; reflexivity).
  destruct (createRecord_shadows twoZones _ otherRequest
              [mkRecord "0" "bar" "A" "4.4.4.4" 60 0] "example.com"
              [mkRecord "0" "foo" "A" "1.1.1.1" 60 0;
               mkRecord "1" "foo" "A" "2.2.2.2" 60 0]
              (mkRecord "1" "foo" "A" "2.2.2.2" 60 0) H)
    as (w'' & Hdel & Hdb).
  - vm_compute. reflexivity.
  - discriminate.
  - vm_compute. reflexivity.
  - apply list_elem_of_filter. split; [simpl; discriminate|right; left].
  - reflexivity.
  - exists w''. split; [exact H|]. split; [exact Hdel|exact Hdb].
Defined.
